(** * Prediction server: cache, cross-job synthesizer and parallel orchestrator

    A shallow embedding of [backend/prediction_server.py] (with the event
    generator of [backend/foundational_data.py] that one of its jobs
    consumes) and the properties its specification states about it,
    followed by what the server rests on: its two endpoints, the
    cleaning of the replies, [GrokClient._call_grok] of
    [backend/grok_pipeline/grok_client.py], [fetch_tweets_from_figures]
    of [backend/analyze_prominent_figure_tweets.py] and the research of
    [backend/historical_research_live.py], with further properties of
    the code.

    Modelling conventions.
    - A Python [str] is a [string] whose characters are code points below
      256 (Latin-1 text); [lower], [strip] and [in] are written out for
      that range.
    - A Python [float] is an exact rational ([Q]); [round(x, 1)] rounds to
      the nearest tenth, ties to even, and returns the reduced fraction.
    - A naive [datetime] is a number of microseconds ([Z]); the ISO text
      produced by [isoformat] and read back by [fromisoformat] denotes the
      same instant, so the stored text is modelled by the instant itself.
    - JSON payloads returned by the language-model collaborators have the
      shape their schema declares; a key the code reads with [.get] may be
      missing ([option]).
    - A call to a collaborator comes back: it returns a value or raises.
    - The three job tasks and the streaming generator share one event
      loop; a schedule lists what the loop runs next, one queue or store
      action of a task or one iteration of the generator's loop at a
      time, which covers every interleaving the event loop can produce. *)

From Stdlib Require Import QArith Qabs Qround ZArith NArith Ascii String List Bool Lia Lqa.
From Stdlib Require Import Sorting.Sorted Permutation.
From stdpp Require Import base option list strings gmap sorting.

Local Open Scope string_scope.
Local Open Scope list_scope.
Local Open Scope Z_scope.

(** ** Python strings *)

Module PyStr.

Definition code (c : ascii) : N := N_of_ascii c.

(** [str.lower] on one code point below 256. *)
Definition lower_char (c : ascii) : ascii :=
  let n := code c in
  if ((65 <=? n) && (n <=? 90))%N then ascii_of_N (n + 32)
  else if ((192 <=? n) && (n <=? 222) && negb (n =? 215))%N then ascii_of_N (n + 32)
  else c.

Fixpoint lower (s : string) : string :=
  match s with
  | EmptyString => EmptyString
  | String c r => String (lower_char c) (lower r)
  end.

(** [str.isspace] on one code point below 256. *)
Definition is_space (c : ascii) : bool :=
  let n := code c in
  (((9 <=? n) && (n <=? 13)) || ((28 <=? n) && (n <=? 32))
   || (n =? 133) || (n =? 160))%N.

Fixpoint lstrip (s : string) : string :=
  match s with
  | EmptyString => EmptyString
  | String c r => if is_space c then lstrip r else s
  end.

Fixpoint rstrip (s : string) : string :=
  match s with
  | EmptyString => EmptyString
  | String c r =>
      match rstrip r with
      | EmptyString => if is_space c then EmptyString else String c EmptyString
      | r' => String c r'
      end
  end.

Definition strip (s : string) : string := rstrip (lstrip s).

(** [needle in hay] *)
Fixpoint contains (needle hay : string) : bool :=
  String.prefix needle hay ||
  match hay with
  | EmptyString => false
  | String _ r => contains needle r
  end.

(** truth value of a [str] *)
Definition nonempty (s : string) : bool :=
  match s with EmptyString => false | _ => true end.

End PyStr.

(** ** Python numbers *)

Module PyNum.

Local Open Scope Q_scope.

(** nearest integer, ties to the even one *)
Definition round_half_even (q : Q) : Z :=
  let f := Qfloor q in
  match Qcompare (q - inject_Z f) (1 # 2) with
  | Lt => f
  | Gt => (f + 1)%Z
  | Eq => if Z.even f then f else (f + 1)%Z
  end.

(** [round(x, 1)] *)
Definition round1 (q : Q) : Q := Qred (round_half_even (q * 10) # 10).

(** [abs(x)] *)
Definition abs (q : Q) : Q := Qabs q.

(** [a < b], [a > b] *)
Definition ltb (a b : Q) : bool := negb (Qle_bool b a).
Definition gtb (a b : Q) : bool := ltb b a.

(** [max(a, b)] and [min(a, b)]: the first argument unless the second
    is strictly greater (smaller). *)
Definition max (a b : Q) : Q := if gtb b a then b else a.
Definition min (a b : Q) : Q := if ltb b a then b else a.

(** truth value of an [Optional[float]] *)
Definition truthy (x : option Q) : bool :=
  match x with
  | Some q => negb (Qeq_bool q 0)
  | None => false
  end.

(** [a or b] on optional numbers *)
Definition or_ (a b : option Q) : option Q := if truthy a then a else b.

End PyNum.

(** ** Request and result records *)

(** [OutcomeData]; [volume_usd] is the field aliased ["volume"]. *)
Record OutcomeData := {
  name : string;
  probability : option Q;
  yesPrice : option Q;
  noPrice : option Q;
  volume_usd : option Q;
}.

(** [AnalyzeRequest] *)
Record AnalyzeRequest := {
  market_id : option string;
  market_title : string;
  market_url : option string;
  total_volume_usd : option Q;
  outcomes : list OutcomeData;
  force_refresh : bool;
}.

(** [SentimentEnum] and [ConfidenceEnum] of [historical_research.py] *)
Inductive SentimentEnum := BULLISH | BEARISH | NEUTRAL | MIXED.
Inductive ConfidenceEnum := VERY_LOW | LOW | MEDIUM | HIGH | VERY_HIGH.

(** The keys that the server reads of a [HistoricalAnalysisResponse],
    or of the dict [model_dump] makes of it. *)
Record HistoricalAnalysisResponse := {
  overall_sentiment : SentimentEnum;
  overall_confidence : ConfidenceEnum;
  probability_estimate : Q;
  recommendation : string;
}.

(** One item of ["current_odds"]: a dict with optional ["market_title"]
    and ["yes_probability"], or something that is not a dict. *)
Inductive OddsItem :=
| OddsDict (odds_title : option string) (yes_probability : option Q)
| OddsOther.

(** The foundational result: the parsed JSON object, of which the server
    reads ["current_odds"] and writes ["event_query"] (the time stamp it
    writes beside it is left out). *)
Record FoundationalData := {
  event_query : string;
  current_odds : option (list OddsItem);
}.

(** ** Cross-job synthesizer: [generate_outcome_estimates] *)

Module Synth.

Import PyNum.
Local Open Scope Q_scope.

Inductive Recommendation := BUY | SELL | HOLD.

(** The text that [reasoning] starts with. *)
Inductive ReasoningBase :=
| NoText
| BasedOnHistorical (s : SentimentEnum)
| BinaryMarket (s : SentimentEnum)
| MultiOutcome (s : SentimentEnum)
| UsingMarketPrice.

(** [reasoning]: a base text with the delta sentence appended, or the
    recommendation text of the historical analysis. *)
Inductive Reasoning :=
| Undervalued (b : ReasoningBase) (delta : Q)
| Overvalued (b : ReasoningBase) (abs_delta : Q)
| FairValue (b : ReasoningBase) (delta : Q)
| RecommendationText (text : string).

(** One dict of the returned list, with the keys of
    [GrokOutcomeEstimate] ([recommendation_of] is its [recommendation]). *)
Record GrokOutcomeEstimate := {
  outcome_name : string;
  grok_probability : Q;
  market_probability : Q;
  delta : Q;
  reasoning : Reasoning;
  recommendation_of : Recommendation;
}.

(** [outcome.probability or (outcome.yesPrice * 100 if outcome.yesPrice
    else None) or 50] *)
Definition market_prob (o : OutcomeData) : Q :=
  let from_price :=
    if truthy (yesPrice o) then option_map (fun y => y * 100) (yesPrice o)
    else None in
  match or_ (or_ (probability o) from_price) (Some 50) with
  | Some q => q
  | None => 50
  end.

(** The dict [foundational_odds]: keys in first-insertion order, a later
    value for a key replaces the earlier one in place. *)
Fixpoint dict_set {V} (k : string) (v : V) (d : list (string * V)) : list (string * V) :=
  match d with
  | [] => [(k, v)]
  | (k', v') :: r => if String.eqb k k' then (k, v) :: r else (k', v') :: dict_set k v r
  end.

Definition add_odds (d : list (string * option Q)) (it : OddsItem) : list (string * option Q) :=
  match it with
  | OddsOther => d
  | OddsDict t y =>
      let title := PyStr.lower (match t with Some s => s | None => "" end) in
      dict_set title y d
  end.

Definition foundational_odds (fd : option FoundationalData) : list (string * option Q) :=
  match fd with
  | Some d =>
      match current_odds d with
      | Some items => fold_left add_odds items []
      | None => []
      end
  | None => []
  end.

(** The loop over [foundational_odds.items()]: the ["yes_probability"]
    of the first entry whose title contains, or is contained in, the
    outcome name. *)
Definition title_matches (outcome_name_lower title : string) : bool :=
  PyStr.contains outcome_name_lower title || PyStr.contains title outcome_name_lower.

Fixpoint find_odds (outcome_name_lower : string) (d : list (string * option Q))
  : option (option Q) :=
  match d with
  | [] => None
  | (title, y) :: r =>
      if title_matches outcome_name_lower title then Some y
      else find_odds outcome_name_lower r
  end.

Definition opt_Qeqb (a b : option Q) : bool :=
  match a, b with
  | Some x, Some y => Qeq_bool x y
  | None, None => true
  | _, _ => false
  end.

(** [==] on [OutcomeData]: field by field. *)
Definition outcome_eqb (a b : OutcomeData) : bool :=
  String.eqb (name a) (name b) && opt_Qeqb (probability a) (probability b)
  && opt_Qeqb (yesPrice a) (yesPrice b) && opt_Qeqb (noPrice a) (noPrice b)
  && opt_Qeqb (volume_usd a) (volume_usd b).

(** [outcomes.index(outcome)] *)
Fixpoint index_of (o : OutcomeData) (l : list OutcomeData) : option nat :=
  match l with
  | [] => None
  | x :: r => if outcome_eqb x o then Some O else option_map S (index_of o r)
  end.

(** [outcomes.index(outcome) if outcome in outcomes else dflt] *)
Definition index_or (o : OutcomeData) (l : list OutcomeData) (dflt : nat) : Z :=
  Z.of_nat (match index_of o l with Some i => i | None => dflt end).

(** The estimate taken from the historical analysis when the odds gave
    none (lines 284-312), with the text it sets. *)
Definition historical_estimate (outcomes : list OutcomeData) (o : OutcomeData)
    (overall_prob : Q) (overall_sentiment : SentimentEnum) : Q * ReasoningBase :=
  match length outcomes with
  | 1%nat => (overall_prob, BasedOnHistorical overall_sentiment)
  | 2%nat =>
      let idx := index_or o outcomes 0 in
      (if (idx =? 0)%Z then overall_prob else 100 - overall_prob,
       BinaryMarket overall_sentiment)
  | _ =>
      let adjustment : Z :=
        match overall_sentiment with
        | BULLISH => Z.max 0 (10 - index_or o outcomes (length outcomes) * 3)
        | BEARISH => Z.max 0 (index_or o outcomes 0 * 2 - 5)
        | _ => 0%Z
        end in
      (min 95 (max 5 (market_prob o + inject_Z adjustment)),
       MultiOutcome overall_sentiment)
  end.

(** [grok_prob] and the base of [reasoning] before the delta is taken. *)
Definition model_estimate (outcomes : list OutcomeData)
    (odds : list (string * option Q)) (historical : option HistoricalAnalysisResponse)
    (o : OutcomeData) : Q * ReasoningBase :=
  let from_odds : option Q :=
    match find_odds (PyStr.strip (PyStr.lower (name o))) odds with
    | Some y => y
    | None => None
    end in
  match from_odds, historical with
  | Some g, _ => (g, NoText)
  | None, Some h =>
      historical_estimate outcomes o (probability_estimate h) (overall_sentiment h)
  | None, None => (market_prob o, UsingMarketPrice)
  end.

Definition recommend (delta : Q) : Recommendation :=
  if gtb delta 5 then BUY
  else if ltb delta (-5) then SELL
  else HOLD.

(** The body of the loop over the outcomes. *)
Definition estimate_outcome (outcomes : list OutcomeData)
    (odds : list (string * option Q)) (historical : option HistoricalAnalysisResponse)
    (o : OutcomeData) : GrokOutcomeEstimate :=
  let m := market_prob o in
  let '(g, base) := model_estimate outcomes odds historical o in
  let d := round1 (g - m) in
  let rec := recommend d in
  let text :=
    match rec with
    | BUY => Undervalued base d
    | SELL => Overvalued base (abs d)
    | HOLD => FairValue base d
    end in
  let recommendation_text :=
    match historical with Some h => recommendation h | None => "" end in
  {| outcome_name := name o;
     grok_probability := round1 g;
     market_probability := round1 m;
     delta := d;
     reasoning :=
       if PyStr.nonempty recommendation_text
          && PyStr.contains (PyStr.lower (name o)) (PyStr.lower recommendation_text)
       then RecommendationText recommendation_text else text;
     recommendation_of := rec |}.

(** [estimates.sort(key=lambda x: abs(x["delta"]), reverse=True)]: a
    stable sort, largest key first. *)
Fixpoint insert_desc (e : GrokOutcomeEstimate) (l : list GrokOutcomeEstimate)
  : list GrokOutcomeEstimate :=
  match l with
  | [] => [e]
  | x :: r =>
      if ltb (abs (delta e)) (abs (delta x)) then x :: insert_desc e r
      else e :: x :: r
  end.

Definition sort_by_abs_delta (l : list GrokOutcomeEstimate) : list GrokOutcomeEstimate :=
  fold_right insert_desc [] l.

Definition generate_outcome_estimates (outcomes : list OutcomeData)
    (foundational_data : option FoundationalData)
    (historical_analysis : option HistoricalAnalysisResponse) : list GrokOutcomeEstimate :=
  let odds := foundational_odds foundational_data in
  sort_by_abs_delta (map (estimate_outcome outcomes odds historical_analysis) outcomes).

(** *** Vocabulary of the statements *)


(** A field that is [None] or [0]. *)
Definition none_or_zero (x : option Q) : Prop :=
  match x with Some q => q == 0 | None => True end.

(** The unrounded difference between the model estimate and the market
    probability of an outcome. *)
Definition exact_difference (outcomes : list OutcomeData)
    (fd : option FoundationalData) (h : option HistoricalAnalysisResponse) (o : OutcomeData) : Q :=
  fst (model_estimate outcomes (foundational_odds fd) h o) - market_prob o.



End Synth.

(** ** Results of the prominent-figures job *)

(** The dict returned by [generate_prominent_figures]. *)
Record FiguresData := {
  prominent_figures : option (list string);
  prediction_deadline : option string;
}.

(** The ["summary"] of the tweet analysis. *)
Record Summary := {
  sentiment_trend : option string;
  alpha_count : option Z;
  total_tweets_analyzed : option Z;
}.

(** The dict returned by [analyze_tweets_for_event]. *)
Record AnalysisResponse := {
  summary : option Summary;
}.

(** The dict stored in [results["prominent_figures"]]. *)
Record ProminentFigures := {
  analysis : option AnalysisResponse;
  figures_meta : FiguresData;
}.

(** ** Cache *)

Module Cache.

(** [CachedResult]; [created_at] and [expires_at] are instants. *)
Record CachedResult := {
  cache_key : string;
  created_at : Z;
  expires_at : Z;
  cached_market_title : string;
  foundational_data : option FoundationalData;
  historical_analysis : option HistoricalAnalysisResponse;
  prominent_figures_analysis : option ProminentFigures;
  outcome_estimates : option (list Synth.GrokOutcomeEstimate);
}.

Definition CACHE_TTL_MINUTES : Z := 30.

(** [timedelta(minutes=m)] in microseconds *)
Definition minutes (m : Z) : Z := m * 60 * 1000000.

(** [get_cached]: the value returned and the cache it leaves, at clock
    reading [now]. *)
Definition get_cached (now : Z) (key : string) (c : gmap string CachedResult)
  : option CachedResult * gmap string CachedResult :=
  match c !! key with
  | None => (None, c)
  | Some cached =>
      if expires_at cached <? now then (None, delete key c)
      else (Some cached, c)
  end.

(** [set_cached] *)
Definition set_cached (key : string) (result : CachedResult)
    (c : gmap string CachedResult) : gmap string CachedResult :=
  <[key := result]> c.

(** *** JSON text of the key payload *)

Definition dquote : ascii := "034"%char.
Definition backslash : ascii := "092"%char.

Definition hex_digit (n : N) : ascii :=
  if (n <? 10)%N then ascii_of_N (48 + n) else ascii_of_N (87 + n).

(** The text [json.dumps] writes for one character of a string
    ([ensure_ascii] is on). *)
Definition escape_char (c : ascii) : string :=
  let n := PyStr.code c in
  if (n =? 34)%N then String backslash (String dquote "")
  else if (n =? 92)%N then String backslash (String backslash "")
  else if (n =? 10)%N then String backslash "n"
  else if (n =? 13)%N then String backslash "r"
  else if (n =? 9)%N then String backslash "t"
  else if (n =? 8)%N then String backslash "b"
  else if (n =? 12)%N then String backslash "f"
  else if ((32 <=? n) && (n <=? 126))%N then String c ""
  else String backslash
         (String "u" (String "0" (String "0"
            (String (hex_digit (n / 16)) (String (hex_digit (n mod 16)) ""))))).

Fixpoint escape (s : string) : string :=
  match s with
  | EmptyString => EmptyString
  | String c r => escape_char c +:+ escape r
  end.

Definition json_string (s : string) : string :=
  String dquote (escape s +:+ String dquote "").

Fixpoint json_items (l : list string) : string :=
  match l with
  | [] => ""
  | [x] => json_string x
  | x :: r => json_string x +:+ ", " +:+ json_items r
  end.

Definition json_list (l : list string) : string :=
  "[" +:+ json_items l +:+ "]".

(** The dict [payload] of [generate_cache_key]. *)
Record KeyPayload := {
  payload_market_id : string;
  payload_outcome_names : list string;
}.

(** [json.dumps(payload, sort_keys=True)] *)
Definition json_dumps (p : KeyPayload) : string :=
  "{" +:+ json_string "market_id" +:+ ": " +:+ json_string (payload_market_id p)
      +:+ ", " +:+ json_string "outcome_names" +:+ ": "
      +:+ json_list (payload_outcome_names p) +:+ "}".

(** Order of [str] values: by code point, then by length. *)
Definition str_le (a b : string) : Prop := String.leb a b = true.

#[global] Instance str_le_dec : RelDecision str_le.
Proof. intros a b. unfold str_le. apply _. Defined.

(** [sorted] on a list of [str] *)
Definition sorted (l : list string) : list string := merge_sort str_le l.

(** [request.market_id or request.market_title] *)
Definition market_identity (request : AnalyzeRequest) : string :=
  match market_id request with
  | Some s => if PyStr.nonempty s then s else market_title request
  | None => market_title request
  end.

(** [[o.name.strip().lower() for o in request.outcomes]] *)
Definition normalized_names (request : AnalyzeRequest) : list string :=
  map (fun o => PyStr.lower (PyStr.strip (name o))) (outcomes request).

Definition sorted_outcome_names (request : AnalyzeRequest) : list string :=
  sorted (normalized_names request).

Definition key_payload (request : AnalyzeRequest) : KeyPayload :=
  {| payload_market_id := market_identity request;
     payload_outcome_names := sorted_outcome_names request |}.

Section Fingerprint.

(** [hashlib.sha256(text.encode()).hexdigest()] *)
Variable sha256_hexdigest : string -> string.

(** [generate_cache_key] *)
Definition generate_cache_key (request : AnalyzeRequest) : string :=
  let raw := json_dumps (key_payload request) in
  String.substring 0 16 (sha256_hexdigest raw).

End Fingerprint.

(** *** Vocabulary of the statements *)

(** Reading back one escaped character: the character and the text
    after it; nothing at a closing quote. *)
Definition hex_value (c : ascii) : N :=
  let n := PyStr.code c in
  if (n <? 58)%N then (n - 48)%N else (n - 87)%N.

Definition unescape_char (s : string) : option (ascii * string) :=
  match s with
  | EmptyString => None
  | String a rest =>
      if Ascii.eqb a backslash then
        match rest with
        | String b rest' =>
            match PyStr.code b with
            | 117%N =>
                match rest' with
                | String _ (String _ (String h (String l r))) =>
                    Some (ascii_of_N (16 * hex_value h + hex_value l), r)
                | _ => None
                end
            | 110%N => Some (ascii_of_N 10, rest')
            | 114%N => Some (ascii_of_N 13, rest')
            | 116%N => Some (ascii_of_N 9, rest')
            | 98%N => Some (ascii_of_N 8, rest')
            | 102%N => Some (ascii_of_N 12, rest')
            | _ => Some (b, rest')
            end
        | EmptyString => None
        end
      else if Ascii.eqb a dquote then None
      else Some (a, rest)
  end.

(** Two requests name the same outcomes. *)
Definition same_outcome_names (r1 r2 : AnalyzeRequest) : Prop :=
  forall n, In n (map name (outcomes r1)) <-> In n (map name (outcomes r2)).

(** Sensitivity as stated: another market identity or another set of
    outcome names gives another fingerprint. *)
Definition fingerprint_sensitive (sha256_hexdigest : string -> string) : Prop :=
  forall r1 r2,
    market_identity r1 <> market_identity r2 \/ ~ same_outcome_names r1 r2 ->
    generate_cache_key sha256_hexdigest r1 <> generate_cache_key sha256_hexdigest r2.

(** Expiry as stated: an entry is absent from its expiry instant on. *)
Definition absent_from_expiry_on : Prop :=
  forall (key : string) (entry : CachedResult) (c : gmap string CachedResult) (t : Z),
    expires_at entry <= t ->
    fst (get_cached t key (set_cached key entry c)) = None.

End Cache.

(** ** Events, the event queue and the job tasks *)

(** Task names: ["foundational"], ["historical"], ["x_sentiment"]. *)
Inductive Job := Foundational | Historical | XSentiment.

#[global] Instance Job_eq_dec : EqDecision Job.
Proof. solve_decision. Defined.

Definition all_jobs : list Job := [Foundational; Historical; XSentiment].

(** Message texts; the ones built with an f-string keep their argument
    (pictographs are left out of the literal ones). *)
Inductive Message :=
| Text (s : string)
| IdentifiedExperts (num_figures : nat)
| FetchingTweets (num_figures : nat)
| FetchedTweets (total_tweets : nat)
| FinalResponseStarted (elapsed : Q).

(** The text of an error event. *)
Inductive ErrorText :=
| ExceptionText (msg : string)
| SearchTimedOut (timeout_seconds : Q)
| AnalysisTimedOut.

(** The event dicts, by their ["type"]. *)
Inductive Event :=
| Log (message : Message)
| ToolCall (tool args : string)
| Thinking (tokens : N)
| CitationList (citations : list string)
| UsageReport
| Content (content : string)
| Status (message : Message)
| HistoricalDone (sentiment : SentimentEnum) (probability : Q) (confidence : ConfidenceEnum)
| SentimentDone (sentiment : string) (alpha signal : Z) (num_figures : nat)
| Error (error : ErrorText).

(** The value a completion marker carries. *)
Inductive JobResult :=
| FoundationalResult (r : option FoundationalData)
| HistoricalResult (r : option HistoricalAnalysisResponse)
| ProminentResult (r : option ProminentFigures).

(** What is put on [event_queue]: a [(source, event)] pair or a
    [TaskComplete]. *)
Inductive QItem :=
| QEvent (source : Job) (event : Event)
| TaskComplete (task_name : Job) (result : JobResult).

(** The dict [results] shared by the three tasks and the orchestrator. *)
Record Results := {
  res_foundational : option FoundationalData;
  res_historical : option HistoricalAnalysisResponse;
  res_prominent_figures : option ProminentFigures;
}.

Definition no_results : Results :=
  {| res_foundational := None; res_historical := None; res_prominent_figures := None |}.

(** [results[...]] for the slot that belongs to task [j] *)
Definition slot (j : Job) (r : Results) : JobResult :=
  match j with
  | Foundational => FoundationalResult (res_foundational r)
  | Historical => HistoricalResult (res_historical r)
  | XSentiment => ProminentResult (res_prominent_figures r)
  end.

(** [results[...] = v] *)
Definition store (v : JobResult) (r : Results) : Results :=
  match v with
  | FoundationalResult x =>
      {| res_foundational := x; res_historical := res_historical r;
         res_prominent_figures := res_prominent_figures r |}
  | HistoricalResult x =>
      {| res_foundational := res_foundational r; res_historical := x;
         res_prominent_figures := res_prominent_figures r |}
  | ProminentResult x =>
      {| res_foundational := res_foundational r; res_historical := res_historical r;
         res_prominent_figures := x |}
  end.

Definition slot_owner (v : JobResult) : Job :=
  match v with
  | FoundationalResult _ => Foundational
  | HistoricalResult _ => Historical
  | ProminentResult _ => XSentiment
  end.

Definition is_null (v : JobResult) : bool :=
  match v with
  | FoundationalResult None | HistoricalResult None | ProminentResult None => true
  | _ => false
  end.

(** What a task does between two suspension points. *)
Inductive Action :=
| Put (item : QItem)            (* [await event_queue.put(item)] *)
| Store (v : JobResult)         (* [results[...] = v] *)
| PutComplete (j : Job).        (* [await event_queue.put(TaskComplete(j, results[...]))] *)

(** A call to a collaborator: what it returns, or the exception it
    raises. *)
Inductive Outcome (A : Type) :=
| Returned (a : A)
| Raised (msg : string).
Arguments Returned {A} a.
Arguments Raised {A} msg.

(** ** The foundational job *)

Module FoundationalJob.

(** One [(response, chunk)] of [chat.stream()]. *)
Record Chunk := {
  elapsed : Q;                          (* [time.time() - start_time] at its arrival *)
  tool_calls : list (string * string);  (* [function.name], [function.arguments] *)
  reasoning_tokens : option N;          (* [response.usage.reasoning_tokens] *)
  chunk_content : string;               (* [chunk.content] *)
  response_citations : list string;     (* [response.citations] *)
}.

(** What the SDK does during one search. *)
Record SdkRun := {
  create_error : option string;   (* [chat.create] or [chat.append] raises *)
  chunks : list Chunk;
  stream_error : option string;   (* [chat.stream()] raises after these chunks *)
}.

(** The state of the loop over [chat.stream()]. *)
Record StreamState := {
  final_content : string;
  is_thinking : bool;
  last_response : option Chunk;
}.

Definition tokens_truthy (t : option N) : bool :=
  match t with Some n => negb (n =? 0)%N | None => false end.

(** One iteration that passed the timeout check: the events it yields
    and the next state. *)
Definition stream_step (st : StreamState) (c : Chunk) : list Event * StreamState :=
  let calls := map (fun tc => ToolCall (fst tc) (snd tc)) (tool_calls c) in
  let thinking :=
    if tokens_truthy (reasoning_tokens c) && is_thinking st
    then match reasoning_tokens c with Some n => [Thinking n] | None => [] end
    else [] in
  let starts := PyStr.nonempty (chunk_content c) && is_thinking st in
  let started := if starts then [Log (FinalResponseStarted (elapsed c))] else [] in
  let thinking' := if starts then false else is_thinking st in
  let content' :=
    if PyStr.nonempty (chunk_content c) && negb thinking'
    then final_content st +:+ chunk_content c else final_content st in
  (calls ++ thinking ++ started,
   {| final_content := content'; is_thinking := thinking'; last_response := Some c |}).

(** The loop: the events yielded, the state it ends in, and whether
    the stream was read to its end (no [break]). *)
Fixpoint stream_loop (timeout_seconds : Q) (st : StreamState) (cs : list Chunk)
  : list Event * StreamState * bool :=
  match cs with
  | [] => ([], st, true)
  | c :: r =>
      if PyNum.gtb (elapsed c) timeout_seconds
      then ([Error (SearchTimedOut timeout_seconds)], st, false)
      else
        let '(evs, st') := stream_step st c in
        let '(evs', st'', ended) := stream_loop timeout_seconds st' r in
        (evs ++ evs', st'', ended)
  end.

(** What follows the loop. *)
Definition stream_tail (st : StreamState) : list Event :=
  match last_response st with
  | Some c => [CitationList (response_citations c); UsageReport; Content (final_content st)]
  | None => [Content (final_content st)]
  end.

(** [FoundationalDataService._run_agentic_search]: the events it
    yields. *)
Definition _run_agentic_search (sdk : SdkRun) (timeout_seconds : Q) : list Event :=
  Log (Text "Grok Agent Initializing...") ::
  match create_error sdk with
  | Some e => [Error (ExceptionText e)]
  | None =>
      let st0 := {| final_content := ""; is_thinking := true; last_response := None |} in
      let '(evs, st, ended) := stream_loop timeout_seconds st0 (chunks sdk) in
      Log (Text "Starting foundational stream...") :: evs ++
      match ended, stream_error sdk with
      | true, Some e => [Error (ExceptionText e)]
      | _, _ => stream_tail st
      end
  end.

(** An event other than the content event. *)
Definition not_content (e : Event) : Prop :=
  match e with Content _ => False | _ => True end.

(** What lines 450-469 make of the content text. *)
Inductive Decoded :=
| JsonObject (data : FoundationalData)
| NoJsonObject
| DecodeError (msg : string).

(** The world the job runs in. *)
Record World := {
  service_error : option string;       (* [FoundationalDataService()] raises *)
  sdk : SdkRun;
  decode : string -> Decoded;          (* fence stripping, brace search and [json.loads] *)
  executor : Outcome unit;             (* [run_in_executor] itself fails *)
  timed_out : bool;                    (* the 200 s [wait_for] expires first *)
}.

Definition with_event_query (title : string) (d : FoundationalData) : FoundationalData :=
  {| event_query := title; current_odds := current_odds d |}.

(** The loop of [sync_foundational] over the yielded events. *)
Fixpoint consume (w : World) (title : string) (evs : list Event)
    (result_data : option FoundationalData)
  : list (Job * Event) * option FoundationalData :=
  match evs with
  | [] => ([], result_data)
  | ev :: r =>
      let '(extra, result') :=
        match ev with
        | Content text =>
            match decode w text with
            | JsonObject d => ([], Some (with_event_query title d))
            | NoJsonObject => ([], result_data)
            | DecodeError m => ([(Foundational, Error (ExceptionText m))], result_data)
            end
        | _ => ([], result_data)
        end in
      let '(rest, final) := consume w title r result' in
      ((Foundational, ev) :: extra ++ rest, final)
  end.

Definition sync_foundational (w : World) (title : string)
  : list (Job * Event) * option FoundationalData :=
  match service_error w with
  | Some e => ([(Foundational, Error (ExceptionText e))], None)
  | None => consume w title (_run_agentic_search (sdk w) 180) None
  end.

(** The [try] of [run_foundational_in_thread]: what the wait on the
    executor leaves in [events] and [result_data]. *)
Definition await_thread (w : World) (title : string)
  : list (Job * Event) * option FoundationalData :=
  if timed_out w then ([(Foundational, Error AnalysisTimedOut)], None)
  else match executor w with
       | Raised e => ([(Foundational, Error (ExceptionText e))], None)
       | Returned _ => sync_foundational w title
       end.

(** [run_foundational_in_thread] *)
Definition run_foundational_in_thread (w : World) (title : string) : list Action :=
  let '(events, result_data) := await_thread w title in
  map (fun se => Put (QEvent (fst se) (snd se))) events
  ++ [Store (FoundationalResult result_data);
      Put (TaskComplete Foundational (FoundationalResult result_data))].

(** The exception raised inside the job, if one is: the global
    timeout, a failure of the executor, of the service constructor or
    of the SDK, or a content text that cannot be decoded. *)
Definition failure (w : World) : option ErrorText :=
  if timed_out w then Some AnalysisTimedOut
  else match executor w with
       | Raised e => Some (ExceptionText e)
       | Returned _ =>
           match service_error w, create_error (sdk w) with
           | Some e, _ => Some (ExceptionText e)
           | None, Some e => Some (ExceptionText e)
           | None, None =>
               let st0 := {| final_content := ""; is_thinking := true;
                             last_response := None |} in
               let '(_, st, ended) := stream_loop 180 st0 (chunks (sdk w)) in
               match ended, stream_error (sdk w) with
               | true, Some e => Some (ExceptionText e)
               | _, _ =>
                   match decode w (final_content st) with
                   | DecodeError m => Some (ExceptionText m)
                   | _ => None
                   end
               end
           end
       end.

End FoundationalJob.

(** ** The historical job *)

Module HistoricalJob.

(** [run_historical]; [research] is what
    [HistoricalResearchClient().research_event(...).model_dump()]
    gives. *)
Definition run_historical (research : Outcome HistoricalAnalysisResponse) : list Action :=
  Put (QEvent Historical (Status (Text "Starting historical research..."))) ::
  match research with
  | Returned result =>
      [Store (HistoricalResult (Some result));
       Put (QEvent Historical
              (HistoricalDone (overall_sentiment result) (probability_estimate result)
                 (overall_confidence result)))]
  | Raised e => [Put (QEvent Historical (Error (ExceptionText e)))]
  end
  ++ [PutComplete Historical].

(** The exception raised inside the job, if one is. *)
Definition failure (research : Outcome HistoricalAnalysisResponse) : option ErrorText :=
  match research with
  | Raised e => Some (ExceptionText e)
  | Returned _ => None
  end.

End HistoricalJob.

(** ** The prominent-figures job *)

Module ProminentJob.

Record World := {
  figures : Outcome FiguresData;                   (* [generate_prominent_figures] *)
  tweets : Outcome (list (string * list string));  (* [fetch_tweets_from_figures] *)
  temp_file : Outcome unit;                        (* writing the temporary file *)
  analysed : Outcome AnalysisResponse;             (* [analyze_tweets_for_event] *)
}.

Definition status (m : Message) : Action := Put (QEvent XSentiment (Status m)).
Definition failed (e : string) : list Action :=
  [Put (QEvent XSentiment (Error (ExceptionText e))); PutComplete XSentiment].

Definition get_figures (d : FiguresData) : list string :=
  match prominent_figures d with Some l => l | None => [] end.

Definition total_tweets (t : list (string * list string)) : nat :=
  list_sum (map (fun ft => length (snd ft)) t).

Definition zero_summary : AnalysisResponse :=
  {| summary := Some {| sentiment_trend := None; alpha_count := Some 0;
                        total_tweets_analyzed := Some 0 |} |}.

(** The ["complete"] event built from the analysis (lines 661-668); the
    summary, when the response has one, is an object. *)
Definition complete_event (response : AnalysisResponse) (num_figures : nat) : Event :=
  let get {A} (f : Summary -> option A) (dflt : A) : A :=
    match summary response with
    | Some s => match f s with Some v => v | None => dflt end
    | None => dflt
    end in
  SentimentDone (get sentiment_trend "unknown") (get alpha_count 0)
    (get total_tweets_analyzed 0) num_figures.

(** [run_prominent_figures] *)
Definition run_prominent_figures (w : World) : list Action :=
  status (Text "Identifying prominent figures with Grok...") ::
  match figures w with
  | Raised e => failed e
  | Returned figures_data =>
      let num_figures := length (get_figures figures_data) in
      status (IdentifiedExperts num_figures) ::
      if (num_figures =? 0)%nat then
        [status (Text "No experts found, skipping...");
         Store (ProminentResult
                  (Some {| analysis := None; figures_meta := figures_data |}));
         PutComplete XSentiment]
      else
        status (FetchingTweets num_figures) ::
        match tweets w with
        | Raised e => failed e
        | Returned tweets_by_figure =>
            let total := total_tweets tweets_by_figure in
            status (FetchedTweets total) ::
            if (total =? 0)%nat then
              [Store (ProminentResult
                        (Some {| analysis := Some zero_summary;
                                 figures_meta := figures_data |}));
               Put (QEvent XSentiment (SentimentDone "unknown" 0 0 num_figures));
               PutComplete XSentiment]
            else
              match temp_file w with
              | Raised e => failed e
              | Returned _ =>
                  match analysed w with
                  | Raised e => failed e
                  | Returned response =>
                      [Store (ProminentResult
                                (Some {| analysis := Some response;
                                         figures_meta := figures_data |}));
                       Put (QEvent XSentiment (complete_event response num_figures));
                       PutComplete XSentiment]
                  end
              end
        end
  end.

(** The exception raised inside the job, if one is: that of the first
    collaborator call that raises among those the job comes to. *)
Definition failure (w : World) : option ErrorText :=
  match figures w with
  | Raised e => Some (ExceptionText e)
  | Returned figures_data =>
      if (length (get_figures figures_data) =? 0)%nat then None
      else match tweets w with
           | Raised e => Some (ExceptionText e)
           | Returned tweets_by_figure =>
               if (total_tweets tweets_by_figure =? 0)%nat then None
               else match temp_file w, analysed w with
                    | Raised e, _ => Some (ExceptionText e)
                    | Returned _, Raised e => Some (ExceptionText e)
                    | Returned _, Returned _ => None
                    end
           end
  end.

End ProminentJob.

(** ** The orchestrator: [run_parallel_analysis_stream] *)

Module Orchestrator.

Import Cache.

(** The server-sent events, by name (the elapsed times some of them
    report are left out). *)
Inductive Sse :=
| SseInit (key : string)
| SseParallelStart
| SseTaskComplete (task : Job)
| SseLog (source : Job) (message : Message)
| SseToolCall (source : Job) (tool args : string)
| SseThinking (source : Job) (tokens : N)
| SseCitations (source : Job) (urls : list string)
| SseStatus (source : Job) (message : Message)
| SseHistoricalComplete (sentiment : SentimentEnum) (probability : Q)
    (confidence : ConfidenceEnum)
| SseSentimentComplete (sentiment : string) (alpha signal : Z)
| SseError (source : Job) (error : ErrorText)
| SseCancelled
| SseOutcomeEstimates (estimates : list Synth.GrokOutcomeEstimate)
| SseResult (r : CachedResult)
| SseDone.

(** Where the streaming generator stands. *)
Inductive Phase :=
| Draining      (* in the [while] loop *)
| Completed     (* ran to its end: [result] and [done] sent *)
| Cancelled     (* returned after the consumer disconnected *)
| Aborted.      (* returned from the [CancelledError] handler *)

Record State := {
  tasks : Job -> list Action;         (* what each task has still to do *)
  queue : list QItem;                 (* [event_queue], oldest first *)
  results : Results;
  tasks_complete : Job -> bool;
  phase : Phase;
  sent : list Sse;                    (* the events yielded, oldest first *)
  cache : gmap string CachedResult;   (* [_cache] *)
  cancel_sent : list Job;             (* the tasks [task.cancel()] was called on *)
  seen : list QItem;                  (* history: the items dequeued, oldest first *)
}.

(** What happens next: the event loop resumes a task for one action,
    the generator runs one iteration of its loop ([disconnected] is
    what [is_disconnected()] answers), or a [CancelledError] is raised
    in the generator. *)
Inductive Tick :=
| Run (j : Job)
| Poll (disconnected : bool)
| Abort.

Definition update {A} (f : Job -> A) (j : Job) (a : A) : Job -> A :=
  fun j' => if decide (j' = j) then a else f j'.

Definition done (st : State) (j : Job) : bool :=
  match tasks st j with [] => true | _ => false end.

(** [all(tasks_complete.values())] *)
Definition all_complete (tc : Job -> bool) : bool :=
  tc Foundational && tc Historical && tc XSentiment.

(** The event the loop yields for a queued [(source, event)]. *)
Definition render (source : Job) (e : Event) : list Sse :=
  match e with
  | Log m => [SseLog source m]
  | ToolCall tool args => [SseToolCall source tool (String.substring 0 200 args)]
  | Thinking n => [SseThinking source n]
  | CitationList cites =>
      match cites with
      | [] => []
      | _ => [SseCitations source (firstn 10 cites)]
      end
  | Status m => [SseStatus source m]
  | HistoricalDone s p c =>
      match source with Historical => [SseHistoricalComplete s p c] | _ => [] end
  | SentimentDone s a g _ =>
      match source with XSentiment => [SseSentimentComplete s a g] | _ => [] end
  | Error err => [SseError source err]
  | UsageReport | Content _ => []
  end.

Section Stream.

Variable request : AnalyzeRequest.
Variable key : string.
(** the reading of [datetime.now()] when the result is built *)
Variable now : Z.

Definition exec (a : Action) (st : State) : State :=
  match a with
  | Put item =>
      {| tasks := tasks st; queue := queue st ++ [item]; results := results st;
         tasks_complete := tasks_complete st; phase := phase st; sent := sent st;
         cache := cache st; cancel_sent := cancel_sent st; seen := seen st |}
  | Store v =>
      {| tasks := tasks st; queue := queue st; results := store v (results st);
         tasks_complete := tasks_complete st; phase := phase st; sent := sent st;
         cache := cache st; cancel_sent := cancel_sent st; seen := seen st |}
  | PutComplete j' =>
      {| tasks := tasks st;
         queue := queue st ++ [TaskComplete j' (slot j' (results st))];
         results := results st;
         tasks_complete := tasks_complete st; phase := phase st; sent := sent st;
         cache := cache st; cancel_sent := cancel_sent st; seen := seen st |}
  end.

(** The event loop resumes task [j]. *)
Definition run_task (j : Job) (st : State) : State :=
  match tasks st j with
  | [] => st
  | a :: rest =>
      exec a
        {| tasks := update (tasks st) j rest; queue := queue st; results := results st;
           tasks_complete := tasks_complete st; phase := phase st; sent := sent st;
           cache := cache st; cancel_sent := cancel_sent st; seen := seen st |}
  end.

(** [task.cancel()] on every task that is not done; a cancelled task
    does nothing more. *)
Definition cancel_running (st : State) (p : Phase) (out : list Sse) : State :=
  {| tasks := fun _ => []; queue := queue st; results := results st;
     tasks_complete := tasks_complete st; phase := p; sent := sent st ++ out;
     cache := cache st;
     cancel_sent := cancel_sent st ++ filter (fun j => negb (done st j)) all_jobs;
     seen := seen st |}.

(** The result built and cached after the loop (lines 758-791); the
    wait on the three tasks returns at once, each being done when
    its marker has been dequeued. *)
Definition combined (r : Results) (estimates : list Synth.GrokOutcomeEstimate) : CachedResult :=
  {| cache_key := key;
     created_at := now;
     expires_at := now + minutes CACHE_TTL_MINUTES;
     cached_market_title := market_title request;
     foundational_data := res_foundational r;
     historical_analysis := res_historical r;
     prominent_figures_analysis := res_prominent_figures r;
     outcome_estimates := Some estimates |}.

Definition finish (st : State) : State :=
  let estimates :=
    Synth.generate_outcome_estimates (outcomes request)
      (res_foundational (results st)) (res_historical (results st)) in
  let cached_result := combined (results st) estimates in
  {| tasks := tasks st; queue := queue st; results := results st;
     tasks_complete := tasks_complete st; phase := Completed;
     sent := sent st
             ++ match estimates with [] => [] | _ => [SseOutcomeEstimates estimates] end
             ++ [SseResult cached_result; SseDone];
     cache := set_cached key cached_result (cache st);
     cancel_sent := cancel_sent st; seen := seen st |}.

(** One iteration of the loop, the queue holding [item] first. *)
Definition take (item : QItem) (rest : list QItem) (st : State) : State :=
  match item with
  | TaskComplete j _ =>
      let tc := update (tasks_complete st) j true in
      let st' :=
        {| tasks := tasks st; queue := rest; results := results st;
           tasks_complete := tc; phase := Draining;
           sent := sent st ++ [SseTaskComplete j];
           cache := cache st; cancel_sent := cancel_sent st;
           seen := seen st ++ [item] |} in
      if all_complete tc then finish st' else st'
  | QEvent source event =>
      {| tasks := tasks st; queue := rest; results := results st;
         tasks_complete := tasks_complete st; phase := Draining;
         sent := sent st ++ render source event;
         cache := cache st; cancel_sent := cancel_sent st;
         seen := seen st ++ [item] |}
  end.

Definition poll (disconnected : bool) (st : State) : State :=
  match phase st with
  | Draining =>
      if disconnected then cancel_running st Cancelled [SseCancelled]
      else match queue st with
           | [] => st                      (* the 0.5 s wait expires *)
           | item :: rest => take item rest st
           end
  | _ => st
  end.

Definition abort (st : State) : State :=
  match phase st with
  | Draining => cancel_running st Aborted []
  | _ => st
  end.

Definition step (st : State) (t : Tick) : State :=
  match t with
  | Run j => run_task j st
  | Poll d => poll d st
  | Abort => abort st
  end.

(** The state when the loop is entered: the three tasks created, the
    two opening events sent. *)
Definition start (scripts : Job -> list Action) (c : gmap string CachedResult) : State :=
  {| tasks := scripts; queue := []; results := no_results;
     tasks_complete := fun _ => false; phase := Draining;
     sent := [SseInit key; SseParallelStart];
     cache := c; cancel_sent := []; seen := [] |}.

Definition run (scripts : Job -> list Action) (c : gmap string CachedResult)
    (schedule : list Tick) : State :=
  fold_left step schedule (start scripts c).

End Stream.

(** The three tasks of a request. *)
Record Worlds := {
  foundational_world : FoundationalJob.World;
  historical_world : Outcome HistoricalAnalysisResponse;
  prominent_world : ProminentJob.World;
}.

Definition scripts_of (request : AnalyzeRequest) (w : Worlds) (j : Job) : list Action :=
  match j with
  | Foundational =>
      FoundationalJob.run_foundational_in_thread (foundational_world w) (market_title request)
  | Historical => HistoricalJob.run_historical (historical_world w)
  | XSentiment => ProminentJob.run_prominent_figures (prominent_world w)
  end.

(** The exception raised inside job [j], if one is. *)
Definition failure (w : Worlds) (j : Job) : option ErrorText :=
  match j with
  | Foundational => FoundationalJob.failure (foundational_world w)
  | Historical => HistoricalJob.failure (historical_world w)
  | XSentiment => ProminentJob.failure (prominent_world w)
  end.

(** [run_parallel_analysis_stream] under a schedule. *)
Definition run_parallel_analysis_stream (request : AnalyzeRequest) (key : string)
    (now : Z) (w : Worlds) (c : gmap string CachedResult) (schedule : list Tick) : State :=
  run request key now (scripts_of request w) c schedule.

(** *** Vocabulary of the statements *)

(** What a task puts on the queue, and what it leaves in [results],
    when it runs the actions [acts] from the results [r]. *)
Fixpoint enqueued (r : Results) (acts : list Action) : list QItem :=
  match acts with
  | [] => []
  | Put item :: rest => item :: enqueued r rest
  | Store v :: rest => enqueued (store v r) rest
  | PutComplete j :: rest => TaskComplete j (slot j r) :: enqueued r rest
  end.

Fixpoint stored (r : Results) (acts : list Action) : Results :=
  match acts with
  | [] => r
  | Store v :: rest => stored (store v r) rest
  | _ :: rest => stored r rest
  end.

(** The value task [j] leaves in its slot of [results]. *)
Definition final_result (request : AnalyzeRequest) (w : Worlds) (j : Job) : JobResult :=
  slot j (stored no_results (scripts_of request w j)).

Definition owner (i : QItem) : Job :=
  match i with QEvent s _ => s | TaskComplete n _ => n end.

Definition is_marker (i : QItem) : bool :=
  match i with TaskComplete _ _ => true | QEvent _ _ => false end.

(** The items of [l] that task [j] enqueued. *)
Definition from (j : Job) (l : list QItem) : list QItem :=
  List.filter (fun i => bool_decide (owner i = j)) l.

(** [l] holds one completion marker, that of [j], as its last item. *)
Definition marker_last (j : Job) (l : list QItem) : Prop :=
  exists body v, l = body ++ [TaskComplete j v] /\
                 Forall (fun i => is_marker i = false) body.


(** The consumer stays attached throughout the schedule. *)
Definition quiet (t : Tick) : bool :=
  match t with Run _ | Poll false => true | Poll true | Abort => false end.

Definition connected (schedule : list Tick) : Prop :=
  forallb quiet schedule = true.




(** The event the loop yields for a dequeued item. *)
Definition emit (i : QItem) : list Sse :=
  match i with
  | QEvent source event => render source event
  | TaskComplete j _ => [SseTaskComplete j]
  end.

(** The shape of a task: actions of its own, none of them a marker,
    then the marker as its last action. *)
Definition own_action (j : Job) (a : Action) : bool :=
  match a with
  | Put (QEvent s _) => bool_decide (s = j)
  | Store v => bool_decide (slot_owner v = j)
  | Put (TaskComplete _ _) | PutComplete _ => false
  end.

Definition final_action (j : Job) (a : Action) : bool :=
  match a with
  | Put (TaskComplete n _) => bool_decide (n = j)
  | PutComplete n => bool_decide (n = j)
  | _ => false
  end.

Fixpoint wf_script (j : Job) (acts : list Action) : bool :=
  match acts with
  | [] => false
  | [a] => final_action j a
  | a :: rest => own_action j a && wf_script j rest
  end.

(** An item that is the completion marker of [j]. *)
Definition marker_of (j : Job) (i : QItem) : bool :=
  is_marker i && bool_decide (owner i = j).

(** Every action of the list is one of task [j]. *)
Definition mine (j : Job) (acts : list Action) : Prop :=
  Forall (fun a => own_action j a = true \/ final_action j a = true) acts.

(** The events that only the end of a stream sends. *)
Definition closing_event (e : Sse) : bool :=
  match e with
  | SseCancelled | SseOutcomeEstimates _ | SseResult _ | SseDone => true
  | _ => false
  end.


(** *** The invariant of a stream whose consumer stays attached *)

Section Invariant.

Variable request : AnalyzeRequest.
Variable key : string.
Variable now : Z.
Variable scripts : Job -> list Action.
Variable c : gmap string CachedResult.

Definition estimates_of (r : Results) : list Synth.GrokOutcomeEstimate :=
  Synth.generate_outcome_estimates (outcomes request) (res_foundational r)
    (res_historical r).

Definition final_record (r : Results) : CachedResult :=
  combined request key now r (estimates_of r).

(** What the end of the generator sends. *)
Definition closing (st : State) : list Sse :=
  match phase st with
  | Completed =>
      match estimates_of (results st) with
      | [] => []
      | _ => [SseOutcomeEstimates (estimates_of (results st))]
      end ++ [SseResult (final_record (results st)); SseDone]
  | _ => []
  end.

Record Inv (st : State) : Prop := {
  inv_phase : phase st = Draining \/ phase st = Completed;
  inv_tasks : forall j, tasks st j = [] \/ wf_script j (tasks st j) = true;
  inv_items : forall j,
    from j (seen st ++ queue st) ++ enqueued (results st) (tasks st j) =
    enqueued no_results (scripts j);
  inv_slots : forall j,
    slot j (stored (results st) (tasks st j)) = slot j (stored no_results (scripts j));
  inv_flags : forall j, tasks_complete st j = existsb (marker_of j) (seen st);
  inv_done : phase st = Completed <-> all_complete (tasks_complete st) = true;
  inv_sent : sent st = [SseInit key; SseParallelStart] ++ flat_map emit (seen st)
                       ++ closing st;
  inv_cache : cache st = match phase st with
                         | Completed => set_cached key (final_record (results st)) c
                         | _ => c
                         end;
  inv_cancel : cancel_sent st = [];
}.

End Invariant.

Arguments inv_phase {request key now scripts c} st _.
Arguments inv_tasks {request key now scripts c} st _ j.
Arguments inv_items {request key now scripts c} st _ j.
Arguments inv_slots {request key now scripts c} st _ j.
Arguments inv_flags {request key now scripts c} st _ j.
Arguments inv_done {request key now scripts c} st _.
Arguments inv_sent {request key now scripts c} st _.
Arguments inv_cache {request key now scripts c} st _.
Arguments inv_cancel {request key now scripts c} st _.

End Orchestrator.

(** ** Sample inputs *)

Module Samples.

Import Orchestrator.

Definition sample_outcome (n : string) (p : Q) : OutcomeData :=
  {| name := n; probability := Some p; yesPrice := None; noPrice := None;
     volume_usd := None |}.

Definition sample_request (id : option string) (title : string)
    (os : list OutcomeData) : AnalyzeRequest :=
  {| market_id := id; market_title := title; market_url := None;
     total_volume_usd := None; outcomes := os; force_refresh := false |}.

Definition sample_historical (p : Q) : HistoricalAnalysisResponse :=
  {| overall_sentiment := BULLISH; overall_confidence := HIGH;
     probability_estimate := p; recommendation := "" |}.

Definition rain : AnalyzeRequest :=
  sample_request (Some "m1") "Will it rain?"
    [sample_outcome "Yes" 60; sample_outcome "No" 40].

(** A search that answers in one chunk, decoded to an object without
    odds. *)
Definition sample_foundational : FoundationalJob.World :=
  {| FoundationalJob.service_error := None;
     FoundationalJob.sdk :=
       {| FoundationalJob.create_error := None;
          FoundationalJob.chunks :=
            [{| FoundationalJob.elapsed := 2;
                FoundationalJob.tool_calls := [];
                FoundationalJob.reasoning_tokens := None;
                FoundationalJob.chunk_content := "{}";
                FoundationalJob.response_citations := ["https://x.com/a"] |}];
          FoundationalJob.stream_error := None |};
     FoundationalJob.decode :=
       fun _ => FoundationalJob.JsonObject {| event_query := ""; current_odds := None |};
     FoundationalJob.executor := Returned tt;
     FoundationalJob.timed_out := false |}.

(** No prominent figure is found. *)
Definition sample_prominent : ProminentJob.World :=
  {| ProminentJob.figures :=
       Returned {| prominent_figures := Some []; prediction_deadline := None |};
     ProminentJob.tweets := Returned [];
     ProminentJob.temp_file := Returned tt;
     ProminentJob.analysed := Returned {| summary := None |} |}.

(** The historical research raises. *)
Definition sample_worlds : Worlds :=
  {| foundational_world := sample_foundational;
     historical_world := Raised "boom";
     prominent_world := sample_prominent |}.

Definition sample_turns : list Tick :=
  concat (repeat [Run Foundational; Run XSentiment; Poll false; Run Historical] 8).

Definition sample_polls : list Tick := repeat (Poll false) 16.

End Samples.

(** ** Vocabulary for further properties of the synthesizer *)

Module SynthTerms.

Import PyNum Synth.
Local Open Scope Q_scope.

(** No entry of [foundational_odds] carries a ["yes_probability"]. *)
Definition no_quoted_odds (fd : option FoundationalData) : Prop :=
  Forall (fun kv => snd kv = None) (foundational_odds fd).

(** The estimate that repeats the market price of an outcome. *)
Definition market_fallback (o : OutcomeData) : GrokOutcomeEstimate :=
  {| outcome_name := name o;
     grok_probability := round1 (market_prob o);
     market_probability := round1 (market_prob o);
     delta := 0;
     reasoning := FairValue UsingMarketPrice 0;
     recommendation_of := HOLD |}.

End SynthTerms.

(** ** More operations on Python strings *)

Module PyText.

Import PyStr.



(** [s[:n]] and [s[n:]] for an index [n] that is not negative *)
Fixpoint take (n : nat) (s : string) : string :=
  match n, s with
  | S k, String c r => String c (take k r)
  | _, _ => EmptyString
  end.

Fixpoint drop (n : nat) (s : string) : string :=
  match n, s with
  | S k, String _ r => drop k r
  | _, _ => s
  end.

(** [s.find(sub)]: the index of the first occurrence, [None] for -1 *)
Fixpoint find (sub s : string) : option nat :=
  if String.prefix sub s then Some O
  else match s with
       | EmptyString => None
       | String _ r => option_map S (find sub r)
       end.

(** [s.rfind(sub)]: the index of the last occurrence, [None] for -1 *)
Fixpoint rfind (sub s : string) : option nat :=
  match s with
  | EmptyString => if String.prefix sub EmptyString then Some O else None
  | String _ r =>
      match rfind sub r with
      | Some i => Some (S i)
      | None => if String.prefix sub s then Some O else None
      end
  end.

(** The index as Python gives it. *)
Definition index_z (i : option nat) : Z :=
  match i with Some n => Z.of_nat n | None => -1 end.

(** [s.split(sep, 1)]: the text before the first occurrence of [sep]
    and, when [sep] occurs, the text after it (the list has one item
    when it does not). *)
Definition split1 (sep s : string) : string * option string :=
  match find sep s with
  | Some i => (take i s, Some (drop (i + String.length sep) s))
  | None => (s, None)
  end.


(** [s.replace(old, new)] for a one-character [old] *)
Fixpoint replace (old : ascii) (new : string) (s : string) : string :=
  match s with
  | EmptyString => EmptyString
  | String c r =>
      if Ascii.eqb c old then new +:+ replace old new r else String c (replace old new r)
  end.


(** A text without the character [c]. *)
Fixpoint without (c : ascii) (s : string) : bool :=
  match s with
  | EmptyString => true
  | String a r => negb (Ascii.eqb a c) && without c r
  end.

Definition backtick : ascii := "096"%char.


End PyText.

(** ** Finding the JSON text in a reply *)

Module Fences.

Import PyStr PyText.

Definition json_fence : string := "```json".
Definition fence : string := "```".


(** Lines 457-460: the text from the first opening brace to the last
    closing brace, if there is one. *)
Definition braced (clean : string) : option string :=
  let start := index_z (find "{" clean) in
  let end_ := index_z (rfind "}" clean) + 1 in
  if (0 <=? start) && (start <? end_)
  then Some (take (Z.to_nat (end_ - start)) (drop (Z.to_nat start) clean))
  else None.

Section Decode.

(** [json.loads] on a text that starts with an opening brace: the
    object, or the message of the [JSONDecodeError]. *)
Variable json_loads : string -> Outcome FoundationalData.


End Decode.

(** The text that [GrokClient._extract_json] hands to [json.loads]
    (its variable [json_str]); the index [[1]] raises when the list
    has one item. *)
Definition json_str (text : string) : Outcome string :=
  let inside (rest : option string) : Outcome string :=
    match rest with
    | Some rest => Returned (strip (fst (split1 fence rest)))
    | None => Raised "list index out of range"
    end in
  if contains json_fence text then inside (snd (split1 json_fence text))
  else if contains fence text then inside (snd (split1 fence text))
  else Returned (strip text).

End Fences.

(** ** [GrokClient._call_grok] *)

Module GrokClient.

Import PyStr Fences.

(** What one [client.post], with the reading of its answer, comes to;
    a body that is JSON has the shape of the API, so that
    [result["choices"][0]["message"]] is there. *)
Inductive Post :=
| NetworkError (e : string)      (* [ReadError], [ConnectError] or [TimeoutException] *)
| HTTPStatusError (status_code : Z) (detail : string)    (* from [raise_for_status] *)
| HTTPError (e : string)         (* any other [httpx.HTTPError] *)
| BodyNotJson (e : string)       (* [response.json()] raises [JSONDecodeError] *)
| Message (content : option string).   (* the message, with its ["content"] *)

(** The exceptions that leave [_call_grok]: the [RuntimeError]s by
    their message, and the two that are not. *)
Inductive GrokError :=
| ApiStatusFailure (status_code : Z) (detail : string)
| NetworkFailure (max_retries : nat) (e : string)
| ApiFailure (e : string)
| EmptyResponse
| NoJsonContent
| ParseFailure (e text : string)
| FailedAfter (max_retries : nat) (last_error : option string)
| IndexError (msg : string)
| UnboundLocalError (variable : string).

(** What [_call_grok] returns. *)
Inductive Reply (J : Type) :=
| FullMessage (content : option string)
| PlainText (text : string)
| Parsed (value : J).
Arguments FullMessage {J} content.
Arguments PlainText {J} text.
Arguments Parsed {J} value.

(** What a call did: the waits between its requests, the number of
    requests, and how it ended. *)
Record Call (J : Type) := {
  sleeps : list Q;
  posts : nat;
  outcome : GrokError + Reply J;
}.
Arguments sleeps {J} _.
Arguments posts {J} _.
Arguments outcome {J} _.

(** [(2 ** attempt) + 0.5] *)
Definition wait_time (attempt : nat) : Q := inject_Z (2 ^ Z.of_nat attempt) + (1 # 2).

Section CallGrok.

Context {J : Type}.

(** [json.loads]: the value, or the message of the [JSONDecodeError]. *)
Variable json_loads : string -> Outcome J.

(** What the [attempt]-th request of the call comes to. *)
Variable post : nat -> Post.

Variable return_full_response : bool.
Variable expect_json : bool.
Variable max_retries : nat.

(** [_extract_json] inside the [try] of [_call_grok]: a
    [JSONDecodeError] is caught there, the other exceptions are not. *)
Definition _extract_json (text : string) : GrokError + Reply J :=
  match json_str text with
  | Raised m => inl (IndexError m)
  | Returned s =>
      if nonempty s then
        match json_loads s with
        | Returned value => inr (Parsed value)
        | Raised e => inl (ParseFailure e text)
        end
      else inl NoJsonContent
  end.

(** The [try] block from the message on. *)
Definition answer (content : option string) : GrokError + Reply J :=
  if return_full_response then inr (FullMessage content)
  else match content with
       | None => inl EmptyResponse
       | Some text =>
           if negb (nonempty text) || negb (nonempty (strip text)) then inl EmptyResponse
           else if negb expect_json then inr (PlainText text)
           else _extract_json text
       end.

Definition ended (r : GrokError + Reply J) : Call J :=
  {| sleeps := []; posts := 1; outcome := r |}.

(** The loop [for attempt in range(max_retries)], from [attempt] on,
    with [remaining] iterations to go. *)
Fixpoint attempts (remaining attempt : nat) (last_error : option string) : Call J :=
  match remaining with
  | O => {| sleeps := []; posts := 0; outcome := inl (FailedAfter max_retries last_error) |}
  | S k =>
      match post attempt with
      | NetworkError e =>
          if (attempt <? max_retries - 1)%nat then
            let rest := attempts k (S attempt) (Some e) in
            {| sleeps := wait_time attempt :: sleeps rest;
               posts := S (posts rest);
               outcome := outcome rest |}
          else ended (inl (NetworkFailure max_retries e))
      | HTTPStatusError status_code detail => ended (inl (ApiStatusFailure status_code detail))
      | HTTPError e => ended (inl (ApiFailure e))
      | BodyNotJson _ => ended (inl (UnboundLocalError "text"))
      | Message content => ended (answer content)
      end
  end.

(** [_call_grok] *)
Definition _call_grok : Call J := attempts max_retries O None.

End CallGrok.

End GrokClient.

(** ** [fetch_tweets_from_figures] *)

Module Tweets.

Import PyStr PyText.


(** A post as the X API gives it: the text of the four fields read. *)
Record ApiPost := {
  post_id : string;
  post_text : string;
  post_author_id : string;
  post_created_at : string;
}.

(** The dict [tweet_dict]. *)
Record Tweet := {
  id : string;
  text : string;
  author_id : string;
  created_at : string;
  handle : string;
  author_name : string;
}.

(** The data of one page of a response: none, one post, or a list. *)
Inductive Page :=
| NoData
| OnePost (post : ApiPost)
| Posts (posts : list ApiPost).

(** What a search does: the request raises, or pages come, and after
    them asking for one more page may raise. *)
Record Search := {
  request_error : option string;
  pages : list Page;
  paging_error : option string;
}.

(** The world of a call: the token in the environment and, for the
    figure at each position of the list, what its search does. *)
Record World := {
  bearer_token : option string;
  search_all : nat -> string -> Search;
  search_recent : nat -> string -> Search;
}.

(** [max_tweets_per_figure and count >= max_tweets_per_figure] *)
Definition limit_reached (max_tweets_per_figure : option Z) (count : nat) : bool :=
  match max_tweets_per_figure with
  | Some m => negb (m =? 0) && (m <=? Z.of_nat count)
  | None => false
  end.

Definition tweet_dict (handle name : string) (p : ApiPost) : Tweet :=
  {| id := post_id p; text := post_text p; author_id := post_author_id p;
     created_at := post_created_at p;
     handle := "@" +:+ handle; author_name := name |}.

(** The loop over the posts of a page: [tweets] and [count]. *)
Fixpoint add_posts (max_tweets_per_figure : option Z) (handle name : string)
    (posts : list ApiPost) (st : list Tweet * nat) : list Tweet * nat :=
  match posts with
  | [] => st
  | p :: rest =>
      let st' := (fst st ++ [tweet_dict handle name p], S (snd st)) in
      if limit_reached max_tweets_per_figure (snd st') then st'
      else add_posts max_tweets_per_figure handle name rest st'
  end.

(** The loop over the pages. *)
Fixpoint read_pages (max_tweets_per_figure : option Z) (handle name : string)
    (pages : list Page) (paging_error : option string) (st : list Tweet * nat)
  : Outcome (list Tweet * nat) :=
  match pages with
  | [] =>
      match paging_error with
      | Some e => Raised e
      | None => Returned st
      end
  | page :: rest =>
      let tweet_data :=
        match page with
        | NoData => []
        | OnePost p => [p]
        | Posts l => l
        end in
      match tweet_data with
      | [] => read_pages max_tweets_per_figure handle name rest paging_error st
      | _ =>
          let st' := add_posts max_tweets_per_figure handle name tweet_data st in
          if limit_reached max_tweets_per_figure (snd st') then Returned st'
          else read_pages max_tweets_per_figure handle name rest paging_error st'
      end
  end.

(** The [try] for one figure: the list stored for its handle. *)
Definition fetch_figure (search : string -> Search) (max_tweets_per_figure : option Z)
    (handle name : string) : list Tweet :=
  let query := "from:" +:+ handle +:+ " -is:retweet" in
  match request_error (search query) with
  | Some _ => []
  | None =>
      match read_pages max_tweets_per_figure handle name (pages (search query))
              (paging_error (search query)) ([], O) with
      | Returned st => fst st
      | Raised _ => []
      end
  end.





(** *** Vocabulary of the statements *)

(** The posts that the pages hold. *)
Definition posts_of (pages : list Page) : list ApiPost :=
  flat_map (fun page =>
              match page with
              | NoData => []
              | OnePost p => [p]
              | Posts l => l
              end) pages.

(** [sum(len(tweets) for tweets in tweets_by_figure.values())] *)
Definition total_tweets (tweets_by_figure : list (string * list Tweet)) : nat :=
  list_sum (map (fun kv => length (snd kv)) tweets_by_figure).


End Tweets.

(** ** The historical research: [HistoricalResearchClient] *)

Module Research.

Import PyStr PyText.
Local Open Scope Q_scope.

(** The dict that the server reads of an analysis. *)
Definition dumped (sentiment : SentimentEnum) (conf : ConfidenceEnum) (probability : Q)
    (text : string) : HistoricalAnalysisResponse :=
  {| overall_sentiment := sentiment; overall_confidence := conf;
     probability_estimate := probability; recommendation := text |}.

(** One item of ["questions"] in a reply, every key read with [.get]. *)
Record QData := {
  q_category : option string;
  q_question_text : option string;
  q_context_requirements : option string;
}.

(** [HistoricalQuestion] *)
Record HistoricalQuestion := {
  question_number : nat;
  category : string;
  question_text : string;
  context_requirements : string;
  can_fire_independently : bool;
}.

(** [SignalData], and a signal as the reply gives it. *)
Record SignalData := {
  signal_text : string;
  direction : SentimentEnum;
  strength : Q;
  confidence : ConfidenceEnum;
  historical_precedent : string;
}.

Record RawSignal := {
  raw_signal_text : string;
  raw_direction : string;
  raw_strength : Q;
  raw_confidence : option string;
  raw_historical_precedent : string;
}.

(** The reply to the synthesis prompt: the keys read by index, and the
    two read with [.get]; a confidence may be null. *)
Record RawSynthesis := {
  raw_overall_sentiment : string;
  raw_overall_signal_strength : Q;
  raw_overall_confidence : option string;
  raw_bullish_signals : list RawSignal;
  raw_bullish_confidence : option string;
  raw_bearish_signals : list RawSignal;
  raw_bearish_confidence : option string;
  raw_neutral_observations : list string;
  raw_probability_estimate : Q;
  raw_probability_reasoning : string;
  raw_critical_path_factors : list string;
  raw_recommendation : string;
}.

(** [HistoricalAnalysisResponse] of [historical_research.py], in full. *)
Record Analysis := {
  event_id : string;
  event_description : string;
  analysis_timestamp : Z;
  overall_sentiment : SentimentEnum;
  overall_signal_strength : Q;
  overall_confidence : ConfidenceEnum;
  bullish_signals : list SignalData;
  bullish_confidence : ConfidenceEnum;
  bearish_signals : list SignalData;
  bearish_confidence : ConfidenceEnum;
  neutral_observations : list string;
  probability_estimate : Q;
  probability_reasoning : string;
  critical_path_factors : list string;
  recommendation : string;
}.

(** The keys of [model_dump()] that the server reads. *)
Definition model_dump (a : Analysis) : HistoricalAnalysisResponse :=
  dumped (overall_sentiment a) (overall_confidence a) (probability_estimate a)
    (recommendation a).

(** The exceptions of the research. *)
Inductive ResearchError :=
| CallFailed (e : string)                 (* left a call to Grok, or the validation of its answer *)
| QuestionRefused (question_number : nat) (* [HistoricalQuestion] without a question text *)
| NotASentiment (value : string)          (* [SentimentEnum(value)] *)
| NotAConfidence (value : string)         (* [ConfidenceEnum(value)] *)
| OutOfRange (model : string).            (* a number outside of 0..100 *)

(** *** Computations that may raise *)

Definition Try (A : Type) : Type := ResearchError + A.

Definition bind {A B} (x : Try A) (f : A -> Try B) : Try B :=
  match x with
  | inl e => inl e
  | inr a => f a
  end.

Notation "'let*' x := c1 'in' c2" := (bind c1 (fun x => c2))
  (at level 10, x name, c1 at level 100, c2 at level 200).

Fixpoint traverse {A B} (f : A -> Try B) (l : list A) : Try (list B) :=
  match l with
  | [] => inr []
  | a :: r => let* b := f a in let* bs := traverse f r in inr (b :: bs)
  end.

(** *** The two enumerations, by value *)

Definition SentimentEnum_of (value : string) : Try SentimentEnum :=
  if String.eqb value "bullish" then inr BULLISH
  else if String.eqb value "bearish" then inr BEARISH
  else if String.eqb value "neutral" then inr NEUTRAL
  else if String.eqb value "mixed" then inr MIXED
  else inl (NotASentiment value).

Definition ConfidenceEnum_of (value : string) : Try ConfidenceEnum :=
  if String.eqb value "very_low" then inr VERY_LOW
  else if String.eqb value "low" then inr LOW
  else if String.eqb value "medium" then inr MEDIUM
  else if String.eqb value "high" then inr HIGH
  else if String.eqb value "very_high" then inr VERY_HIGH
  else inl (NotAConfidence value).

Definition ConfidenceEnum_value (c : ConfidenceEnum) : string :=
  match c with
  | VERY_LOW => "very_low"
  | LOW => "low"
  | MEDIUM => "medium"
  | HIGH => "high"
  | VERY_HIGH => "very_high"
  end.

(** [normalize_confidence] *)
Definition normalize_confidence (conf_str : option string) : string :=
  match conf_str with
  | Some s => if nonempty s then replace " " "_" (lower s) else "medium"
  | None => "medium"
  end.

(** [Field(..., ge=0, le=100)] *)
Definition in_range (x : Q) : bool := Qle_bool 0 x && Qle_bool x 100.

(** *** [_synthesize_analysis], from the reply on *)

Definition signal_of (s : RawSignal) : Try SignalData :=
  let* d := SentimentEnum_of (raw_direction s) in
  let* c := ConfidenceEnum_of (normalize_confidence (raw_confidence s)) in
  if in_range (raw_strength s)
  then inr {| signal_text := raw_signal_text s; direction := d;
              strength := raw_strength s; confidence := c;
              historical_precedent := raw_historical_precedent s |}
  else inl (OutOfRange "SignalData").

Definition analysis_of (event_id event_description : string) (now : Z)
    (response : RawSynthesis) : Try Analysis :=
  let* sentiment := SentimentEnum_of (raw_overall_sentiment response) in
  let* conf := ConfidenceEnum_of (normalize_confidence (raw_overall_confidence response)) in
  let* bullish := traverse signal_of (raw_bullish_signals response) in
  let* bullish_conf :=
    ConfidenceEnum_of (normalize_confidence (raw_bullish_confidence response)) in
  let* bearish := traverse signal_of (raw_bearish_signals response) in
  let* bearish_conf :=
    ConfidenceEnum_of (normalize_confidence (raw_bearish_confidence response)) in
  if in_range (raw_overall_signal_strength response)
     && in_range (raw_probability_estimate response)
  then inr {| event_id := event_id;
              event_description := event_description;
              analysis_timestamp := now;
              overall_sentiment := sentiment;
              overall_signal_strength := raw_overall_signal_strength response;
              overall_confidence := conf;
              bullish_signals := bullish;
              bullish_confidence := bullish_conf;
              bearish_signals := bearish;
              bearish_confidence := bearish_conf;
              neutral_observations := raw_neutral_observations response;
              probability_estimate := raw_probability_estimate response;
              probability_reasoning := raw_probability_reasoning response;
              critical_path_factors := raw_critical_path_factors response;
              recommendation := raw_recommendation response |}
  else inl (OutOfRange "HistoricalAnalysisResponse").

(** *** The questions *)

(** [[HistoricalQuestion(question_number=i, ...) for i, q_data in
    enumerate(items, start)]] *)
Fixpoint questions_from (start : nat) (default_category : string) (items : list QData)
  : Try (list HistoricalQuestion) :=
  match items with
  | [] => inr []
  | q_data :: rest =>
      match q_question_text q_data with
      | None => inl (QuestionRefused start)
      | Some text =>
          let* qs := questions_from (S start) default_category rest in
          inr ({| question_number := start;
                  category := match q_category q_data with
                              | Some c => c
                              | None => default_category
                              end;
                  question_text := text;
                  context_requirements := match q_context_requirements q_data with
                                          | Some c => c
                                          | None => ""
                                          end;
                  can_fire_independently := true |} :: qs)
      end
  end.

(** The world of a research: what each call to Grok comes to, the
    [n]-th question put being answered by [answers n], and the clock
    reading when the analysis is built. The replies do not depend on
    the prompts, whose texts are left out. *)
Record World := {
  plan : Outcome (option (list QData));
  answers : nat -> Outcome unit;
  followups : Outcome (option (list QData));
  synthesis : Outcome RawSynthesis;
  now : Z;
}.

Definition called {A} (x : Outcome A) : Try A :=
  match x with
  | Returned a => inr a
  | Raised e => inl (CallFailed e)
  end.

Definition questions_in (reply : option (list QData)) : list QData :=
  match reply with Some l => l | None => [] end.

(** [_generate_questions_with_grok]: the questions of the
    questionnaire; [total_questions] is their number. *)
Definition _generate_questions_with_grok (w : World) : Try (list HistoricalQuestion) :=
  let* response := called (plan w) in
  questions_from 1 "GENERAL" (questions_in response).

(** [_generate_followup_questions] *)
Definition _generate_followup_questions (w : World) (total_questions : nat)
  : list HistoricalQuestion :=
  match (let* response := called (followups w) in
         questions_from (total_questions + 1) "DEEP_DIVE" (questions_in response)) with
  | inr questions => questions
  | inl _ => []
  end.

(** [_synthesize_analysis] *)
Definition _synthesize_analysis (w : World) (event_id event_description : string)
  : Try Analysis :=
  let* response := called (synthesis w) in
  analysis_of event_id event_description (now w) response.

(** *** The stream of the research *)

Inductive ResearchLog :=
| GeneratingPlan (event_description : string)
| GeneratedQuestions (total_questions : nat)
| QueryingGrok
| Investigating (i total_questions : nat) (category : string)
| InvestigatingDeeper (i : nat) (category : string)
| Answered (category : string)
| AnalyzingGaps
| DeepDive (count : nat)
| Synthesizing.

Inductive ResearchEvent :=
| ResearchLogged (message : ResearchLog)
| ResearchResult (data : Analysis).

(** A generator: what it has yielded when it stops, and whether it
    stops by an exception. *)
Definition Gen : Type := list ResearchEvent * option ResearchError.

Definition yield (m : ResearchLog) (rest : Gen) : Gen :=
  (ResearchLogged m :: fst rest, snd rest).

(** One of the two loops over questions: [i] counts from 1 within
    the loop, [asked] is the number of questions put before. *)
Fixpoint ask (w : World) (announce : nat -> string -> ResearchLog) (i asked : nat)
    (questions : list HistoricalQuestion) (rest : Gen) : Gen :=
  match questions with
  | [] => rest
  | question :: more =>
      yield (announce i (category question))
        match answers w asked with
        | Raised e => ([], Some (CallFailed e))
        | Returned _ =>
            yield (Answered (category question))
              (ask w announce (S i) (S asked) more rest)
        end
  end.

(** [stream_research_event] *)
Definition stream_research_event (w : World) (event_description event_id : string) : Gen :=
  yield (GeneratingPlan event_description)
    match _generate_questions_with_grok w with
    | inl e => ([], Some e)
    | inr questions =>
        let total_questions := length questions in
        yield (GeneratedQuestions total_questions)
          (yield QueryingGrok
             (ask w (fun i c => Investigating i total_questions c) 1 0 questions
                (yield AnalyzingGaps
                   (let deep_dive_questions :=
                      _generate_followup_questions w total_questions in
                    let finish :=
                      yield Synthesizing
                        match _synthesize_analysis w event_id event_description with
                        | inl e => ([], Some e)
                        | inr final_response => ([ResearchResult final_response], None)
                        end in
                    match deep_dive_questions with
                    | [] => finish
                    | _ =>
                        yield (DeepDive (length deep_dive_questions))
                          (ask w InvestigatingDeeper 1 total_questions
                             deep_dive_questions finish)
                    end))))
    end.

(** The data of the last result among the events. *)
Fixpoint final_result (events : list ResearchEvent) (so_far : option Analysis)
  : option Analysis :=
  match events with
  | [] => so_far
  | ResearchResult data :: rest => final_result rest (Some data)
  | ResearchLogged _ :: rest => final_result rest so_far
  end.

(** [research_event] *)
Definition research_event (w : World) (event_description event_id : string)
  : Try (option Analysis) :=
  let '(events, raised) := stream_research_event w event_description event_id in
  match raised with
  | Some e => inl e
  | None => inr (final_result events None)
  end.

(** *** Vocabulary of the statements *)

(** The questions put, in the order in which they are put, when no
    call fails. *)
Definition questions_put (w : World) : list HistoricalQuestion :=
  match _generate_questions_with_grok w with
  | inr questions => questions ++ _generate_followup_questions w (length questions)
  | inl _ => []
  end.

(** An event that is a log message. *)
Definition is_log (e : ResearchEvent) : Prop :=
  match e with ResearchLogged _ => True | ResearchResult _ => False end.

(** The categories that the stream reports as answered. *)
Definition answered (events : list ResearchEvent) : list string :=
  flat_map (fun e => match e with
                     | ResearchLogged (Answered c) => [c]
                     | _ => []
                     end) events.

(** A label that differs from the value of [c] by the case of its
    letters and by blanks in the place of underscores. *)
Fixpoint spells (label value : string) : Prop :=
  match label, value with
  | EmptyString, EmptyString => True
  | String a l, String b v =>
      (lower_char a = b \/ (a = " "%char /\ b = "_"%char)) /\ spells l v
  | _, _ => False
  end.

End Research.

(** ** Vocabulary for further properties of the agentic search *)

Module SearchTerms.

Import FoundationalJob.

(** The chunks that arrive in time: those before the first one that
    arrives after the timeout. *)
Fixpoint read (timeout_seconds : Q) (cs : list Chunk) : list Chunk :=
  match cs with
  | [] => []
  | c :: r =>
      if PyNum.gtb (elapsed c) timeout_seconds then [] else c :: read timeout_seconds r
  end.

(** Every chunk arrives in time. *)
Definition in_time (timeout_seconds : Q) (cs : list Chunk) : bool :=
  forallb (fun c => negb (PyNum.gtb (elapsed c) timeout_seconds)) cs.

(** The texts of the chunks, joined. *)
Fixpoint joined (cs : list Chunk) : string :=
  match cs with
  | [] => ""
  | c :: r => chunk_content c +:+ joined r
  end.

(** The iterations of the loop over chunks that all arrive in time. *)
Fixpoint steps (st : StreamState) (cs : list Chunk) : list Event * StreamState :=
  match cs with
  | [] => ([], st)
  | c :: r =>
      let '(evs, st') := stream_step st c in
      let '(evs', st'') := steps st' r in
      (evs ++ evs', st'')
  end.

(** The state in which the loop starts. *)
Definition initial : StreamState :=
  {| final_content := ""; is_thinking := true; last_response := None |}.

(** The log event that announces the final response. *)
Definition announces_response (e : Event) : Prop :=
  match e with Log (FinalResponseStarted _) => True | _ => False end.

(** An event that neither reports thinking nor announces the final
    response. *)
Definition after_thinking (e : Event) : Prop :=
  match e with
  | Thinking _ | Log (FinalResponseStarted _) => False
  | _ => True
  end.

End SearchTerms.

(** ** The two endpoints: [get_cached_analysis] and [analyze_market] *)

Module Endpoints.

Import Cache Orchestrator.

(** What a handler answers: a value, or the [HTTPException] it raises. *)
Inductive Http (A : Type) :=
| Answer (a : A)
| HTTPException (status_code : Z) (detail : string).
Arguments Answer {A} a.
Arguments HTTPException {A} status_code detail.

(** [get_cached_analysis]: the answer and the cache left, at clock
    reading [now]. *)
Definition get_cached_analysis (now : Z) (cache_key : string)
    (c : gmap string CachedResult) : Http CachedResult * gmap string CachedResult :=
  match get_cached now cache_key c with
  | (Some cached, c') => (Answer cached, c')
  | (None, c') => (HTTPException 404 "Cache miss or expired", c')
  end.

(** An event of a response body: the [cached] notice, or one of the
    events of the analysis stream. *)
Inductive Served :=
| SseCachedNotice (cache_key : string)
| Streamed (e : Sse).

(** What [analyze_market] returns, with the header [X-Cache-Key]: the
    stream [cached_stream] and the cache left by the lookup, or the
    analysis stream. *)
Inductive Response :=
| CachedResponse (x_cache_key : string) (events : list Served)
    (c : gmap string CachedResult)
| LiveResponse (x_cache_key : string) (st : State).

(** [cached_stream] *)
Definition cached_stream (cache_key : string) (cached : CachedResult) : list Served :=
  [SseCachedNotice cache_key; Streamed (SseResult cached); Streamed SseDone].

Section AnalyzeMarket.

Variable sha256_hexdigest : string -> string.

(** [analyze_market]: [t] is the clock reading at the cache lookup,
    [now] the one at the end of the analysis; requests are served
    one after the other. *)
Definition analyze_market (request : AnalyzeRequest) (t now : Z) (w : Worlds)
    (c : gmap string CachedResult) (schedule : list Tick) : Response :=
  let cache_key := generate_cache_key sha256_hexdigest request in
  let live c' :=
    LiveResponse cache_key
      (run_parallel_analysis_stream request cache_key now w c' schedule) in
  if force_refresh request then live c
  else match get_cached t cache_key c with
       | (Some cached, c') => CachedResponse cache_key (cached_stream cache_key cached) c'
       | (None, c') => live c'
       end.

End AnalyzeMarket.

End Endpoints.

(** ** Vocabulary for further properties of the stream *)

Module StreamTerms.

Import Orchestrator.

(** The limits the loop puts on what it forwards: 200 characters of
    tool arguments, between 1 and 10 citations. *)
Definition within_limits (e : Sse) : Prop :=
  match e with
  | SseToolCall _ _ args => (String.length args <= 200)%nat
  | SseCitations _ urls => (1 <= length urls <= 10)%nat
  | _ => True
  end.

(** The job an event sent is about, if it is about one. *)
Definition sse_source (e : Sse) : option Job :=
  match e with
  | SseTaskComplete j => Some j
  | SseLog s _ | SseToolCall s _ _ | SseThinking s _ | SseCitations s _
  | SseStatus s _ | SseError s _ => Some s
  | SseHistoricalComplete _ _ _ => Some Historical
  | SseSentimentComplete _ _ _ => Some XSentiment
  | SseInit _ | SseParallelStart | SseCancelled | SseOutcomeEstimates _
  | SseResult _ | SseDone => None
  end.

(** The events sent that are about job [j]. *)
Definition about (j : Job) (l : list Sse) : list Sse :=
  List.filter (fun e => bool_decide (sse_source e = Some j)) l.

(** A job leaves no result. *)
Definition leaves_nothing (request : AnalyzeRequest) (w : Worlds) (j : Job) : Prop :=
  is_null (final_result request w j) = true.

End StreamTerms.

(** ** More sample inputs *)

Module MoreSamples.

Import Orchestrator Samples.

(** The foundational analysis runs into its global timeout. *)
Definition late_foundational : FoundationalJob.World :=
  {| FoundationalJob.service_error := None;
     FoundationalJob.sdk := FoundationalJob.sdk sample_foundational;
     FoundationalJob.decode := FoundationalJob.decode sample_foundational;
     FoundationalJob.executor := Returned tt;
     FoundationalJob.timed_out := true |}.

Definition failing_worlds : Worlds :=
  {| foundational_world := late_foundational;
     historical_world := Raised "boom";
     prominent_world := sample_prominent |}.

(** A request that forces a refresh. *)
Definition forced_rain : AnalyzeRequest :=
  {| market_id := Some "m1"; market_title := "Will it rain?"; market_url := None;
     total_volume_usd := None; outcomes := outcomes rain; force_refresh := true |}.

(** A search in which the model thinks, answers in two chunks, and a
    third chunk arrives after the timeout. *)
Definition sample_chunk (at_second : Q) (tokens : option N) (text : string)
  : FoundationalJob.Chunk :=
  {| FoundationalJob.elapsed := at_second;
     FoundationalJob.tool_calls := [];
     FoundationalJob.reasoning_tokens := tokens;
     FoundationalJob.chunk_content := text;
     FoundationalJob.response_citations := [] |}.

Definition slow_search : FoundationalJob.SdkRun :=
  {| FoundationalJob.create_error := None;
     FoundationalJob.chunks :=
       [sample_chunk 1 (Some 40%N) ""; sample_chunk 2 (Some 90%N) "{";
        sample_chunk 3 (Some 90%N) "}"; sample_chunk 200 (Some 90%N) "late"];
     FoundationalJob.stream_error := Some "reset" |}.

(** A connection that is reset once and then answers with a fenced
    JSON text; a reader of JSON that accepts every text as it is. *)
Definition flaky_post (attempt : nat) : GrokClient.Post :=
  match attempt with
  | O => GrokClient.NetworkError "reset"
  | _ => GrokClient.Message (Some "Here it is: ```json {} ``` Good luck.")
  end.

Definition sample_loads (text : string) : Outcome string := Returned text.

(** Two figures, one without a handle; the search for the first gives
    three posts on two pages and then fails. *)
Definition sample_post (n : string) : Tweets.ApiPost :=
  {| Tweets.post_id := n; Tweets.post_text := "text " +:+ n;
     Tweets.post_author_id := "7"; Tweets.post_created_at := "2025-12-01" |}.


Definition sample_x_api : Tweets.World :=
  {| Tweets.bearer_token := Some "token";
     Tweets.search_all := fun _ _ =>
       {| Tweets.request_error := Some "403"; Tweets.pages := [];
          Tweets.paging_error := None |};
     Tweets.search_recent := fun _ _ =>
       {| Tweets.request_error := None;
          Tweets.pages := [Tweets.Posts [sample_post "1"]; Tweets.NoData;
                           Tweets.Posts [sample_post "2"; sample_post "3"]];
          Tweets.paging_error := Some "429 Too Many Requests" |} |}.

(** A research of two questions whose follow-up questions cannot be
    had. *)
Definition sample_synthesis : Research.RawSynthesis :=
  {| Research.raw_overall_sentiment := "bearish";
     Research.raw_overall_signal_strength := 28;
     Research.raw_overall_confidence := Some "Very High";
     Research.raw_bullish_signals :=
       [{| Research.raw_signal_text := "supply lines cut";
           Research.raw_direction := "bullish";
           Research.raw_strength := 45;
           Research.raw_confidence := None;
           Research.raw_historical_precedent := "1943" |}];
     Research.raw_bullish_confidence := None;
     Research.raw_bearish_signals := [];
     Research.raw_bearish_confidence := Some "low";
     Research.raw_neutral_observations := [];
     Research.raw_probability_estimate := 15;
     Research.raw_probability_reasoning := "slow advance";
     Research.raw_critical_path_factors := [];
     Research.raw_recommendation := "hold" |}.

Definition sample_question (text : string) : Research.QData :=
  {| Research.q_category := None;
     Research.q_question_text := Some text;
     Research.q_context_requirements := None |}.

Definition sample_research : Research.World :=
  {| Research.plan := Returned (Some [sample_question "How fast?"; sample_question "How far?"]);
     Research.answers := fun _ => Returned tt;
     Research.followups := Raised "timeout";
     Research.synthesis := Returned sample_synthesis;
     Research.now := 0 |}.

(** A digest function for sample runs. *)
Definition sample_digest (s : string) : string := "00112233445566778899" +:+ s.

End MoreSamples.

(** * Properties

    ** The synthesizer *)

Module SynthFacts.
Import PyNum Synth Samples.
Local Open Scope Q_scope.

Lemma round_half_even_proper (p q : Q) : p == q -> round_half_even p = round_half_even q.
Proof.
  intros E. unfold round_half_even.
  rewrite (Qfloor_comp _ _ E).
  assert (E' : p - inject_Z (Qfloor q) == q - inject_Z (Qfloor q)) by (rewrite E; reflexivity).
  rewrite (Qcompare_comp _ _ E' (1 # 2) (1 # 2) (Qeq_refl _)).
  reflexivity.
Qed.

Lemma round1_proper (p q : Q) : p == q -> round1 p = round1 q.
Proof.
  intros E. unfold round1.
  rewrite (round_half_even_proper (p * 10) (q * 10)); [reflexivity | rewrite E; reflexivity].
Qed.

Lemma ltb_lt (a b : Q) : ltb a b = true <-> a < b.
Proof.
  unfold ltb. rewrite negb_true_iff. split.
  - intros H. apply Qnot_le_lt. intros L. apply Qle_bool_iff in L. congruence.
  - intros H. destruct (Qle_bool b a) eqn:E; [|reflexivity].
    apply Qle_bool_iff in E. exfalso. exact (Qlt_not_le _ _ H E).
Qed.

Lemma ltb_ge (a b : Q) : ltb a b = false <-> b <= a.
Proof.
  unfold ltb. rewrite negb_false_iff. apply Qle_bool_iff.
Qed.

Lemma gtb_gt (a b : Q) : gtb a b = true <-> b < a.
Proof. apply ltb_lt. Qed.



Lemma Qeq_bool_refl' (q : Q) : Qeq_bool q q = true.
Proof. apply Qeq_bool_iff. reflexivity. Qed.

Lemma opt_Qeqb_refl (x : option Q) : opt_Qeqb x x = true.
Proof. destruct x; simpl; [apply Qeq_bool_refl' | reflexivity]. Qed.

Lemma outcome_eqb_refl (o : OutcomeData) : outcome_eqb o o = true.
Proof.
  unfold outcome_eqb. rewrite String.eqb_refl, !opt_Qeqb_refl. reflexivity.
Qed.

(** *** The sort *)

Lemma insert_desc_perm (e : GrokOutcomeEstimate) (l : list GrokOutcomeEstimate) :
  Permutation (insert_desc e l) (e :: l).
Proof.
  induction l as [|x r IH]; simpl.
  - reflexivity.
  - destruct (ltb (abs (delta e)) (abs (delta x))).
    + rewrite IH. apply perm_swap.
    + reflexivity.
Qed.

Lemma sort_by_abs_delta_perm (l : list GrokOutcomeEstimate) :
  Permutation (sort_by_abs_delta l) l.
Proof.
  induction l as [|x r IH]; simpl.
  - reflexivity.
  - rewrite insert_desc_perm. now apply perm_skip.
Qed.





(** *** The market probability *)

Lemma truthy_none_or_zero (x : option Q) : none_or_zero x -> truthy x = false.
Proof.
  destruct x as [q|]; simpl; [|reflexivity].
  intros E. apply negb_false_iff. now apply Qeq_bool_iff.
Qed.

Lemma market_prob_default (o : OutcomeData) :
  none_or_zero (probability o) -> none_or_zero (yesPrice o) -> market_prob o = 50.
Proof.
  intros Hp Hy. unfold market_prob, or_.
  rewrite (truthy_none_or_zero _ Hy), (truthy_none_or_zero _ Hp). reflexivity.
Qed.

Lemma truthy_nonzero (x : option Q) :
  truthy x = true -> exists q, x = Some q /\ ~ q == 0.
Proof.
  destruct x as [q|]; simpl; [|discriminate].
  intros H. exists q. split; [reflexivity|].
  intros E. apply Qeq_bool_iff in E. rewrite E in H. discriminate.
Qed.

Lemma market_prob_nonzero (o : OutcomeData) : ~ market_prob o == 0.
Proof.
  unfold market_prob, or_.
  destruct (truthy (probability o)) eqn:Ep.
  - rewrite Ep. destruct (truthy_nonzero _ Ep) as (q & -> & Hq). exact Hq.
  - destruct (truthy (yesPrice o)) eqn:Ey.
    + destruct (truthy_nonzero _ Ey) as (q & Eq' & Hq). rewrite Eq'. simpl.
      destruct (Qeq_bool (q * 100) 0) eqn:E; simpl.
      * discriminate.
      * intros E0. apply Qeq_bool_iff in E0. congruence.
    + simpl. discriminate.
Qed.




Lemma recommend_sell (d : Q) : recommend d = SELL <-> d < -5.
Proof.
  unfold recommend. destruct (gtb d 5) eqn:E.
  - split; [discriminate|]. intros H. apply gtb_gt in E.
    exfalso. apply (Qlt_irrefl d). eapply Qlt_trans; [exact H|].
    eapply Qlt_trans; [|exact E]. reflexivity.
  - destruct (ltb d (-5)) eqn:E'.
    + split; [intros _; now apply ltb_lt | reflexivity].
    + split; [discriminate|]. intros H. apply ltb_lt in H. congruence.
Qed.


Lemma estimate_fields (outcomes : list OutcomeData) (fd : option FoundationalData)
    (h : option HistoricalAnalysisResponse) (o : OutcomeData) :
  let e := estimate_outcome outcomes (foundational_odds fd) h o in
  outcome_name e = name o /\
  grok_probability e = round1 (fst (model_estimate outcomes (foundational_odds fd) h o)) /\
  market_probability e = round1 (market_prob o) /\
  delta e = round1 (exact_difference outcomes fd h o) /\
  recommendation_of e = recommend (delta e).
Proof.
  unfold estimate_outcome, exact_difference.
  destruct (model_estimate outcomes (foundational_odds fd) h o) as [g base]; simpl.
  repeat split.
Qed.

Lemma in_generate (outcomes : list OutcomeData) (fd : option FoundationalData)
    (h : option HistoricalAnalysisResponse) (e : GrokOutcomeEstimate) :
  In e (generate_outcome_estimates outcomes fd h) <->
  exists o, In o outcomes /\ e = estimate_outcome outcomes (foundational_odds fd) h o.
Proof.
  unfold generate_outcome_estimates. split.
  - intros H. apply (Permutation_in _ (sort_by_abs_delta_perm _)) in H.
    apply in_map_iff in H. destruct H as (o & <- & Ho). now exists o.
  - intros (o & Ho & ->).
    apply (Permutation_in _ (Permutation_sym (sort_by_abs_delta_perm _))).
    apply in_map_iff. now exists o.
Qed.







(** C7. For the two outcomes "Yes" and "No", when the foundational
    result has no odds entry matching either name and the overall
    probability estimate of the historical result is 70, the estimates
    returned are the one for "Yes" with model estimate 70 and the one
    for "No" with model estimate 30. *)
Theorem binary_yes_no_70 (y n : OutcomeData) (fd : option FoundationalData)
    (h : HistoricalAnalysisResponse) :
  name y = "Yes" -> name n = "No" ->
  find_odds "yes" (foundational_odds fd) = None ->
  find_odds "no" (foundational_odds fd) = None ->
  probability_estimate h == 70 ->
  exists ey en,
    Permutation (generate_outcome_estimates [y; n] fd (Some h)) [ey; en] /\
    outcome_name ey = "Yes" /\ grok_probability ey = 70 /\
    outcome_name en = "No" /\ grok_probability en = 30.
Proof.
  intros Hy Hn Fy Fn Hp.
  exists (estimate_outcome [y; n] (foundational_odds fd) (Some h) y),
         (estimate_outcome [y; n] (foundational_odds fd) (Some h) n).
  split; [apply sort_by_abs_delta_perm|].
  destruct (estimate_fields [y; n] fd (Some h) y) as (N1 & G1 & _).
  destruct (estimate_fields [y; n] fd (Some h) n) as (N2 & G2 & _).
  cbv beta in *.
  assert (My : fst (model_estimate [y; n] (foundational_odds fd) (Some h) y) == 70).
  { unfold model_estimate. rewrite Hy. change (PyStr.strip (PyStr.lower "Yes")) with "yes".
    rewrite Fy. unfold historical_estimate. simpl length. unfold index_or. simpl index_of.
    rewrite outcome_eqb_refl. simpl. exact Hp. }
  assert (Mn : fst (model_estimate [y; n] (foundational_odds fd) (Some h) n) == 30).
  { unfold model_estimate. rewrite Hn. change (PyStr.strip (PyStr.lower "No")) with "no".
    rewrite Fn. unfold historical_estimate. simpl length. unfold index_or. simpl index_of.
    assert (E : outcome_eqb y n = false).
    { unfold outcome_eqb. rewrite Hy, Hn. reflexivity. }
    rewrite E, outcome_eqb_refl. simpl. rewrite Hp. reflexivity. }
  rewrite N1, N2, G1, G2, Hy, Hn.
  rewrite (round1_proper _ _ My), (round1_proper _ _ Mn).
  repeat split.
Qed.

Lemma binary_yes_no_70_witness :
  exists ey en,
    Permutation
      (generate_outcome_estimates [sample_outcome "Yes" 60; sample_outcome "No" 40] None
         (Some (sample_historical 70))) [ey; en] /\
    outcome_name ey = "Yes" /\ grok_probability ey = 70 /\
    outcome_name en = "No" /\ grok_probability en = 30.
Proof.
  apply (binary_yes_no_70 (sample_outcome "Yes" 60) (sample_outcome "No" 40) None
           (sample_historical 70)); reflexivity.
Defined.

(** C10. An outcome whose [probability] is [None] or 0 and whose
    [yesPrice] is [None] or 0 has market probability 50; no outcome
    quoted at probability 0 has market probability 0; and without any
    job data the estimate of such an outcome has model estimate 50,
    market probability 50, delta 0 and the recommendation HOLD, and is
    among the estimates returned. *)
Theorem unquoted_outcome_defaults_to_50 (outcomes : list OutcomeData) (o : OutcomeData) :
  none_or_zero (probability o) -> none_or_zero (yesPrice o) ->
  market_prob o = 50 /\
  ~ market_prob o == 0 /\
  let e := estimate_outcome outcomes (foundational_odds None) None o in
  grok_probability e = 50 /\ market_probability e = 50 /\ delta e = 0 /\
  recommendation_of e = HOLD /\
  (In o outcomes -> In e (generate_outcome_estimates outcomes None None)).
Proof.
  intros Hp Hy. pose proof (market_prob_default o Hp Hy) as M.
  split; [exact M|]. split; [apply market_prob_nonzero|].
  cbv zeta. unfold estimate_outcome, model_estimate. simpl foundational_odds.
  simpl find_odds. cbv iota beta. rewrite M.
  repeat split.
  intros Ho. apply in_generate. exists o. split; [exact Ho|].
  unfold estimate_outcome, model_estimate. simpl foundational_odds.
  simpl find_odds. cbv iota beta. rewrite M. reflexivity.
Qed.

Lemma unquoted_outcome_defaults_to_50_witness :
  market_prob {| name := "Yes"; probability := Some 0; yesPrice := None;
                 noPrice := None; volume_usd := None |} = 50.
Proof.
  apply (unquoted_outcome_defaults_to_50 []
           {| name := "Yes"; probability := Some 0; yesPrice := None;
              noPrice := None; volume_usd := None |}); simpl; reflexivity.
Defined.

End SynthFacts.

(** ** The cache and the fingerprint *)

Module CacheFacts.
Import Cache Samples.

(** *** The order on strings *)

Lemma ascii_compare_N (a b : ascii) :
  Ascii.compare a b = N.compare (N_of_ascii a) (N_of_ascii b).
Proof. reflexivity. Qed.

Lemma ascii_compare_eq (a b : ascii) : Ascii.compare a b = Eq -> a = b.
Proof. apply Ascii.compare_eq_iff. Qed.

Lemma leb_trans (a b c : string) :
  String.leb a b = true -> String.leb b c = true -> String.leb a c = true.
Proof.
  unfold String.leb. revert b c.
  induction a as [|x a IH]; intros [|y b] [|z c]; simpl; try congruence.
  rewrite !ascii_compare_N.
  destruct (N.compare_spec (N_of_ascii x) (N_of_ascii y)) as [E1|L1|G1];
    destruct (N.compare_spec (N_of_ascii y) (N_of_ascii z)) as [E2|L2|G2];
    try congruence.
  - rewrite E1, E2, N.compare_refl. apply IH.
  - rewrite E1. intros _ _. apply N.compare_lt_iff in L2. now rewrite L2.
  - rewrite <- E2. intros _ _. apply N.compare_lt_iff in L1. now rewrite L1.
  - intros _ _. assert (L : (N_of_ascii x < N_of_ascii z)%N) by lia.
    apply N.compare_lt_iff in L. now rewrite L.
Qed.

#[local] Instance str_le_trans : Transitive str_le.
Proof. intros a b c. apply leb_trans. Qed.

#[local] Instance str_le_total : Total str_le.
Proof. intros a b. apply String.leb_total. Qed.

#[local] Instance str_le_antisym : AntiSymm (=) str_le.
Proof. intros a b. apply String.leb_antisym. Qed.

Lemma sorted_perm (l1 l2 : list string) :
  Permutation l1 l2 -> sorted l1 = sorted l2.
Proof.
  intros P. unfold sorted.
  apply (Sorted_unique str_le).
  - apply Sorted_merge_sort; apply _.
  - apply Sorted_merge_sort; apply _.
  - rewrite !merge_sort_Permutation. exact P.
Qed.

Lemma sorted_eq_perm (l1 l2 : list string) :
  sorted l1 = sorted l2 -> Permutation l1 l2.
Proof.
  unfold sorted. intros E.
  rewrite <- (merge_sort_Permutation str_le l1), E.
  apply merge_sort_Permutation.
Qed.



(** *** The JSON text determines the payload *)

Local Arguments String.append !s1 s2 : simpl nomatch.

Lemma append_assoc (a b c : string) : (a +:+ b) +:+ c = a +:+ (b +:+ c).
Proof. induction a as [|x a IH]; simpl; [reflexivity | now rewrite IH]. Qed.

Lemma append_inv_head (k x y : string) : k +:+ x = k +:+ y -> x = y.
Proof. induction k as [|c k IH]; simpl; intros E; [exact E | inversion E; auto]. Qed.

Lemma unescape_escape_char (c : ascii) (r : string) :
  unescape_char (escape_char c +:+ r) = Some (c, r).
Proof.
  destruct c as [[] [] [] [] [] [] [] []]; reflexivity.
Qed.

Lemma unescape_dquote (r : string) : unescape_char (String dquote r) = None.
Proof. reflexivity. Qed.

Lemma escape_inj (s1 s2 x y : string) :
  escape s1 +:+ String dquote x = escape s2 +:+ String dquote y -> s1 = s2 /\ x = y.
Proof.
  revert s2. induction s1 as [|c1 s1 IH]; intros [|c2 s2]; simpl; intros E.
  - now inversion E.
  - apply (f_equal unescape_char) in E.
    rewrite append_assoc, unescape_escape_char, unescape_dquote in E. discriminate.
  - apply (f_equal unescape_char) in E.
    rewrite append_assoc, unescape_escape_char, unescape_dquote in E. discriminate.
  - apply (f_equal unescape_char) in E.
    rewrite !append_assoc, !unescape_escape_char in E.
    inversion E as [[Ec Er]]. destruct (IH _ Er) as [-> ->]. now split.
Qed.

Lemma json_string_app (s x : string) :
  json_string s +:+ x = String dquote (escape s +:+ String dquote x).
Proof. unfold json_string. simpl. now rewrite append_assoc. Qed.

Lemma json_string_inj (s1 s2 x y : string) :
  json_string s1 +:+ x = json_string s2 +:+ y -> s1 = s2 /\ x = y.
Proof.
  rewrite !json_string_app. intros E. inversion E as [E']. now apply escape_inj.
Qed.

Lemma json_items_cons (a : string) (r : list string) (x : string) :
  json_items (a :: r) +:+ x =
  json_string a +:+ match r with [] => x | _ => ", " +:+ (json_items r +:+ x) end.
Proof.
  destruct r as [|b r]; [reflexivity|].
  change (json_items (a :: b :: r)) with (json_string a +:+ ", " +:+ json_items (b :: r)).
  now rewrite !append_assoc.
Qed.

Lemma json_items_inj (l1 l2 : list string) (x y : string) :
  json_items l1 +:+ String "]" x = json_items l2 +:+ String "]" y -> l1 = l2 /\ x = y.
Proof.
  revert l2. induction l1 as [|a1 r1 IH]; intros [|a2 r2].
  - simpl. intros E. now inversion E.
  - rewrite json_items_cons, json_string_app. simpl. discriminate.
  - rewrite json_items_cons, json_string_app. simpl. discriminate.
  - rewrite !json_items_cons. intros E.
    apply json_string_inj in E. destruct E as [-> E].
    destruct r1 as [|b1 r1], r2 as [|b2 r2].
    + now inversion E.
    + simpl in E. discriminate.
    + simpl in E. discriminate.
    + apply append_inv_head in E.
      destruct (IH _ E) as [-> ->]. now split.
Qed.

Lemma json_dumps_inj (p1 p2 : KeyPayload) : json_dumps p1 = json_dumps p2 -> p1 = p2.
Proof.
  destruct p1 as [i1 n1], p2 as [i2 n2]. unfold json_dumps.
  cbn [payload_market_id payload_outcome_names].
  intros E. do 3 apply append_inv_head in E.
  apply json_string_inj in E. destruct E as [-> E].
  do 3 apply append_inv_head in E.
  unfold json_list in E. rewrite !append_assoc in E.
  apply append_inv_head in E.
  apply (json_items_inj n1 n2 "}" "}") in E. destruct E as [-> _]. reflexivity.
Qed.



(** C4. Two requests with the same market id and title whose outcome
    lists carry the same names, in any order and with any prices and
    volumes, have the same fingerprint. *)
Theorem fingerprint_determinism (sha256_hexdigest : string -> string)
    (r1 r2 : AnalyzeRequest) :
  market_id r1 = market_id r2 ->
  market_title r1 = market_title r2 ->
  Permutation (map name (outcomes r1)) (map name (outcomes r2)) ->
  generate_cache_key sha256_hexdigest r1 = generate_cache_key sha256_hexdigest r2.
Proof.
  intros Hid Ht Hp. unfold generate_cache_key, key_payload.
  unfold market_identity. rewrite Hid, Ht.
  unfold sorted_outcome_names, normalized_names.
  rewrite (sorted_perm
             (map (fun o => PyStr.lower (PyStr.strip (name o))) (outcomes r1))
             (map (fun o => PyStr.lower (PyStr.strip (name o))) (outcomes r2))).
  - reflexivity.
  - rewrite <- (map_map name (fun n => PyStr.lower (PyStr.strip n)) (outcomes r1)).
    rewrite <- (map_map name (fun n => PyStr.lower (PyStr.strip n)) (outcomes r2)).
    now apply Permutation_map.
Qed.

Lemma fingerprint_determinism_witness :
  generate_cache_key (fun s => s)
    (sample_request (Some "m1") "Will it rain?"
       [sample_outcome "Yes" 60; sample_outcome "No" 40]) =
  generate_cache_key (fun s => s)
    (sample_request (Some "m1") "Will it rain?"
       [sample_outcome "No" 35; sample_outcome "Yes" 65]).
Proof.
  apply fingerprint_determinism.
  - reflexivity.
  - reflexivity.
  - simpl. apply perm_swap.
Defined.

(** C6 (as stated) fails, whatever the hash: the outcome names "Yes"
    and "yes" are different names and give the same fingerprint. *)
Lemma fingerprint_sensitive_fails :
  ~ exists sha256_hexdigest, fingerprint_sensitive sha256_hexdigest.
Proof.
  intros [sha S].
  apply (S (sample_request None "Will it rain?" [sample_outcome "Yes" 60])
           (sample_request None "Will it rain?" [sample_outcome "yes" 60])).
  - right. intros H. destruct (H "Yes") as [H1 _].
    simpl in H1. destruct (H1 (or_introl eq_refl)) as [E|[]]. discriminate E.
  - reflexivity.
Qed.

(** C6 (as amended). Two requests that differ in market identity (the
    market id when it is not empty, else the title) or in the multiset
    of their stripped, lower-cased outcome names are hashed from
    different JSON texts, and have different fingerprints unless the
    first 16 digits of the digests of these two texts coincide. *)
Theorem fingerprint_sensitivity (sha256_hexdigest : string -> string)
    (r1 r2 : AnalyzeRequest) :
  market_identity r1 <> market_identity r2 \/
    ~ Permutation (normalized_names r1) (normalized_names r2) ->
  json_dumps (key_payload r1) <> json_dumps (key_payload r2) /\
  ((String.substring 0 16 (sha256_hexdigest (json_dumps (key_payload r1))) =
    String.substring 0 16 (sha256_hexdigest (json_dumps (key_payload r2))) ->
    json_dumps (key_payload r1) = json_dumps (key_payload r2)) ->
   generate_cache_key sha256_hexdigest r1 <> generate_cache_key sha256_hexdigest r2).
Proof.
  intros D.
  assert (N : json_dumps (key_payload r1) <> json_dumps (key_payload r2)).
  { intros E. apply json_dumps_inj in E. unfold key_payload in E.
    inversion E as [[Ei En]]. destruct D as [D|D].
    - now apply D.
    - apply D. now apply sorted_eq_perm. }
  split; [exact N|].
  intros Inj E. apply N, Inj. exact E.
Qed.

Lemma fingerprint_sensitivity_witness :
  generate_cache_key (fun s => s)
    (sample_request None "a" [sample_outcome "Yes" 60]) <>
  generate_cache_key (fun s => s)
    (sample_request None "b" [sample_outcome "Yes" 60]).
Proof.
  apply (fingerprint_sensitivity (fun s => s)
           (sample_request None "a" [sample_outcome "Yes" 60])
           (sample_request None "b" [sample_outcome "Yes" 60])).
  - left. vm_compute. discriminate.
  - vm_compute. discriminate.
Defined.

(** C5 (as stated) fails: at the very instant of its expiry an entry
    is still returned. *)
Lemma absent_from_expiry_on_fails : ~ absent_from_expiry_on.
Proof.
  intros A.
  pose proof (A "k" (Orchestrator.combined (sample_request None "a" []) "k" 0
                       no_results []) ∅ (minutes CACHE_TTL_MINUTES) (Z.le_refl _)) as H.
  vm_compute in H. discriminate H.
Qed.

(** C5 (as amended). The result the orchestrator stores at instant [T]
    expires at [T] plus 30 minutes; a lookup at any instant up to and
    including the expiry returns it and leaves the cache as it is; a
    lookup at any later instant returns nothing and removes the entry
    from the cache. *)
Theorem cache_expiry_boundary (request : AnalyzeRequest) (key : string) (T : Z)
    (r : Results) (estimates : list Synth.GrokOutcomeEstimate) (c : gmap string CachedResult)
    (T' : Z) :
  let entry := Orchestrator.combined request key T r estimates in
  let stored := set_cached key entry c in
  expires_at entry = T + minutes CACHE_TTL_MINUTES /\
  (T' <= T + minutes CACHE_TTL_MINUTES ->
     get_cached T' key stored = (Some entry, stored)) /\
  (T + minutes CACHE_TTL_MINUTES < T' ->
     get_cached T' key stored = (None, delete key stored) /\
     delete key stored !! key = None).
Proof.
  cbv zeta. split; [reflexivity|].
  unfold get_cached, set_cached. rewrite lookup_insert_eq.
  cbn [expires_at Orchestrator.combined].
  split; intros H.
  - destruct (Z.ltb_spec (T + minutes CACHE_TTL_MINUTES) T'); [lia | reflexivity].
  - destruct (Z.ltb_spec (T + minutes CACHE_TTL_MINUTES) T'); [|lia].
    split; [reflexivity | apply lookup_delete_eq].
Qed.

Lemma cache_expiry_boundary_witness :
  get_cached 5 "k"
    (set_cached "k" (Orchestrator.combined (sample_request None "a" []) "k" 0
                       no_results []) ∅) =
  (Some (Orchestrator.combined (sample_request None "a" []) "k" 0 no_results []),
   set_cached "k" (Orchestrator.combined (sample_request None "a" []) "k" 0
                     no_results []) ∅).
Proof.
  apply (cache_expiry_boundary (sample_request None "a" []) "k" 0 no_results [] ∅ 5).
  vm_compute. discriminate.
Defined.

End CacheFacts.

(** ** The scripts of the three jobs *)

Module JobFacts.
Import Orchestrator.

(** *** Shape of a well-formed script *)

Lemma wf_script_app (j : Job) (body : list Action) (a : Action) :
  forallb (own_action j) body = true -> final_action j a = true ->
  wf_script j (body ++ [a]) = true.
Proof.
  intros Hb Ha. induction body as [|b body IH]; simpl.
  - exact Ha.
  - simpl in Hb. apply andb_true_iff in Hb. destruct Hb as [Hb1 Hb2].
    rewrite Hb1, (IH Hb2). simpl.
    destruct (body ++ [a]) eqn:E; [|reflexivity].
    destruct body; discriminate E.
Qed.

Lemma wf_script_cons (j : Job) (a : Action) (rest : list Action) :
  wf_script j (a :: rest) = true ->
  (rest = [] /\ final_action j a = true) \/
  (own_action j a = true /\ wf_script j rest = true).
Proof.
  simpl. destruct rest as [|b rest].
  - intros H. now left.
  - intros H. apply andb_true_iff in H. now right.
Qed.

Lemma final_not_own (j : Job) (a : Action) :
  final_action j a = true -> own_action j a = false.
Proof. destruct a as [[]| |]; simpl; congruence. Qed.

Lemma enqueued_own_owner (j : Job) (a : Action) (r : Results) (rest : list Action) :
  own_action j a = true ->
  exists pre, enqueued r (a :: rest) = pre ++ enqueued (stored r [a]) rest /\
              Forall (fun i => is_marker i = false /\ owner i = j) pre.
Proof.
  destruct a as [[s e|]|v|]; simpl; try discriminate; intros H.
  - exists [QEvent s e]. split; [reflexivity|]. constructor; [|constructor].
    split; [reflexivity|]. simpl. now apply bool_decide_eq_true in H.
  - exists []. split; [reflexivity | constructor].
Qed.

(** A well-formed script enqueues items of its own, the last of which
    is its only marker. *)
Lemma wf_enqueued (j : Job) (acts : list Action) (r : Results) :
  wf_script j acts = true ->
  exists body v, enqueued r acts = body ++ [TaskComplete j v] /\
                 Forall (fun i => is_marker i = false /\ owner i = j) body.
Proof.
  revert r. induction acts as [|a rest IH]; intros r H; [discriminate|].
  destruct (wf_script_cons _ _ _ H) as [[-> Hf]|[Ho Hw]].
  - destruct a as [[|n v]| |n]; simpl in Hf; try discriminate;
      apply bool_decide_eq_true in Hf; subst n.
    + exists [], v. split; [reflexivity | constructor].
    + exists [], (slot j r). split; [reflexivity | constructor].
  - destruct (enqueued_own_owner j a r rest Ho) as (pre & E & Hpre).
    destruct (IH (stored r [a]) Hw) as (body & v & E' & Hbody).
    exists (pre ++ body), v. split.
    + rewrite E, E'. now rewrite app_assoc.
    + apply Forall_app. now split.
Qed.

Lemma wf_marker_last (j : Job) (acts : list Action) (r : Results) :
  wf_script j acts = true -> marker_last j (enqueued r acts).
Proof.
  intros H. destruct (wf_enqueued j acts r H) as (body & v & E & Hb).
  exists body, v. split; [exact E|].
  eapply Forall_impl; [exact Hb|]. now intros i [Hi _].
Qed.



(** *** The historical job *)

Lemma historical_wf (research : Outcome HistoricalAnalysisResponse) :
  wf_script Historical (HistoricalJob.run_historical research) = true.
Proof. destruct research; reflexivity. Qed.


Lemma historical_success (h : HistoricalAnalysisResponse) :
  slot Historical (stored no_results (HistoricalJob.run_historical (Returned h))) =
    HistoricalResult (Some h).
Proof. reflexivity. Qed.

(** *** The prominent-figures job *)

Lemma prominent_wf (w : ProminentJob.World) :
  wf_script XSentiment (ProminentJob.run_prominent_figures w) = true.
Proof.
  unfold ProminentJob.run_prominent_figures.
  destruct (ProminentJob.figures w) as [fd|e]; [|reflexivity].
  destruct (length (ProminentJob.get_figures fd) =? 0)%nat; [reflexivity|].
  destruct (ProminentJob.tweets w) as [t|e]; [|reflexivity].
  destruct (ProminentJob.total_tweets t =? 0)%nat; [reflexivity|].
  destruct (ProminentJob.temp_file w) as [u|e]; [|reflexivity].
  destruct (ProminentJob.analysed w) as [a|e]; reflexivity.
Qed.


(** *** The foundational job *)

Import FoundationalJob.


Lemma consume_sources (w : World) (title : string) (evs : list Event)
    (r : option FoundationalData) :
  Forall (fun se => fst se = Foundational) (fst (consume w title evs r)).
Proof.
  revert r. induction evs as [|e evs IH]; intros r; simpl; [constructor|].
  destruct e; simpl;
    try (specialize (IH r); destruct (consume w title evs r); constructor;
         [reflexivity | exact IH]).
  destruct (decode w content) as [d| |m].
  - specialize (IH (Some (with_event_query title d))).
    destruct (consume w title evs _). constructor; [reflexivity | exact IH].
  - specialize (IH r).
    destruct (consume w title evs _). constructor; [reflexivity | exact IH].
  - specialize (IH r).
    destruct (consume w title evs _). constructor; [reflexivity|].
    constructor; [reflexivity | exact IH].
Qed.

Lemma stream_step_no_content (st : StreamState) (c : Chunk) :
  Forall not_content (fst (stream_step st c)).
Proof.
  unfold stream_step. simpl. repeat apply Forall_app_2.
  - apply Forall_forall. intros e He. apply list_elem_of_fmap in He.
    destruct He as (tc & -> & _). exact I.
  - destruct (tokens_truthy (reasoning_tokens c) && is_thinking st); [|constructor].
    destruct (reasoning_tokens c); repeat constructor.
  - destruct (PyStr.nonempty (chunk_content c) && is_thinking st); repeat constructor.
Qed.

Lemma stream_loop_cons (T : Q) (st : StreamState) (c : Chunk) (r : list Chunk) :
  stream_loop T st (c :: r) =
    if PyNum.gtb (elapsed c) T
    then ([Error (SearchTimedOut T)], st, false)
    else
      let '(evs, st') := stream_step st c in
      let '(evs', st'', ended) := stream_loop T st' r in
      (evs ++ evs', st'', ended).
Proof. reflexivity. Qed.




Lemma await_thread_sources (w : World) (title : string) :
  Forall (fun se => fst se = Foundational) (fst (await_thread w title)).
Proof.
  unfold await_thread. destruct (timed_out w); [repeat constructor|].
  destruct (executor w); [|repeat constructor].
  unfold sync_foundational. destruct (service_error w); [repeat constructor|].
  apply consume_sources.
Qed.



Lemma foundational_wf (w : World) (title : string) :
  wf_script Foundational (run_foundational_in_thread w title) = true.
Proof.
  unfold run_foundational_in_thread.
  pose proof (await_thread_sources w title) as H.
  destruct (await_thread w title) as [events result_data]. simpl in H.
  change [Store (FoundationalResult result_data);
          Put (TaskComplete Foundational (FoundationalResult result_data))]
    with ([Store (FoundationalResult result_data)]
          ++ [Put (TaskComplete Foundational (FoundationalResult result_data))]).
  rewrite app_assoc. apply wf_script_app; [|reflexivity].
  rewrite forallb_app. apply andb_true_iff. split; [|reflexivity].
  apply forallb_forall. intros a Ha. apply in_map_iff in Ha.
  destruct Ha as (se & <- & Hse). simpl.
  apply bool_decide_eq_true. rewrite Forall_forall in H. apply H.
  now apply list_elem_of_In.
Qed.




End JobFacts.

(** ** The stream under a schedule *)

Module StreamFacts.
Import Cache Orchestrator JobFacts.

(** *** Slots and local views *)

Lemma slot_store_own (v : JobResult) (r : Results) : slot (slot_owner v) (store v r) = v.
Proof. destruct v; reflexivity. Qed.

Lemma slot_store_other (j : Job) (v : JobResult) (r : Results) :
  slot_owner v <> j -> slot j (store v r) = slot j r.
Proof. destruct v, j; simpl; congruence. Qed.

Lemma slot_store_eq (j : Job) (v : JobResult) (r1 r2 : Results) :
  slot j r1 = slot j r2 -> slot j (store v r1) = slot j (store v r2).
Proof. destruct v, j; simpl; congruence. Qed.

Lemma wf_mine (j : Job) (acts : list Action) : wf_script j acts = true -> mine j acts.
Proof.
  induction acts as [|a rest IH]; intros H; [constructor|].
  destruct (wf_script_cons _ _ _ H) as [[-> Hf]|[Ho Hw]].
  - constructor; [now right | constructor].
  - constructor; [now left | now apply IH].
Qed.

Lemma enqueued_local (j : Job) (acts : list Action) (r1 r2 : Results) :
  mine j acts -> slot j r1 = slot j r2 -> enqueued r1 acts = enqueued r2 acts.
Proof.
  intros M. revert r1 r2. induction M as [|a rest Ha _ IH]; intros r1 r2 E; [reflexivity|].
  destruct a as [i|v|n]; simpl.
  - f_equal. now apply IH.
  - apply IH. now apply slot_store_eq.
  - assert (n = j) as ->.
    { destruct Ha as [Ha|Ha]; simpl in Ha; [discriminate|].
      now apply bool_decide_eq_true in Ha. }
    rewrite E. f_equal. now apply IH.
Qed.

Lemma stored_local (j : Job) (acts : list Action) (r1 r2 : Results) :
  slot j r1 = slot j r2 -> slot j (stored r1 acts) = slot j (stored r2 acts).
Proof.
  revert r1 r2. induction acts as [|a rest IH]; intros r1 r2 E; [exact E|].
  destruct a as [i|v|n]; simpl; apply IH; [exact E | | exact E].
  now apply slot_store_eq.
Qed.

Lemma own_store_owner (j : Job) (v : JobResult) :
  own_action j (Store v) = true \/ final_action j (Store v) = true -> slot_owner v = j.
Proof. intros [H|H]; simpl in H; [now apply bool_decide_eq_true in H | discriminate]. Qed.

(** *** Items and their owners *)

Lemma from_app (j : Job) (l1 l2 : list QItem) : from j (l1 ++ l2) = from j l1 ++ from j l2.
Proof. unfold from. apply List.filter_app. Qed.

Lemma from_own (j : Job) (i : QItem) : owner i = j -> from j [i] = [i].
Proof. intros H. unfold from. simpl. now rewrite bool_decide_eq_true_2. Qed.

Lemma from_other (j : Job) (i : QItem) : owner i <> j -> from j [i] = [].
Proof. intros H. unfold from. simpl. now rewrite bool_decide_eq_false_2. Qed.

Lemma from_all (j : Job) (l : list QItem) :
  Forall (fun i => owner i = j) l -> from j l = l.
Proof.
  induction 1 as [|i l Hi _ IH]; [reflexivity|].
  change (i :: l) with ([i] ++ l). rewrite from_app, (from_own j i Hi), IH. reflexivity.
Qed.

Lemma in_from (j : Job) (i : QItem) (l : list QItem) :
  In i (from j l) <-> In i l /\ owner i = j.
Proof.
  unfold from. rewrite List.filter_In. split; intros [H1 H2]; split; try exact H1.
  - now apply bool_decide_eq_true in H2.
  - now apply bool_decide_eq_true.
Qed.

Lemma marker_of_spec (j : Job) (i : QItem) :
  marker_of j i = true <-> exists v, i = TaskComplete j v.
Proof.
  unfold marker_of. destruct i as [s e|n v]; simpl.
  - split; [discriminate | intros [v Hv]; discriminate].
  - rewrite bool_decide_eq_true. split.
    + intros ->. now exists v.
    + intros [v' [= -> _]]. reflexivity.
Qed.

Lemma update_eq {A} (f : Job -> A) (j : Job) (a : A) : update f j a j = a.
Proof. unfold update. now rewrite decide_True. Qed.

Lemma update_ne {A} (f : Job -> A) (j j' : Job) (a : A) : j' <> j -> update f j a j' = f j'.
Proof. intros H. unfold update. now rewrite decide_False. Qed.



(** *** The invariant of a stream whose consumer stays attached *)

Section Invariant.

Variable request : AnalyzeRequest.
Variable key : string.
Variable now : Z.
Variable scripts : Job -> list Action.
Variable c : gmap string CachedResult.
Hypothesis scripts_wf : forall j, wf_script j (scripts j) = true.

Lemma inv_start : Inv request key now scripts c (start key scripts c).
Proof.
  constructor; simpl; try reflexivity.
  - now left.
  - intros j. right. apply scripts_wf.
  - split; discriminate.
Qed.

Lemma inv_mine (st : State) (j : Job) : Inv request key now scripts c st -> mine j (tasks st j).
Proof.
  intros I. destruct (inv_tasks st I j) as [E|E].
  - rewrite E. constructor.
  - now apply wf_mine.
Qed.

(** The only marker a task enqueues is its last item. *)
Lemma script_items (j : Job) :
  exists body v, enqueued no_results (scripts j) = body ++ [TaskComplete j v] /\
                 Forall (fun i => is_marker i = false /\ owner i = j) body.
Proof. apply wf_enqueued, scripts_wf. Qed.

Lemma flagged_marker_seen (st : State) (j : Job) :
  Inv request key now scripts c st -> tasks_complete st j = true ->
  exists v, In (TaskComplete j v) (seen st).
Proof.
  intros I H. rewrite (inv_flags st I) in H. apply existsb_exists in H.
  destruct H as (i & Hi & Hm). apply marker_of_spec in Hm. destruct Hm as [v ->].
  now exists v.
Qed.

(** A task whose marker has been dequeued has finished. *)
Lemma flagged_task_done (st : State) (j : Job) :
  Inv request key now scripts c st -> tasks_complete st j = true -> tasks st j = [].
Proof.
  intros I H. destruct (flagged_marker_seen st j I H) as [v Hv].
  destruct (inv_tasks st I j) as [E|W]; [exact E|]. exfalso.
  destruct (script_items j) as (body & m & Eb & Hb).
  destruct (wf_enqueued j (tasks st j) (results st) W) as (body' & m' & Eb' & _).
  pose proof (inv_items st I j) as Hi. rewrite Eb, Eb', app_assoc in Hi.
  apply app_inj_tail in Hi. destruct Hi as [Hi _].
  assert (Hin : In (TaskComplete j v) body).
  { rewrite <- Hi. apply in_or_app. left. apply in_from. split; [|reflexivity].
    apply in_or_app. now left. }
  rewrite Forall_forall in Hb. apply list_elem_of_In in Hin.
  destruct (Hb _ Hin) as [Hm _]. discriminate Hm.
Qed.

Lemma completed_all_done (st : State) :
  Inv request key now scripts c st -> phase st = Completed -> forall j, tasks st j = [].
Proof.
  intros I H j. apply (flagged_task_done st j I).
  apply (inv_done st I) in H. unfold all_complete in H.
  apply andb_true_iff in H. destruct H as [H H3].
  apply andb_true_iff in H. destruct H as [H1 H2].
  destruct j; assumption.
Qed.

(** Once the generator has run to its end nothing changes any more. *)
Lemma completed_frozen (st : State) (t : Tick) :
  Inv request key now scripts c st -> phase st = Completed -> step request key now st t = st.
Proof.
  intros I H. destruct t as [j|d|]; simpl.
  - unfold run_task. now rewrite (completed_all_done st I H j).
  - unfold poll. now rewrite H.
  - unfold abort. now rewrite H.
Qed.



Lemma existsb_snoc {A} (f : A -> bool) (l : list A) (a : A) :
  existsb f (l ++ [a]) = existsb f l || f a.
Proof. rewrite existsb_app. simpl. now rewrite orb_false_r. Qed.

Lemma inv_run_task (st : State) (j : Job) :
  Inv request key now scripts c st -> phase st = Draining ->
  Inv request key now scripts c (run_task j st).
Proof.
  intros I HD. unfold run_task.
  destruct (tasks st j) as [|a rest] eqn:Et; [exact I|].
  pose proof (inv_mine st j I) as Mj. rewrite Et in Mj.
  inversion Mj as [|? ? Ha Mrest]; subst.
  assert (Wrest : rest = [] \/ wf_script j rest = true).
  { destruct (inv_tasks st I j) as [E|W]; [congruence|]. rewrite Et in W.
    destruct (wf_script_cons _ _ _ W) as [[-> _]|[_ W']]; [now left | now right]. }
  assert (Tasks : forall j', update (tasks st) j rest j' = []
                             \/ wf_script j' (update (tasks st) j rest j') = true).
  { intros j'. destruct (decide (j' = j)) as [->|N].
    - now rewrite update_eq.
    - rewrite (update_ne _ _ _ _ N). apply (inv_tasks st I). }
  pose proof (inv_items st I j) as Ij. rewrite Et in Ij.
  pose proof (inv_slots st I j) as Sj. rewrite Et in Sj.
  destruct a as [i|v|n]; simpl.
  - (* Put i *)
    assert (Oi : owner i = j).
    { destruct i as [s e|n v]; destruct Ha as [Ha|Ha]; simpl in Ha;
        try discriminate; now apply bool_decide_eq_true in Ha. }
    constructor; simpl; try apply I; try exact Tasks.
    + intros j'. rewrite app_assoc, from_app. destruct (decide (j' = j)) as [->|N].
      * rewrite update_eq, (from_own j i Oi), <- app_assoc. exact Ij.
      * rewrite (update_ne _ _ _ _ N), from_other by congruence.
        rewrite app_nil_r. apply (inv_items st I).
    + intros j'. destruct (decide (j' = j)) as [->|N].
      * rewrite update_eq. exact Sj.
      * rewrite (update_ne _ _ _ _ N). apply (inv_slots st I).
  - (* Store v *)
    pose proof (own_store_owner j v Ha) as Ov.
    constructor; simpl; try apply I; try exact Tasks.
    + intros j'. destruct (decide (j' = j)) as [->|N].
      * rewrite update_eq. exact Ij.
      * rewrite (update_ne _ _ _ _ N).
        rewrite (enqueued_local j' (tasks st j') (store v (results st)) (results st)).
        -- apply (inv_items st I).
        -- now apply inv_mine.
        -- apply slot_store_other. congruence.
    + intros j'. destruct (decide (j' = j)) as [->|N].
      * rewrite update_eq. exact Sj.
      * rewrite (update_ne _ _ _ _ N).
        rewrite (stored_local j' (tasks st j') (store v (results st)) (results st)).
        -- apply (inv_slots st I).
        -- apply slot_store_other. congruence.
    + unfold closing. simpl. rewrite HD. rewrite (inv_sent st I).
      unfold closing. now rewrite HD.
    + rewrite HD. rewrite (inv_cache st I). now rewrite HD.
  - (* PutComplete n *)
    assert (n = j) as ->.
    { destruct Ha as [Ha|Ha]; simpl in Ha; [discriminate|].
      now apply bool_decide_eq_true in Ha. }
    constructor; simpl; try apply I; try exact Tasks.
    + intros j'. rewrite app_assoc, from_app. destruct (decide (j' = j)) as [->|N].
      * rewrite update_eq, from_own by reflexivity. rewrite <- app_assoc. exact Ij.
      * rewrite (update_ne _ _ _ _ N), from_other by (simpl; congruence).
        rewrite app_nil_r. apply (inv_items st I).
    + intros j'. destruct (decide (j' = j)) as [->|N].
      * rewrite update_eq. exact Sj.
      * rewrite (update_ne _ _ _ _ N). apply (inv_slots st I).
Qed.



Lemma all_complete_spec (tc : Job -> bool) :
  all_complete tc = true <-> forall j, tc j = true.
Proof.
  unfold all_complete. rewrite !andb_true_iff. split.
  - intros [[H1 H2] H3] j. destruct j; assumption.
  - intros H. repeat split; apply H.
Qed.

Lemma inv_take (st : State) (item : QItem) (rest : list QItem) :
  Inv request key now scripts c st -> phase st = Draining -> queue st = item :: rest ->
  Inv request key now scripts c (take request key now item rest st).
Proof.
  intros I HD Eq.
  assert (Items : forall j,
             from j ((seen st ++ [item]) ++ rest) ++ enqueued (results st) (tasks st j) =
             enqueued no_results (scripts j)).
  { intros j. rewrite <- app_assoc. simpl. rewrite <- Eq. apply (inv_items st I). }
  destruct item as [source event|j v]; unfold take.
  - constructor; simpl; try apply I; try exact Items.
    + now left.
    + intros j. rewrite existsb_snoc. simpl. rewrite orb_false_r. apply (inv_flags st I).
    + split; [discriminate|]. intros H. apply (inv_done st I) in H. congruence.
    + rewrite (inv_sent st I). unfold closing. simpl. rewrite HD.
      rewrite flat_map_app. simpl.
      repeat rewrite app_nil_r. repeat rewrite <- app_assoc. reflexivity.
    + rewrite (inv_cache st I). now rewrite HD.
  - set (tc := update (tasks_complete st) j true).
    assert (Flags : forall j', tc j' = existsb (marker_of j') (seen st ++ [TaskComplete j v])).
    { intros j'. rewrite existsb_snoc. unfold tc, marker_of at 2. simpl.
      destruct (decide (j' = j)) as [->|N].
      - rewrite update_eq, bool_decide_eq_true_2 by reflexivity. now rewrite orb_true_r.
      - rewrite (update_ne _ _ _ _ N), bool_decide_eq_false_2 by congruence.
        rewrite orb_false_r. apply (inv_flags st I). }
    assert (Sent : sent st ++ [SseTaskComplete j] =
                   [SseInit key; SseParallelStart]
                   ++ flat_map emit (seen st ++ [TaskComplete j v])).
    { rewrite (inv_sent st I). unfold closing. rewrite HD.
      rewrite flat_map_app. simpl.
      repeat rewrite app_nil_r. repeat rewrite <- app_assoc. reflexivity. }
    destruct (all_complete tc) eqn:Eall.
    + unfold finish. constructor; simpl; try apply I; try exact Items; try exact Flags.
      * now right.
      * split; [intros _; exact Eall | reflexivity].
      * unfold closing. simpl. rewrite Sent. simpl.
        repeat rewrite <- app_assoc. reflexivity.
      * rewrite (inv_cache st I). now rewrite HD.
    + constructor; simpl; try apply I; try exact Items; try exact Flags.
      * now left.
      * split; [discriminate | congruence].
      * unfold closing. simpl. rewrite Sent. now rewrite app_nil_r.
      * rewrite (inv_cache st I). now rewrite HD.
Qed.

Lemma inv_step (st : State) (t : Tick) :
  Inv request key now scripts c st -> quiet t = true ->
  Inv request key now scripts c (step request key now st t).
Proof.
  intros I Q. destruct (inv_phase st I) as [HD|HC].
  2:{ now rewrite (completed_frozen st t I HC). }
  destruct t as [j|[]|]; simpl in Q; try discriminate; simpl.
  - now apply inv_run_task.
  - unfold poll. rewrite HD. destruct (queue st) as [|item rest] eqn:Eq; [exact I|].
    now apply inv_take.
Qed.

Lemma inv_fold (schedule : list Tick) (st : State) :
  Inv request key now scripts c st -> connected schedule ->
  Inv request key now scripts c (fold_left (step request key now) schedule st).
Proof.
  revert st. induction schedule as [|t s IH]; intros st I C; [exact I|].
  unfold connected in C. simpl in C. apply andb_true_iff in C. destruct C as [Q C].
  simpl. apply IH; [now apply inv_step | exact C].
Qed.

Lemma inv_run (schedule : list Tick) :
  connected schedule -> Inv request key now scripts c (run request key now scripts c schedule).
Proof. apply inv_fold, inv_start. Qed.



(** *** Every schedule *)

Lemma stopped_frozen (st : State) (t : Tick) :
  phase st = Cancelled \/ phase st = Aborted -> (forall j, tasks st j = []) ->
  step request key now st t = st.
Proof.
  intros P T. destruct t as [j|d|]; simpl.
  - unfold run_task. now rewrite T.
  - unfold poll. destruct P as [-> | ->]; reflexivity.
  - unfold abort. destruct P as [-> | ->]; reflexivity.
Qed.

Lemma frozen_fold (st : State) (schedule : list Tick) :
  (forall t, step request key now st t = st) ->
  fold_left (step request key now) schedule st = st.
Proof.
  intros F. induction schedule as [|t s IH]; [reflexivity|].
  simpl. now rewrite F.
Qed.

Lemma schedule_split (schedule : list Tick) :
  connected schedule \/
  exists pre t post, schedule = pre ++ t :: post /\ connected pre /\ quiet t = false.
Proof.
  induction schedule as [|t s IH]; [now left|].
  destruct (quiet t) eqn:Q.
  - destruct IH as [C|(pre & t' & post & -> & C & Q')].
    + left. unfold connected. simpl. rewrite Q. exact C.
    + right. exists (t :: pre), t', post. split; [reflexivity|]. split; [|exact Q'].
      unfold connected. simpl. rewrite Q. exact C.
  - right. exists [], t, s. split; [reflexivity|]. split; [reflexivity | exact Q].
Qed.

Lemma run_app (s1 s2 : list Tick) :
  run request key now scripts c (s1 ++ s2) =
  fold_left (step request key now) s2 (run request key now scripts c s1).
Proof. unfold run. apply fold_left_app. Qed.

(** A stream ends up in a state of the invariant, or in one that
    was cancelled out of a draining state of the invariant. *)
Lemma run_shape (schedule : list Tick) :
  let st := run request key now scripts c schedule in
  Inv request key now scripts c st \/
  exists pre post t,
    schedule = pre ++ t :: post /\ connected pre /\
    Inv request key now scripts c (run request key now scripts c pre) /\
    phase (run request key now scripts c pre) = Draining /\
    ((t = Poll true /\
      st = cancel_running (run request key now scripts c pre) Cancelled [SseCancelled])
     \/ (t = Abort /\ st = cancel_running (run request key now scripts c pre) Aborted [])).
Proof.
  cbv zeta. destruct (schedule_split schedule) as [C|(pre & t & post & -> & C & Q)].
  - left. now apply inv_run.
  - pose proof (inv_run pre C) as I.
    rewrite run_app. simpl.
    destruct (inv_phase _ I) as [HD|HC].
    + right. exists pre, post, t. split; [reflexivity|]. split; [exact C|].
      split; [exact I|]. split; [exact HD|].
      destruct t as [j|[]|]; simpl in Q; try discriminate; simpl.
      * left. split; [reflexivity|]. unfold poll. rewrite HD.
        apply frozen_fold. intros t. apply stopped_frozen; [now left | reflexivity].
      * right. split; [reflexivity|]. unfold abort. rewrite HD.
        apply frozen_fold. intros t. apply stopped_frozen; [now right | reflexivity].
    + left. rewrite (completed_frozen _ t I HC).
      rewrite frozen_fold; [exact I|]. intros t'. now apply completed_frozen.
Qed.

(** *** Progress *)









(** At the end every item of every task has been dequeued, and
    [results] holds what every task left in its slot. *)
Lemma completed_items (st : State) (j : Job) :
  Inv request key now scripts c st -> phase st = Completed ->
  from j (seen st) = enqueued no_results (scripts j) /\ from j (queue st) = [].
Proof.
  intros I HC.
  pose proof (completed_all_done st I HC j) as T.
  assert (F : tasks_complete st j = true).
  { apply (inv_done st I) in HC. now apply all_complete_spec. }
  destruct (flagged_marker_seen st j I F) as [v Hv].
  destruct (script_items j) as (body & m & Eb & Hb).
  pose proof (inv_items st I j) as Hi.
  rewrite T, app_nil_r, from_app, Eb in Hi.
  destruct (from j (queue st)) as [|x l] eqn:Eq using rev_ind.
  - rewrite app_nil_r in Hi. rewrite Hi, Eb. now split.
  - exfalso. clear IHl. rewrite app_assoc in Hi. apply app_inj_tail in Hi.
    destruct Hi as [Hi _].
    assert (Hin : In (TaskComplete j v) body).
    { rewrite <- Hi. apply in_or_app. left. apply in_from. now split. }
    rewrite Forall_forall in Hb. apply list_elem_of_In in Hin.
    destruct (Hb _ Hin) as [Hm _]. discriminate Hm.
Qed.

Lemma completed_slots (st : State) (j : Job) :
  Inv request key now scripts c st -> phase st = Completed ->
  slot j (results st) = slot j (stored no_results (scripts j)).
Proof.
  intros I HC. pose proof (inv_slots st I j) as S.
  now rewrite (completed_all_done st I HC j) in S.
Qed.


End Invariant.

End StreamFacts.

(** ** Failure isolation, completion markers and cancellation *)

Module OrchestratorFacts.
Import Cache Orchestrator JobFacts StreamFacts Samples.

Lemma scripts_of_wf (request : AnalyzeRequest) (w : Worlds) (j : Job) :
  wf_script j (scripts_of request w j) = true.
Proof.
  destruct j; simpl.
  - apply foundational_wf.
  - apply historical_wf.
  - apply prominent_wf.
Qed.





(** The events of the loop body are none of the closing ones. *)
Lemma emit_not_closing (i : QItem) (e : Sse) : In e (emit i) -> closing_event e = false.
Proof.
  destruct i as [s ev|j v]; simpl.
  - destruct ev; simpl; try (intros [<-|[]]; reflexivity); try contradiction.
    + destruct citations; simpl; [contradiction | intros [<-|[]]; reflexivity].
    + destruct s; simpl; try contradiction. intros [<-|[]]; reflexivity.
    + destruct s; simpl; try contradiction. intros [<-|[]]; reflexivity.
  - intros [<-|[]]. reflexivity.
Qed.

Lemma draining_sent (request : AnalyzeRequest) (key : string) (now : Z)
    (scripts : Job -> list Action) (c : gmap string CachedResult) (st : State) (e : Sse) :
  Inv request key now scripts c st -> phase st = Draining ->
  In e (sent st) -> closing_event e = false.
Proof.
  intros I HD. rewrite (inv_sent st I). unfold closing. rewrite HD.
  rewrite app_nil_r. intros [<-|[<-|H]]; try reflexivity.
  apply in_flat_map in H. destruct H as (i & _ & Hi). now apply (emit_not_closing i).
Qed.



Lemma completed_inv (request : AnalyzeRequest) (key : string) (now : Z) (w : Worlds)
    (c : gmap string CachedResult) (schedule : list Tick) :
  phase (run_parallel_analysis_stream request key now w c schedule) = Completed ->
  Inv request key now (scripts_of request w) c
    (run_parallel_analysis_stream request key now w c schedule).
Proof.
  intros HC. unfold run_parallel_analysis_stream in *.
  destruct (run_shape request key now (scripts_of request w) c (scripts_of_wf request w)
              schedule) as [I|(pre & post & t & _ & _ & _ & _ & [[_ E]|[_ E]])].
  - exact I.
  - rewrite E in HC. discriminate HC.
  - rewrite E in HC. discriminate HC.
Qed.





(** C2. Each of the three jobs, in every world (success, empty data,
    internal exception, timeout), enqueues exactly one completion
    marker, its own, as the last item it enqueues; under every
    schedule what a task has put on the queue so far is an initial
    part of that sequence; and when the draining loop has run to its
    end the items dequeued from each job are the whole sequence, so
    one marker per job has been observed. *)
Theorem one_marker_per_job_last :
  (forall w title,
      marker_last Foundational
        (enqueued no_results (FoundationalJob.run_foundational_in_thread w title))) /\
  (forall research,
      marker_last Historical (enqueued no_results (HistoricalJob.run_historical research))) /\
  (forall w,
      marker_last XSentiment
        (enqueued no_results (ProminentJob.run_prominent_figures w))) /\
  (forall request key now w c schedule,
      let st := run_parallel_analysis_stream request key now w c schedule in
      (forall j, exists rest,
          from j (seen st ++ queue st) ++ rest =
          enqueued no_results (scripts_of request w j)) /\
      (phase st = Completed ->
       forall j, from j (seen st) = enqueued no_results (scripts_of request w j) /\
                 marker_last j (from j (seen st)))).
Proof.
  split; [|split; [|split]].
  - intros w title. apply wf_marker_last, foundational_wf.
  - intros research. apply wf_marker_last, historical_wf.
  - intros w. apply wf_marker_last, prominent_wf.
  - intros request key now w c schedule st.
    pose proof (scripts_of_wf request w) as W. split.
    + intros j. unfold st, run_parallel_analysis_stream.
      destruct (run_shape request key now (scripts_of request w) c W schedule)
        as [I|(pre & post & t & _ & _ & I & _ & [[_ E]|[_ E]])].
      * eexists. apply (inv_items _ I j).
      * rewrite E. eexists. apply (inv_items _ I j).
      * rewrite E. eexists. apply (inv_items _ I j).
    + intros HC j.
      pose proof (completed_inv request key now w c schedule HC) as I. fold st in I.
      destruct (completed_items request key now _ c W st j I HC) as [E _].
      split; [exact E|]. rewrite E. apply wf_marker_last, W.
Qed.

Lemma one_marker_per_job_last_witness :
  from Historical
    (seen (run_parallel_analysis_stream rain "k" 0 sample_worlds ∅
             (sample_turns ++ sample_polls))) =
  enqueued no_results (scripts_of rain sample_worlds Historical).
Proof.
  apply (proj2 (proj2 (proj2 (proj2 one_marker_per_job_last)) rain "k" 0 sample_worlds ∅
                  (sample_turns ++ sample_polls))).
  vm_compute. reflexivity.
Defined.

(** C3. When the consumer is found disconnected while a job is still
    running: the stream is cancelled, [task.cancel()] is called on
    exactly the tasks not yet done and no task does anything more,
    the one event sent after those sent before is [cancelled], no
    [outcome_estimates], [result] or [done] is ever sent, and the
    cache is what it was before the request; and under any schedule a
    stream that has not run to its end leaves the cache as it was. *)
Theorem cancellation_suppresses_caching (request : AnalyzeRequest) (key : string)
    (now : Z) (w : Worlds) (c : gmap string CachedResult) (pre post : list Tick) :
  connected pre ->
  (exists j, done (run_parallel_analysis_stream request key now w c pre) j = false) ->
  let st0 := run_parallel_analysis_stream request key now w c pre in
  let st := run_parallel_analysis_stream request key now w c (pre ++ Poll true :: post) in
  phase st = Cancelled /\
  cancel_sent st = filter (fun j => negb (done st0 j)) all_jobs /\
  (forall j, tasks st j = []) /\
  sent st = sent st0 ++ [SseCancelled] /\
  ~ In SseCancelled (sent st0) /\
  (forall e, In e (sent st) ->
     e <> SseDone /\ (forall r, e <> SseResult r) /\ (forall l, e <> SseOutcomeEstimates l)) /\
  cache st = c /\
  (forall schedule,
      phase (run_parallel_analysis_stream request key now w c schedule) <> Completed ->
      cache (run_parallel_analysis_stream request key now w c schedule) = c).
Proof.
  intros C [j Hj]. cbv zeta. unfold run_parallel_analysis_stream in *.
  pose proof (scripts_of_wf request w) as W.
  pose proof (inv_run request key now _ c W pre C) as I.
  rewrite run_app.
  remember (run request key now (scripts_of request w) c pre) as st0 eqn:Est0.
  assert (HD : phase st0 = Draining).
  { destruct (inv_phase _ I) as [H|H]; [exact H|].
    pose proof (completed_all_done request key now _ c W st0 I H j) as T.
    unfold done in Hj. rewrite T in Hj. discriminate Hj. }
  assert (E : fold_left (step request key now) (Poll true :: post) st0
              = cancel_running st0 Cancelled [SseCancelled]).
  { simpl. unfold poll. rewrite HD. apply frozen_fold. intros t.
    apply stopped_frozen; [now left | reflexivity]. }
  assert (NC : forall e, In e (sent st0) -> closing_event e = false).
  { intros e. now apply (draining_sent request key now (scripts_of request w) c st0). }
  rewrite E. simpl. split; [reflexivity|].
  split; [now rewrite (inv_cancel _ I)|].
  split; [reflexivity|]. split; [reflexivity|].
  split; [intros H; apply NC in H; discriminate H|].
  split.
  { intros e He. apply in_app_or in He. destruct He as [He|[<-|[]]].
    - apply NC in He. split; [|split]; intros; intros ->; discriminate He.
    - split; [|split]; intros; discriminate. }
  split; [now rewrite (inv_cache _ I), HD|].
  clear Est0.
  intros schedule N.
  destruct (run_shape request key now (scripts_of request w) c W schedule)
    as [I'|(pre' & post' & t & _ & _ & I' & HD' & [[_ E']|[_ E']])].
  - rewrite (inv_cache _ I').
    destruct (phase (run request key now (scripts_of request w) c schedule));
      try reflexivity. now elim N.
  - rewrite E'. simpl. now rewrite (inv_cache _ I'), HD'.
  - rewrite E'. simpl. now rewrite (inv_cache _ I'), HD'.
Qed.

Lemma cancellation_suppresses_caching_witness :
  phase (run_parallel_analysis_stream rain "k" 0 sample_worlds ∅
           ([Run Historical; Poll false] ++ Poll true :: sample_turns ++ sample_polls))
    = Cancelled /\
  cache (run_parallel_analysis_stream rain "k" 0 sample_worlds ∅
           ([Run Historical; Poll false] ++ Poll true :: sample_turns ++ sample_polls))
    = ∅.
Proof.
  destruct (cancellation_suppresses_caching rain "k" 0 sample_worlds ∅
              [Run Historical; Poll false] (sample_turns ++ sample_polls))
    as (H1 & _ & _ & _ & _ & _ & H2 & _).
  - reflexivity.
  - exists Foundational. vm_compute. reflexivity.
  - split; [exact H1 | exact H2].
Defined.

End OrchestratorFacts.

(** ** The synthesizer, further *)

Module SynthMore.
Import PyNum Synth SynthTerms Samples SynthFacts.
Local Open Scope Q_scope.

(** *** Rounding *)

Lemma round1_value (x : Q) : round1 x == inject_Z (round_half_even (x * 10)) * (1 # 10).
Proof.
  unfold round1. rewrite Qred_correct. unfold Qeq, inject_Z; simpl. lia.
Qed.

Lemma round_half_even_near (y : Q) :
  inject_Z (round_half_even y) - y <= 1 # 2 /\ y - inject_Z (round_half_even y) <= 1 # 2.
Proof.
  unfold round_half_even.
  pose proof (Qfloor_le y) as L. pose proof (Qlt_floor y) as U.
  rewrite inject_Z_plus in U. change (inject_Z 1) with 1 in U.
  destruct (Qcompare (y - inject_Z (Qfloor y)) (1 # 2)) eqn:C.
  - apply Qeq_alt in C. destruct (Z.even (Qfloor y)).
    + split; lra.
    + rewrite inject_Z_plus. change (inject_Z 1) with 1. split; lra.
  - apply Qlt_alt in C. split; lra.
  - apply Qgt_alt in C. rewrite inject_Z_plus. change (inject_Z 1) with 1. split; lra.
Qed.

Lemma round_half_even_ge (n : Z) (y : Q) : inject_Z n <= y -> (n <= round_half_even y)%Z.
Proof.
  intros H. assert (F : (n <= Qfloor y)%Z).
  { rewrite <- (Qfloor_Z n). now apply Qfloor_resp_le. }
  unfold round_half_even.
  destruct (Qcompare _ _); [destruct (Z.even _)| |]; lia.
Qed.

Lemma round_half_even_le (n : Z) (y : Q) : y <= inject_Z n -> (round_half_even y <= n)%Z.
Proof.
  intros H. assert (F : (Qfloor y <= n)%Z).
  { rewrite <- (Qfloor_Z n). now apply Qfloor_resp_le. }
  unfold round_half_even.
  destruct (Z.eq_dec (Qfloor y) n) as [E|NE].
  - assert (Ey : y - inject_Z (Qfloor y) <= 0).
    { rewrite E. lra. }
    destruct (Qcompare (y - inject_Z (Qfloor y)) (1 # 2)) eqn:C.
    + apply Qeq_alt in C. lra.
    + lia.
    + apply Qgt_alt in C. lra.
  - destruct (Qcompare _ _); [destruct (Z.even _)| |]; lia.
Qed.

Lemma round1_ge (n : Z) (x : Q) : inject_Z n <= x -> inject_Z n <= round1 x.
Proof.
  intros H. rewrite round1_value.
  assert (K : (n * 10 <= round_half_even (x * 10))%Z).
  { apply round_half_even_ge. rewrite inject_Z_mult. change (inject_Z 10) with 10. lra. }
  rewrite Zle_Qle, inject_Z_mult in K.
  change (inject_Z 10) with 10 in K. lra.
Qed.

Lemma round1_le (n : Z) (x : Q) : x <= inject_Z n -> round1 x <= inject_Z n.
Proof.
  intros H. rewrite round1_value.
  assert (K : (round_half_even (x * 10) <= n * 10)%Z).
  { apply round_half_even_le. rewrite inject_Z_mult. change (inject_Z 10) with 10. lra. }
  rewrite Zle_Qle, inject_Z_mult in K.
  change (inject_Z 10) with 10 in K. lra.
Qed.

(** *** Estimates without quoted odds *)

Lemma no_odds_estimate (n : string) (odds : list (string * option Q)) :
  Forall (fun kv => snd kv = None) odds ->
  match find_odds n odds with Some y => y | None => None end = None.
Proof.
  induction 1 as [|[t y] r Hy _ IH]; simpl; [reflexivity|].
  destruct (title_matches n t); [exact Hy | exact IH].
Qed.

Lemma model_without_odds (outcomes : list OutcomeData) (fd : option FoundationalData)
    (h : option HistoricalAnalysisResponse) (o : OutcomeData) :
  no_quoted_odds fd ->
  model_estimate outcomes (foundational_odds fd) h o =
  match h with
  | Some h => historical_estimate outcomes o (probability_estimate h) (overall_sentiment h)
  | None => (market_prob o, UsingMarketPrice)
  end.
Proof.
  intros H. unfold model_estimate. rewrite (no_odds_estimate _ _ H). reflexivity.
Qed.

Lemma round1_zero (x : Q) : x == 0 -> round1 x = 0.
Proof. intros E. now rewrite (round1_proper _ _ E). Qed.

Lemma estimate_without_analysis (outcomes : list OutcomeData)
    (fd : option FoundationalData) (o : OutcomeData) :
  no_quoted_odds fd ->
  estimate_outcome outcomes (foundational_odds fd) None o = market_fallback o.
Proof.
  intros H. unfold estimate_outcome. rewrite (model_without_odds _ _ None _ H).
  rewrite (round1_zero (market_prob o - market_prob o)) by lra.
  reflexivity.
Qed.

Lemma sort_equal_keys (l : list GrokOutcomeEstimate) (d : Q) :
  Forall (fun e => delta e = d) l -> sort_by_abs_delta l = l.
Proof.
  induction 1 as [|e r He Hr IH]; simpl; [reflexivity|].
  fold (sort_by_abs_delta r). rewrite IH.
  destruct Hr as [|x r' Hx _]; simpl; [reflexivity|].
  rewrite He, Hx.
  assert (E : ltb (abs d) (abs d) = false) by (apply ltb_ge; lra).
  now rewrite E.
Qed.

Lemma fallback_estimates (outcomes : list OutcomeData) (fd : option FoundationalData) :
  no_quoted_odds fd ->
  generate_outcome_estimates outcomes fd None = map market_fallback outcomes.
Proof.
  intros H. unfold generate_outcome_estimates.
  rewrite (map_ext _ market_fallback)
    by (intros o; now apply estimate_without_analysis).
  apply (sort_equal_keys _ 0). apply List.Forall_forall.
  intros e He. apply in_map_iff in He. destruct He as (o & <- & _). reflexivity.
Qed.

Lemma min_le_l (a b : Q) : min a b <= a.
Proof.
  unfold min. destruct (ltb b a) eqn:E; [apply ltb_lt in E; lra | lra].
Qed.

Lemma min_ge (c a b : Q) : c <= a -> c <= b -> c <= min a b.
Proof. intros Ha Hb. unfold min. now destruct (ltb b a). Qed.

Lemma max_ge_l (a b : Q) : a <= max a b.
Proof.
  unfold max. destruct (gtb b a) eqn:E; [apply gtb_gt in E; lra | lra].
Qed.

Lemma max_ge_r (a b : Q) : b <= max a b.
Proof.
  unfold max. destruct (gtb b a) eqn:E; [lra|].
  unfold gtb in E. apply ltb_ge in E. exact E.
Qed.

Lemma multi_outcome_model (outcomes : list OutcomeData) (o : OutcomeData) (p : Q)
    (s : SentimentEnum) :
  (3 <= length outcomes)%nat ->
  exists adjustment : Z,
    (0 <= adjustment)%Z /\
    historical_estimate outcomes o p s =
      (min 95 (max 5 (market_prob o + inject_Z adjustment)), MultiOutcome s).
Proof.
  intros L. unfold historical_estimate.
  destruct (length outcomes) as [|[|[|n]]] eqn:E; try lia.
  eexists. split; [|reflexivity].
  destruct s; lia.
Qed.

Lemma one_estimate_length (outcomes : list OutcomeData) (fd : option FoundationalData)
    (h : option HistoricalAnalysisResponse) :
  length (generate_outcome_estimates outcomes fd h) = length outcomes.
Proof.
  unfold generate_outcome_estimates.
  rewrite (Permutation_length (sort_by_abs_delta_perm _)). apply length_map.
Qed.


(** X2. Without a historical analysis and without quoted odds the
    estimates repeat the market: they come in the order of the
    request, each with the market probability as model estimate,
    delta 0 and HOLD. *)
Theorem no_analysis_repeats_market (outcomes : list OutcomeData)
    (fd : option FoundationalData) :
  no_quoted_odds fd ->
  generate_outcome_estimates outcomes fd None = map market_fallback outcomes.
Proof. apply fallback_estimates. Qed.

Lemma no_analysis_repeats_market_witness :
  no_quoted_odds None /\
  generate_outcome_estimates (outcomes rain) None None = map market_fallback (outcomes rain).
Proof.
  split; [constructor|].
  apply (no_analysis_repeats_market (outcomes rain) None). constructor.
Defined.

(** X3. In a market of three or more outcomes, when no odds are quoted
    and a historical analysis is there, every model estimate reported
    lies between 5 and 95. *)
Theorem multi_outcome_estimate_clamped (outcomes : list OutcomeData)
    (fd : option FoundationalData) (h : HistoricalAnalysisResponse) :
  (3 <= length outcomes)%nat -> no_quoted_odds fd ->
  Forall (fun e => 5 <= grok_probability e /\ grok_probability e <= 95)
    (generate_outcome_estimates outcomes fd (Some h)).
Proof.
  intros L H. apply List.Forall_forall. intros e He.
  apply in_generate in He. destruct He as (o & _ & ->).
  destruct (estimate_fields outcomes fd (Some h) o) as (_ & -> & _).
  rewrite (model_without_odds _ _ (Some h) _ H).
  destruct (multi_outcome_model outcomes o (probability_estimate h) (overall_sentiment h) L)
    as (adj & _ & ->). simpl.
  split.
  - apply (round1_ge 5). apply min_ge; [unfold Qle; simpl; lia | apply max_ge_l].
  - apply (round1_le 95). apply min_le_l.
Qed.

(** X4. In a market of three or more outcomes without quoted odds the
    historical analysis never leads to SELL: whatever its sentiment,
    the adjustment is not negative, so for every outcome priced at
    100 or less the delta is at least -5. *)
Theorem multi_outcome_never_sell (outcomes : list OutcomeData)
    (fd : option FoundationalData) (h : HistoricalAnalysisResponse) :
  (3 <= length outcomes)%nat -> no_quoted_odds fd ->
  Forall (fun o => market_prob o <= 100) outcomes ->
  Forall (fun e => -5 <= delta e /\ recommendation_of e <> SELL)
    (generate_outcome_estimates outcomes fd (Some h)).
Proof.
  intros L H M. apply List.Forall_forall. intros e He.
  apply in_generate in He. destruct He as (o & Ho & ->).
  destruct (estimate_fields outcomes fd (Some h) o) as (_ & _ & _ & Ed & Er).
  assert (D : -5 <= delta (estimate_outcome outcomes (foundational_odds fd) (Some h) o)).
  { rewrite Ed. unfold exact_difference.
    rewrite (model_without_odds _ _ (Some h) _ H).
    destruct (multi_outcome_model outcomes o (probability_estimate h) (overall_sentiment h) L)
      as (adj & Hadj & ->). simpl.
    apply (round1_ge (-5)). change (inject_Z (-5)) with (-5).
    pose proof (proj1 (List.Forall_forall _ _) M o Ho) as Mo. simpl in Mo.
    assert (A : 0 <= inject_Z adj) by (rewrite Zle_Qle in Hadj; exact Hadj).
    assert (K : market_prob o - 5 <= min 95 (max 5 (market_prob o + inject_Z adj))).
    { apply min_ge; [lra|].
      eapply Qle_trans; [|apply max_ge_r]. lra. }
    lra. }
  split; [exact D|].
  rewrite Er. intros S. apply recommend_sell in S. lra.
Qed.

Lemma multi_outcome_never_sell_witness :
  Forall (fun e => -5 <= delta e /\ recommendation_of e <> SELL)
    (generate_outcome_estimates
       [sample_outcome "A" 50; sample_outcome "B" 30; sample_outcome "C" 20] None
       (Some {| overall_sentiment := BEARISH; overall_confidence := HIGH;
                probability_estimate := 10; recommendation := "" |})).
Proof.
  apply multi_outcome_never_sell.
  - simpl. lia.
  - constructor.
  - repeat constructor; vm_compute; discriminate.
Defined.

Lemma multi_outcome_estimate_clamped_witness :
  Forall (fun e => 5 <= grok_probability e /\ grok_probability e <= 95)
    (generate_outcome_estimates
       [sample_outcome "A" 97; sample_outcome "B" 2; sample_outcome "C" 1] None
       (Some (sample_historical 10))).
Proof.
  apply multi_outcome_estimate_clamped.
  - simpl. lia.
  - constructor.
Defined.

(** *** An odds entry without a title *)

Lemma contains_empty (s : string) : PyStr.contains "" s = true.
Proof. destruct s; reflexivity. Qed.

(** X5. An odds entry whose market title is missing or empty matches
    every outcome: when it is the first entry of the odds and carries
    a probability, that probability is the model estimate of every
    outcome, whatever the historical analysis says. *)
Theorem untitled_odds_match_every_outcome (outcomes : list OutcomeData)
    (fd : option FoundationalData) (h : option HistoricalAnalysisResponse)
    (p : Q) (rest : list (string * option Q)) :
  foundational_odds fd = ("", Some p) :: rest ->
  Forall (fun e => grok_probability e = round1 p)
    (generate_outcome_estimates outcomes fd h).
Proof.
  intros E. apply List.Forall_forall. intros e He.
  apply in_generate in He. destruct He as (o & _ & ->).
  destruct (estimate_fields outcomes fd h o) as (_ & -> & _).
  rewrite E. unfold model_estimate. cbn [find_odds].
  unfold title_matches. rewrite contains_empty, orb_true_r. reflexivity.
Qed.

Lemma untitled_odds_match_every_outcome_witness :
  Forall (fun e => grok_probability e = round1 33)
    (generate_outcome_estimates (outcomes rain)
       (Some {| event_query := "";
                current_odds := Some [OddsDict None (Some 33);
                                      OddsDict (Some "Yes") (Some 80)] |})
       (Some (sample_historical 70))).
Proof.
  apply (untitled_odds_match_every_outcome _ _ _ 33 [("yes", Some 80)]).
  reflexivity.
Defined.

(** *** The three numbers reported *)

Lemma inject_Z_sub (a b : Z) : inject_Z (a - b) == inject_Z a - inject_Z b.
Proof. unfold Z.sub. rewrite inject_Z_plus, inject_Z_opp. reflexivity. Qed.

(** X6. The delta reported with an estimate is within 0.1 of the
    difference between the two probabilities reported with it. *)
Theorem delta_near_reported_difference (outcomes : list OutcomeData)
    (fd : option FoundationalData) (h : option HistoricalAnalysisResponse) :
  Forall (fun e =>
            Qabs (delta e - (grok_probability e - market_probability e)) <= 1 # 10)
    (generate_outcome_estimates outcomes fd h).
Proof.
  apply List.Forall_forall. intros e He.
  apply in_generate in He. destruct He as (o & _ & ->).
  destruct (estimate_fields outcomes fd h o) as (_ & -> & -> & -> & _).
  unfold exact_difference.
  set (g := fst (model_estimate outcomes (foundational_odds fd) h o)).
  set (m := market_prob o).
  rewrite !round1_value.
  pose proof (round_half_even_near ((g - m) * 10)) as [D1 D2].
  pose proof (round_half_even_near (g * 10)) as [G1 G2].
  pose proof (round_half_even_near (m * 10)) as [M1 M2].
  set (kd := round_half_even ((g - m) * 10)) in *.
  set (kg := round_half_even (g * 10)) in *.
  set (km := round_half_even (m * 10)) in *.
  assert (B : (-1 <= kd - (kg - km) <= 1)%Z).
  { assert (B1 : inject_Z (kd - (kg - km)) <= 3 # 2).
    { rewrite !inject_Z_sub. lra. }
    assert (B2 : - (3 # 2) <= inject_Z (kd - (kg - km))).
    { rewrite !inject_Z_sub. lra. }
    split.
    - assert (Hc : (-2 < kd - (kg - km))%Z); [|lia].
      apply Z.lt_nge. intros Hle. rewrite Zle_Qle in Hle.
      change (inject_Z (-2)) with (-2) in Hle. lra.
    - assert (Hc : (kd - (kg - km) < 2)%Z); [|lia].
      apply Z.lt_nge. intros Hle. rewrite Zle_Qle in Hle.
      change (inject_Z 2) with 2 in Hle. lra. }
  destruct B as [B1 B2]. rewrite Zle_Qle in B1, B2.
  rewrite !inject_Z_sub in B1, B2.
  change (inject_Z (-1)) with (-1) in B1. change (inject_Z 1) with 1 in B2.
  apply Qabs_Qle_condition. split; lra.
Qed.

(** *** Two outcomes *)

Lemma binary_model (a b o : OutcomeData) (p : Q) (s : SentimentEnum) :
  historical_estimate [a; b] o p s =
  (if (index_or o [a; b] 0 =? 0)%Z then p else 100 - p, BinaryMarket s).
Proof. reflexivity. Qed.

(** In a market of two outcomes without quoted odds the first
    outcome gets the overall probability of the historical analysis
    and the second its complement to 100, unless the second compares
    equal to the first, in which case it gets the overall probability
    too. *)
Theorem binary_market_estimates (a b : OutcomeData) (fd : option FoundationalData)
    (h : HistoricalAnalysisResponse) :
  no_quoted_odds fd ->
  exists ea eb,
    Permutation (generate_outcome_estimates [a; b] fd (Some h)) [ea; eb] /\
    outcome_name ea = name a /\
    grok_probability ea = round1 (probability_estimate h) /\
    outcome_name eb = name b /\
    grok_probability eb =
      round1 (if outcome_eqb a b then probability_estimate h
              else 100 - probability_estimate h).
Proof.
  intros H.
  exists (estimate_outcome [a; b] (foundational_odds fd) (Some h) a),
         (estimate_outcome [a; b] (foundational_odds fd) (Some h) b).
  split; [apply sort_by_abs_delta_perm|].
  destruct (estimate_fields [a; b] fd (Some h) a) as (-> & -> & _).
  destruct (estimate_fields [a; b] fd (Some h) b) as (-> & -> & _).
  rewrite !(model_without_odds _ _ (Some h) _ H), !binary_model.
  unfold index_or. cbn [index_of]. rewrite outcome_eqb_refl. simpl.
  repeat split.
  destruct (outcome_eqb a b); simpl; [reflexivity|].
  rewrite outcome_eqb_refl. reflexivity.
Qed.

Lemma binary_market_estimates_witness :
  exists ea eb,
    Permutation (generate_outcome_estimates (outcomes rain) None
                   (Some (sample_historical 70))) [ea; eb] /\
    outcome_name ea = "Yes" /\
    grok_probability ea = round1 70 /\
    outcome_name eb = "No" /\
    grok_probability eb = round1 (100 - 70).
Proof.
  apply (binary_market_estimates (sample_outcome "Yes" 60) (sample_outcome "No" 40) None
           (sample_historical 70)).
  constructor.
Defined.

End SynthMore.

(** ** The stream, further *)

Module StreamMore.
Import Cache Orchestrator StreamTerms SynthTerms Samples MoreSamples.
Import JobFacts StreamFacts OrchestratorFacts.

Lemma substring_length_le (n m : nat) (s : string) :
  (String.length (String.substring n m s) <= m)%nat.
Proof.
  revert n m. induction s as [|a s IH]; intros [|n] [|m]; simpl; try lia.
  - specialize (IH 0%nat m). lia.
  - apply IH.
  - apply IH.
Qed.

Lemma within_limits_one (e : Sse) : within_limits e -> Forall within_limits [e].
Proof. intros H. constructor; [exact H | constructor]. Qed.

Lemma render_within_limits (source : Job) (event : Event) :
  Forall within_limits (render source event).
Proof.
  destruct event; simpl;
    try (apply within_limits_one; exact I); try apply List.Forall_nil.
  - apply within_limits_one. apply substring_length_le.
  - destruct citations as [|u r]; [apply List.Forall_nil|].
    apply within_limits_one. simpl. pose proof (firstn_le_length 9 r). lia.
  - destruct source; try apply List.Forall_nil. apply within_limits_one. exact I.
  - destruct source; try apply List.Forall_nil. apply within_limits_one. exact I.
Qed.

Section AnySchedule.

Variable request : AnalyzeRequest.
Variable key : string.
Variable now : Z.
Variable scripts : Job -> list Action.
Variable c : gmap string CachedResult.

Lemma exec_sent (a : Action) (st : State) : sent (exec a st) = sent st.
Proof. now destruct a. Qed.

Lemma step_within_limits (st : State) (t : Tick) :
  Forall within_limits (sent st) ->
  Forall within_limits (sent (step request key now st t)).
Proof.
  intros H. destruct t as [j|d|]; simpl.
  - unfold run_task. destruct (tasks st j); [exact H|]. now rewrite exec_sent.
  - unfold poll. destruct (phase st); try exact H.
    destruct d; simpl.
    + apply Forall_app. split; [exact H | now apply within_limits_one].
    + destruct (queue st) as [|item rest]; [exact H|].
      destruct item as [source event|j v]; simpl.
      * apply Forall_app. split; [exact H | apply render_within_limits].
      * destruct (all_complete _); simpl.
        -- repeat (apply Forall_app; split); try exact H.
           ++ now apply within_limits_one.
           ++ destruct (Synth.generate_outcome_estimates _ _ _);
                [apply List.Forall_nil | now apply within_limits_one].
           ++ constructor; [exact I | now apply within_limits_one].
        -- apply Forall_app. split; [exact H | now apply within_limits_one].
  - unfold abort. destruct (phase st); try exact H.
    simpl. rewrite app_nil_r. exact H.
Qed.

Lemma run_within_limits (schedule : list Tick) :
  Forall within_limits (sent (run request key now scripts c schedule)).
Proof.
  unfold run.
  assert (G : forall st, Forall within_limits (sent st) ->
                         Forall within_limits
                           (sent (fold_left (step request key now) schedule st))).
  { induction schedule as [|t r IH]; intros st H; simpl; [exact H|].
    apply IH. now apply step_within_limits. }
  apply G. constructor; [exact I | now apply within_limits_one].
Qed.

End AnySchedule.

(** X7. Whatever the jobs produce and however they are scheduled, no
    event sent carries more than 200 characters of tool arguments, and
    every citations event carries between 1 and 10 addresses. *)
Theorem sent_events_within_limits (request : AnalyzeRequest) (key : string) (now : Z)
    (w : Worlds) (c : gmap string CachedResult) (schedule : list Tick) :
  Forall within_limits (sent (run_parallel_analysis_stream request key now w c schedule)).
Proof. apply run_within_limits. Qed.

(** *** The end of a stream *)

Lemma completed_sent (request : AnalyzeRequest) (key : string) (now : Z) (w : Worlds)
    (c : gmap string CachedResult) (schedule : list Tick) :
  let st := run_parallel_analysis_stream request key now w c schedule in
  phase st = Completed ->
  let estimates := estimates_of request (results st) in
  let r := final_record request key now (results st) in
  sent st = ([SseInit key; SseParallelStart] ++ flat_map emit (seen st)
             ++ match estimates with [] => [] | _ => [SseOutcomeEstimates estimates] end)
            ++ [SseResult r; SseDone] /\
  cache st = set_cached key r c /\
  outcome_estimates r = Some estimates /\
  created_at r = now /\
  expires_at r = now + minutes CACHE_TTL_MINUTES.
Proof.
  intros st HC estimates r.
  pose proof (completed_inv request key now w c schedule HC) as I.
  fold st in I. split; [|split; [|repeat split]].
  - rewrite (inv_sent _ I). unfold closing. rewrite HC.
    fold estimates. fold r. now rewrite <- !app_assoc.
  - rewrite (inv_cache _ I), HC. reflexivity.
Qed.

Lemma null_slots (request : AnalyzeRequest) (key : string) (now : Z) (w : Worlds)
    (c : gmap string CachedResult) (schedule : list Tick) (j : Job) :
  let st := run_parallel_analysis_stream request key now w c schedule in
  phase st = Completed -> leaves_nothing request w j ->
  is_null (slot j (results st)) = true.
Proof.
  cbv zeta. intros HC N.
  pose proof (completed_inv request key now w c schedule HC) as I.
  rewrite (completed_slots request key now _ c (scripts_of_wf request w) _ j I HC).
  exact N.
Qed.

(** X8. When neither the foundational nor the historical job leaves a
    result, the stream still ends with its result, and the estimates
    in it, which are also those of the [outcome_estimates] event,
    repeat the market price of every outcome with delta 0 and HOLD. *)
Theorem failed_analyses_leave_market_prices (request : AnalyzeRequest) (key : string)
    (now : Z) (w : Worlds) (c : gmap string CachedResult) (schedule : list Tick) :
  let st := run_parallel_analysis_stream request key now w c schedule in
  leaves_nothing request w Foundational ->
  leaves_nothing request w Historical ->
  phase st = Completed ->
  exists before r,
    sent st = before ++ [SseResult r; SseDone] /\
    outcome_estimates r = Some (map market_fallback (outcomes request)) /\
    (outcomes request <> [] ->
     In (SseOutcomeEstimates (map market_fallback (outcomes request))) before).
Proof.
  intros st NF NH HC.
  destruct (completed_sent request key now w c schedule HC) as (S & _ & E & _).
  fold st in S, E.
  pose proof (null_slots request key now w c schedule Foundational HC NF) as ZF.
  pose proof (null_slots request key now w c schedule Historical HC NH) as ZH.
  fold st in ZF, ZH. simpl in ZF, ZH.
  assert (G : estimates_of request (results st) = map market_fallback (outcomes request)).
  { unfold estimates_of.
    destruct (res_foundational (results st)); [discriminate ZF|].
    destruct (res_historical (results st)); [discriminate ZH|].
    apply SynthMore.fallback_estimates. constructor. }
  rewrite G in S, E.
  eexists. eexists. split; [exact S|]. split; [exact E|].
  intros NE. apply in_or_app. right. apply in_or_app. right.
  destruct (outcomes request); [now elim NE | now left].
Qed.

Lemma failed_analyses_leave_market_prices_witness :
  exists before r,
    sent (run_parallel_analysis_stream rain "k" 0 failing_worlds ∅
            (sample_turns ++ sample_polls))
      = before ++ [SseResult r; SseDone] /\
    outcome_estimates r = Some (map market_fallback (outcomes rain)) /\
    (outcomes rain <> [] ->
     In (SseOutcomeEstimates (map market_fallback (outcomes rain))) before).
Proof.
  apply (failed_analyses_leave_market_prices rain "k" 0 failing_worlds ∅
           (sample_turns ++ sample_polls)); vm_compute; reflexivity.
Defined.

(** X9. The [outcome_estimates] event is sent exactly when the request
    names at least one outcome, and then once, right before the
    result, with one estimate per outcome; the result carries the
    list of estimates in either case, empty for a request without
    outcomes. *)
Theorem estimates_event_needs_outcomes (request : AnalyzeRequest) (key : string)
    (now : Z) (w : Worlds) (c : gmap string CachedResult) (schedule : list Tick) :
  let st := run_parallel_analysis_stream request key now w c schedule in
  phase st = Completed ->
  exists before estimates r,
    outcome_estimates r = Some estimates /\
    length estimates = length (outcomes request) /\
    (forall l, ~ In (SseOutcomeEstimates l) before) /\
    sent st = before
              ++ match outcomes request with
                 | [] => []
                 | _ => [SseOutcomeEstimates estimates]
                 end
              ++ [SseResult r; SseDone].
Proof.
  intros st HC.
  destruct (completed_sent request key now w c schedule HC) as (S & _ & E & _).
  fold st in S, E.
  exists ([SseInit key; SseParallelStart] ++ flat_map emit (seen st)),
         (estimates_of request (results st)),
         (final_record request key now (results st)).
  split; [exact E|].
  assert (L : length (estimates_of request (results st)) = length (outcomes request))
    by apply SynthMore.one_estimate_length.
  split; [exact L|]. split.
  - intros l [H|[H|H]]; try discriminate H.
    apply in_flat_map in H. destruct H as (i & _ & H).
    apply emit_not_closing in H. discriminate H.
  - rewrite S, <- !app_assoc. do 3 f_equal.
    destruct (outcomes request), (estimates_of request (results st));
      try reflexivity; discriminate L.
Qed.

Lemma estimates_event_needs_outcomes_witness :
  exists before estimates r,
    outcome_estimates r = Some estimates /\
    length estimates = length (outcomes rain) /\
    (forall l, ~ In (SseOutcomeEstimates l) before) /\
    sent (run_parallel_analysis_stream rain "k" 0 sample_worlds ∅
            (sample_turns ++ sample_polls))
      = before ++ [SseOutcomeEstimates estimates] ++ [SseResult r; SseDone].
Proof.
  apply (estimates_event_needs_outcomes rain "k" 0 sample_worlds ∅
           (sample_turns ++ sample_polls)).
  vm_compute. reflexivity.
Defined.

(** *** The order of a job's events *)

Lemma about_app (j : Job) (l1 l2 : list Sse) : about j (l1 ++ l2) = about j l1 ++ about j l2.
Proof. apply List.filter_app. Qed.

Lemma render_source (source : Job) (event : Event) :
  Forall (fun e => sse_source e = Some source) (render source event).
Proof.
  destruct event; simpl; try (constructor; [reflexivity | constructor]);
    try apply List.Forall_nil.
  - destruct citations; [apply List.Forall_nil|]. constructor; [reflexivity | constructor].
  - destruct source; try apply List.Forall_nil. constructor; [reflexivity | constructor].
  - destruct source; try apply List.Forall_nil. constructor; [reflexivity | constructor].
Qed.

Lemma emit_source (i : QItem) : Forall (fun e => sse_source e = Some (owner i)) (emit i).
Proof.
  destruct i as [source event|j v]; simpl.
  - apply render_source.
  - constructor; [reflexivity | constructor].
Qed.

Lemma about_same (j : Job) (l : list Sse) :
  Forall (fun e => sse_source e = Some j) l -> about j l = l.
Proof.
  induction 1 as [|e r He _ IH]; simpl; [reflexivity|].
  rewrite bool_decide_true by exact He. now rewrite IH.
Qed.

Lemma about_other (j j' : Job) (l : list Sse) :
  j' <> j -> Forall (fun e => sse_source e = Some j') l -> about j l = [].
Proof.
  intros N. induction 1 as [|e r He _ IH]; simpl; [reflexivity|].
  rewrite bool_decide_false by (rewrite He; congruence). exact IH.
Qed.

Lemma about_emitted (j : Job) (l : list QItem) :
  about j (flat_map emit l) = flat_map emit (from j l).
Proof.
  induction l as [|i r IH]; simpl; [reflexivity|].
  rewrite about_app, IH. unfold from. simpl.
  destruct (decide (owner i = j)) as [E|N].
  - rewrite bool_decide_true by exact E. simpl.
    rewrite (about_same j (emit i)); [reflexivity|].
    rewrite <- E. apply emit_source.
  - rewrite bool_decide_false by exact N.
    rewrite (about_other j (owner i) (emit i) N (emit_source i)). reflexivity.
Qed.

(** X10. However the three jobs are interleaved, when the stream has
    run to its end the events sent about a job are those that the
    loop makes of the items the job enqueued, in the order in which
    the job enqueued them, none missing and none twice. *)
Theorem job_events_sent_in_order (request : AnalyzeRequest) (key : string) (now : Z)
    (w : Worlds) (c : gmap string CachedResult) (schedule : list Tick) (j : Job) :
  let st := run_parallel_analysis_stream request key now w c schedule in
  phase st = Completed ->
  about j (sent st) = flat_map emit (enqueued no_results (scripts_of request w j)).
Proof.
  intros st HC.
  pose proof (completed_inv request key now w c schedule HC) as I. fold st in I.
  destruct (completed_items request key now _ c (scripts_of_wf request w) _ j I HC)
    as [<- _].
  rewrite (inv_sent _ I), !about_app, about_emitted.
  assert (C : about j (closing request key now st) = []).
  { unfold closing. destruct (phase st); try reflexivity.
    destruct (estimates_of request (results st)); reflexivity. }
  rewrite C, app_nil_r. reflexivity.
Qed.

Lemma job_events_sent_in_order_witness :
  about Historical
    (sent (run_parallel_analysis_stream rain "k" 0 sample_worlds ∅
             (sample_turns ++ sample_polls)))
  = flat_map emit (enqueued no_results (scripts_of rain sample_worlds Historical)).
Proof.
  apply (job_events_sent_in_order rain "k" 0 sample_worlds ∅
           (sample_turns ++ sample_polls) Historical).
  vm_compute. reflexivity.
Defined.

(** *** A cancelled generator *)

(** X11. When a [CancelledError] reaches the loop while a job is still
    running, the stream ends without one more event, not even
    [cancelled]; the tasks not yet done are cancelled, no result is
    sent and the cache stays as it was before the request. *)
Theorem cancelled_error_ends_stream_silently (request : AnalyzeRequest) (key : string)
    (now : Z) (w : Worlds) (c : gmap string CachedResult) (pre post : list Tick) :
  connected pre ->
  (exists j, done (run_parallel_analysis_stream request key now w c pre) j = false) ->
  let st0 := run_parallel_analysis_stream request key now w c pre in
  let st := run_parallel_analysis_stream request key now w c (pre ++ Abort :: post) in
  phase st = Aborted /\
  sent st = sent st0 /\
  (forall e, In e (sent st) -> closing_event e = false) /\
  cancel_sent st = filter (fun j => negb (done st0 j)) all_jobs /\
  (forall j, tasks st j = []) /\
  cache st = c.
Proof.
  intros C [j Hj]. cbv zeta. unfold run_parallel_analysis_stream in *.
  pose proof (scripts_of_wf request w) as W.
  pose proof (inv_run request key now _ c W pre C) as I.
  rewrite run_app.
  remember (run request key now (scripts_of request w) c pre) as st0 eqn:Est0.
  assert (HD : phase st0 = Draining).
  { destruct (inv_phase _ I) as [H|H]; [exact H|].
    pose proof (completed_all_done request key now _ c W st0 I H j) as T.
    unfold done in Hj. rewrite T in Hj. discriminate Hj. }
  assert (E : fold_left (step request key now) (Abort :: post) st0
              = cancel_running st0 Aborted []).
  { simpl. unfold abort. rewrite HD. apply frozen_fold. intros t.
    apply stopped_frozen; [now right | reflexivity]. }
  rewrite E. simpl. rewrite app_nil_r.
  split; [reflexivity|]. split; [reflexivity|].
  split.
  { intros e. now apply (draining_sent request key now (scripts_of request w) c st0). }
  split; [now rewrite (inv_cancel _ I)|].
  split; [reflexivity|].
  now rewrite (inv_cache _ I), HD.
Qed.

Lemma cancelled_error_ends_stream_silently_witness :
  phase (run_parallel_analysis_stream rain "k" 0 sample_worlds ∅
           ([Run Historical; Poll false] ++ Abort :: sample_turns ++ sample_polls))
    = Aborted /\
  sent (run_parallel_analysis_stream rain "k" 0 sample_worlds ∅
          ([Run Historical; Poll false] ++ Abort :: sample_turns ++ sample_polls))
    = sent (run_parallel_analysis_stream rain "k" 0 sample_worlds ∅
              [Run Historical; Poll false]).
Proof.
  destruct (cancelled_error_ends_stream_silently rain "k" 0 sample_worlds ∅
              [Run Historical; Poll false] (sample_turns ++ sample_polls))
    as (H1 & H2 & _).
  - reflexivity.
  - exists Foundational. vm_compute. reflexivity.
  - split; [exact H1 | exact H2].
Defined.

(** *** The cache entries of other requests *)

Lemma run_keeps_other_keys (request : AnalyzeRequest) (key : string) (now : Z)
    (w : Worlds) (c : gmap string CachedResult) (schedule : list Tick) (k : string) :
  k <> key ->
  cache (run_parallel_analysis_stream request key now w c schedule) !! k = c !! k.
Proof.
  intros N. unfold run_parallel_analysis_stream.
  destruct (run_shape request key now (scripts_of request w) c (scripts_of_wf request w)
              schedule)
    as [I|(pre & post & t & _ & _ & I & HD & [[_ E]|[_ E]])].
  - rewrite (inv_cache _ I).
    destruct (phase _); try reflexivity.
    unfold set_cached. now rewrite lookup_insert_ne.
  - rewrite E. simpl. now rewrite (inv_cache _ I), HD.
  - rewrite E. simpl. now rewrite (inv_cache _ I), HD.
Qed.

End StreamMore.

(** ** The cache and the two endpoints *)

Module EndpointFacts.
Import Cache Orchestrator Endpoints Samples MoreSamples.
Import StreamFacts OrchestratorFacts StreamMore.

(** X12. A cache lookup touches no key but its own; a hit leaves the
    cache as it is (reading does not renew an entry); after a miss
    the key has no entry, so that every later lookup of it misses,
    at any clock reading, until the key is set again. *)
Theorem lookup_touches_only_its_key (now : Z) (key : string)
    (c : gmap string CachedResult) :
  (forall k, k <> key -> snd (get_cached now key c) !! k = c !! k) /\
  (forall r, fst (get_cached now key c) = Some r ->
             snd (get_cached now key c) = c /\ c !! key = Some r) /\
  (fst (get_cached now key c) = None ->
   snd (get_cached now key c) !! key = None /\
   forall t, fst (get_cached t key (snd (get_cached now key c))) = None).
Proof.
  unfold get_cached.
  destruct (c !! key) as [cached|] eqn:E; [destruct (expires_at cached <? now)|];
    simpl; repeat split; intros; try congruence; try discriminate.
  - now apply lookup_delete_ne.
  - apply lookup_delete_eq.
  - now rewrite lookup_delete_eq.
  - now rewrite E.
Qed.

(** X13. After a stream has run to its end, [get_cached_analysis] with
    the key of the stream answers with the very result the stream
    sent, for every clock reading up to 30 minutes after the result
    was built, and leaves the cache as it is; later it raises the
    404 exception and the entry is gone. *)
Theorem completed_result_is_retrievable (request : AnalyzeRequest) (key : string)
    (now : Z) (w : Worlds) (c : gmap string CachedResult) (schedule : list Tick) (t : Z) :
  let st := run_parallel_analysis_stream request key now w c schedule in
  phase st = Completed ->
  exists r,
    In (SseResult r) (sent st) /\
    get_cached_analysis t key (cache st) =
      if t <=? now + minutes CACHE_TTL_MINUTES then (Answer r, cache st)
      else (HTTPException 404 "Cache miss or expired", delete key (cache st)).
Proof.
  intros st HC.
  destruct (completed_sent request key now w c schedule HC) as (S & K & _ & _ & X).
  fold st in S, K.
  exists (final_record request key now (results st)). split.
  - rewrite S. apply in_or_app. right. now left.
  - unfold get_cached_analysis, get_cached. rewrite K at 1.
    unfold set_cached at 1. rewrite lookup_insert_eq.
    change (expires_at (final_record request key now (results st)))
      with (now + minutes CACHE_TTL_MINUTES).
    destruct (Z.leb_spec t (now + minutes CACHE_TTL_MINUTES)) as [L|L].
    + rewrite (proj2 (Z.ltb_ge _ _) L). reflexivity.
    + rewrite (proj2 (Z.ltb_lt _ _) L). reflexivity.
Qed.

Lemma completed_result_is_retrievable_witness :
  exists r,
    In (SseResult r)
      (sent (run_parallel_analysis_stream rain "k" 0 sample_worlds ∅
               (sample_turns ++ sample_polls))) /\
    get_cached_analysis 1000 "k"
      (cache (run_parallel_analysis_stream rain "k" 0 sample_worlds ∅
                (sample_turns ++ sample_polls)))
    = (Answer r,
       cache (run_parallel_analysis_stream rain "k" 0 sample_worlds ∅
                (sample_turns ++ sample_polls))).
Proof.
  apply (completed_result_is_retrievable rain "k" 0 sample_worlds ∅
           (sample_turns ++ sample_polls) 1000).
  vm_compute. reflexivity.
Defined.

(** X14. After a stream has run to its end, a request with the same
    fingerprint that does not force a refresh and arrives within 30
    minutes is answered from the cache: no job is started, whatever
    the request quotes as prices, the events are [cached], the
    result the first stream sent, and [done], and the cache stays as
    it is. *)
Theorem repeated_request_is_served_from_cache (sha256_hexdigest : string -> string)
    (r1 r2 : AnalyzeRequest) (now1 : Z) (w1 : Worlds) (c : gmap string CachedResult)
    (s1 : list Tick) (t now2 : Z) (w2 : Worlds) (s2 : list Tick) :
  let key := generate_cache_key sha256_hexdigest r1 in
  let st1 := run_parallel_analysis_stream r1 key now1 w1 c s1 in
  phase st1 = Completed ->
  generate_cache_key sha256_hexdigest r2 = key ->
  force_refresh r2 = false ->
  t <= now1 + minutes CACHE_TTL_MINUTES ->
  exists r,
    In (SseResult r) (sent st1) /\
    analyze_market sha256_hexdigest r2 t now2 w2 (cache st1) s2 =
      CachedResponse key
        [SseCachedNotice key; Streamed (SseResult r); Streamed SseDone] (cache st1).
Proof.
  intros key st1 HC EK NF L.
  destruct (completed_sent r1 key now1 w1 c s1 HC) as (S & K & _ & _ & X).
  fold st1 in S, K.
  exists (final_record r1 key now1 (results st1)). split.
  - rewrite S. apply in_or_app. right. now left.
  - unfold analyze_market. rewrite NF, EK.
    unfold get_cached. rewrite K at 1.
    unfold set_cached at 1. rewrite lookup_insert_eq.
    change (expires_at (final_record r1 key now1 (results st1)))
      with (now1 + minutes CACHE_TTL_MINUTES).
    rewrite (proj2 (Z.ltb_ge _ _) L). reflexivity.
Qed.

Lemma repeated_request_is_served_from_cache_witness :
  exists r,
    In (SseResult r)
      (sent (run_parallel_analysis_stream rain (generate_cache_key sample_digest rain) 0
               sample_worlds ∅ (sample_turns ++ sample_polls))) /\
    analyze_market sample_digest
      (sample_request (Some "m1") "Rain?" [sample_outcome " no" 1; sample_outcome "YES" 99])
      1000 2000 failing_worlds
      (cache (run_parallel_analysis_stream rain (generate_cache_key sample_digest rain) 0
                sample_worlds ∅ (sample_turns ++ sample_polls)))
      []
    = CachedResponse (generate_cache_key sample_digest rain)
        [SseCachedNotice (generate_cache_key sample_digest rain);
         Streamed (SseResult r); Streamed SseDone]
        (cache (run_parallel_analysis_stream rain (generate_cache_key sample_digest rain) 0
                  sample_worlds ∅ (sample_turns ++ sample_polls))).
Proof.
  apply (repeated_request_is_served_from_cache sample_digest rain
           (sample_request (Some "m1") "Rain?"
              [sample_outcome " no" 1; sample_outcome "YES" 99])
           0 sample_worlds ∅ (sample_turns ++ sample_polls) 1000 2000 failing_worlds []).
  - vm_compute. reflexivity.
  - vm_compute. reflexivity.
  - reflexivity.
  - vm_compute. discriminate.
Defined.

(** X15. A request that forces a refresh is never answered from the
    cache: the analysis runs even when an entry of its key is there
    and fresh. Its stream changes no entry of another key, and when
    it has run to its end the entry of its key is the result it
    sent, created at the end of the analysis and expiring 30 minutes
    later. *)
Theorem forced_refresh_replaces_entry (sha256_hexdigest : string -> string)
    (request : AnalyzeRequest) (t now : Z) (w : Worlds) (c : gmap string CachedResult)
    (schedule : list Tick) :
  force_refresh request = true ->
  let key := generate_cache_key sha256_hexdigest request in
  let st := run_parallel_analysis_stream request key now w c schedule in
  analyze_market sha256_hexdigest request t now w c schedule = LiveResponse key st /\
  (forall k, k <> key -> cache st !! k = c !! k) /\
  (phase st = Completed ->
   exists r,
     cache st !! key = Some r /\ In (SseResult r) (sent st) /\
     created_at r = now /\ expires_at r = now + minutes CACHE_TTL_MINUTES).
Proof.
  intros F key st. split; [|split].
  - unfold analyze_market. now rewrite F.
  - intros k N. now apply run_keeps_other_keys.
  - intros HC.
    destruct (completed_sent request key now w c schedule HC) as (S & K & _ & C & X).
    fold st in S, K, C, X.
    exists (final_record request key now (results st)).
    split; [|split; [|split; [exact C | exact X]]].
    + rewrite K. unfold set_cached. apply lookup_insert_eq.
    + rewrite S. apply in_or_app. right. now left.
Qed.

Lemma forced_refresh_replaces_entry_witness :
  analyze_market sample_digest
    forced_rain 5 9
    sample_worlds ∅ []
  = LiveResponse
      (generate_cache_key sample_digest
         forced_rain)
      (run_parallel_analysis_stream
         forced_rain
         (generate_cache_key sample_digest
            forced_rain)
         9 sample_worlds ∅ []).
Proof.
  apply (forced_refresh_replaces_entry sample_digest
           forced_rain
           5 9 sample_worlds ∅ []).
  reflexivity.
Defined.

End EndpointFacts.

(** ** The agentic search, further *)

Module SearchFacts.
Import PyNum FoundationalJob SearchTerms Samples MoreSamples.
Import SynthFacts JobFacts.
Local Open Scope Q_scope.

Local Arguments String.append !s1 s2 : simpl nomatch.

Lemma append_empty_r (s : string) : s +:+ "" = s.
Proof. induction s as [|a s IH]; simpl; [reflexivity | now rewrite IH]. Qed.

Lemma append_assoc' (a b c : string) : (a +:+ b) +:+ c = a +:+ (b +:+ c).
Proof. induction a as [|x a IH]; simpl; [reflexivity | now rewrite IH]. Qed.

Lemma stream_step_content (st : StreamState) (c : Chunk) :
  final_content (snd (stream_step st c)) = final_content st +:+ chunk_content c.
Proof.
  unfold stream_step. simpl.
  destruct (chunk_content c) as [|a s]; simpl.
  - now rewrite append_empty_r.
  - destruct (is_thinking st); reflexivity.
Qed.

Lemma stream_step_last (st : StreamState) (c : Chunk) :
  last_response (snd (stream_step st c)) = Some c.
Proof. reflexivity. Qed.

Lemma steps_content (cs : list Chunk) (st : StreamState) :
  final_content (snd (steps st cs)) = final_content st +:+ joined cs.
Proof.
  revert st. induction cs as [|c r IH]; intros st; cbn [steps joined].
  - simpl. now rewrite append_empty_r.
  - destruct (stream_step st c) as [evs st'] eqn:E.
    specialize (IH st'). destruct (steps st' r) as [evs' st'']. simpl in *.
    rewrite IH. pose proof (stream_step_content st c) as K. rewrite E in K. simpl in K.
    now rewrite K, append_assoc'.
Qed.

Lemma in_time_read (T : Q) (cs : list Chunk) : in_time T cs = true -> read T cs = cs.
Proof.
  induction cs as [|c r IH]; simpl; [reflexivity|].
  destruct (gtb (elapsed c) T); simpl; [discriminate|].
  intros H. now rewrite IH.
Qed.

(** The loop, by the chunks read in time. *)
Lemma stream_loop_read (T : Q) (cs : list Chunk) (st : StreamState) :
  stream_loop T st cs =
  if in_time T cs
  then (fst (steps st cs), snd (steps st cs), true)
  else (fst (steps st (read T cs)) ++ [Error (SearchTimedOut T)],
        snd (steps st (read T cs)), false).
Proof.
  revert st. induction cs as [|c r IH]; intros st.
  - reflexivity.
  - rewrite stream_loop_cons. cbn [read in_time forallb].
    destruct (gtb (elapsed c) T) eqn:G; [reflexivity|].
    cbn [negb andb steps].
    destruct (stream_step st c) as [evs st'] eqn:E. rewrite (IH st').
    fold (in_time T r).
    destruct (in_time T r).
    + destruct (steps st' r) as [evs' st'']. reflexivity.
    + destruct (steps st' (read T r)) as [evs' st'']. cbn [fst snd].
      now rewrite app_assoc.
Qed.

Lemma steps_no_content (cs : list Chunk) (st : StreamState) :
  Forall not_content (fst (steps st cs)).
Proof.
  revert st. induction cs as [|c r IH]; intros st; cbn [steps]; [constructor|].
  pose proof (stream_step_no_content st c) as H1.
  destruct (stream_step st c) as [evs st']. specialize (IH st').
  destruct (steps st' r) as [evs' st'']. simpl in *.
  now apply Forall_app_2.
Qed.

Lemma stream_tail_content (st : StreamState) :
  exists pre, stream_tail st = pre ++ [Content (final_content st)] /\ Forall not_content pre.
Proof.
  unfold stream_tail. destruct (last_response st) as [c|].
  - exists [CitationList (response_citations c); UsageReport]. split; [reflexivity|].
    repeat constructor.
  - exists []. split; [reflexivity | constructor].
Qed.

(** The search, by the chunks read in time. *)
Lemma search_read (sdk : SdkRun) (T : Q) :
  create_error sdk = None ->
  _run_agentic_search sdk T =
  Log (Text "Grok Agent Initializing...") :: Log (Text "Starting foundational stream...")
  :: fst (steps initial (read T (chunks sdk)))
  ++ (if in_time T (chunks sdk)
      then match stream_error sdk with
           | Some e => [Error (ExceptionText e)]
           | None => stream_tail (snd (steps initial (read T (chunks sdk))))
           end
      else Error (SearchTimedOut T) :: stream_tail (snd (steps initial (read T (chunks sdk))))).
Proof.
  intros C. unfold _run_agentic_search. rewrite C.
  fold initial. rewrite stream_loop_read.
  destruct (in_time T (chunks sdk)) eqn:I.
  - rewrite (in_time_read _ _ I). destruct (stream_error sdk); reflexivity.
  - now rewrite <- app_assoc.
Qed.

(** X16. Unless the stream of the SDK raises, the search ends with its
    one content event, and the text of that event is the text of all
    the chunks that arrived in time, joined in their order: none is
    lost, also not those that carry text while tool calls are still
    reported. When creating the chat raises, or the stream raises
    after chunks that all arrived in time, the search ends with the
    error event instead and yields no content event. *)
Theorem search_content_is_what_was_read (sdk : SdkRun) (T : Q) :
  (create_error sdk = None ->
   stream_error sdk = None \/ in_time T (chunks sdk) = false ->
   exists pre,
     _run_agentic_search sdk T = pre ++ [Content (joined (read T (chunks sdk)))] /\
     Forall not_content pre) /\
  (forall e,
     create_error sdk = Some e \/
     (create_error sdk = None /\ stream_error sdk = Some e /\ in_time T (chunks sdk) = true) ->
     exists pre,
       _run_agentic_search sdk T = pre ++ [Error (ExceptionText e)] /\
       Forall not_content pre).
Proof.
  split.
  - intros C H. rewrite (search_read sdk T C).
    destruct (stream_tail_content (snd (steps initial (read T (chunks sdk)))))
      as (tl & Etl & Htl).
    rewrite steps_content in Etl. simpl in Etl.
    pose proof (steps_no_content (read T (chunks sdk)) initial) as N.
    destruct (in_time T (chunks sdk)) eqn:I.
    + destruct H as [H|H]; [|discriminate H]. rewrite H, Etl.
      exists (Log (Text "Grok Agent Initializing...")
              :: Log (Text "Starting foundational stream...")
              :: fst (steps initial (read T (chunks sdk))) ++ tl).
      split; [simpl; now rewrite <- app_assoc|].
      repeat constructor. now apply Forall_app_2.
    + rewrite Etl.
      exists (Log (Text "Grok Agent Initializing...")
              :: Log (Text "Starting foundational stream...")
              :: fst (steps initial (read T (chunks sdk)))
              ++ Error (SearchTimedOut T) :: tl).
      split; [simpl; now rewrite <- app_assoc|].
      repeat constructor. apply Forall_app_2; [exact N|]. now constructor.
  - intros e [C|(C & S & I)].
    + unfold _run_agentic_search. rewrite C.
      exists [Log (Text "Grok Agent Initializing...")]. split; [reflexivity|].
      repeat constructor.
    + rewrite (search_read sdk T C), I, S.
      exists (Log (Text "Grok Agent Initializing...")
              :: Log (Text "Starting foundational stream...")
              :: fst (steps initial (read T (chunks sdk)))).
      split; [reflexivity|].
      repeat constructor. apply steps_no_content.
Qed.

Lemma search_content_is_what_was_read_witness :
  exists pre,
    _run_agentic_search slow_search 180 = pre ++ [Content "{}"] /\ Forall not_content pre.
Proof.
  apply (proj1 (search_content_is_what_was_read slow_search 180)).
  - reflexivity.
  - right. reflexivity.
Defined.

(** *** A search that times out *)

Lemma read_app_late (T : Q) (before after : list Chunk) (late : Chunk) :
  Forall (fun c => elapsed c <= T) before -> T < elapsed late ->
  read T (before ++ late :: after) = before /\
  in_time T (before ++ late :: after) = false.
Proof.
  intros B L. induction B as [|c r Hc _ IH]; simpl.
  - rewrite (proj2 (gtb_gt _ _) L). split; reflexivity.
  - assert (G : gtb (elapsed c) T = false) by (unfold gtb; now apply ltb_ge).
    rewrite G. simpl. destruct IH as [-> ->]. split; reflexivity.
Qed.

(** X17. A chunk that arrives after the timeout ends the search, but
    not without a result: the chunks before it are handled as in a
    search that had only them, then the time-out error is yielded,
    and then the closing events with the text read so far as the
    content. What the SDK would have delivered after the late chunk,
    further chunks or an exception, plays no role. *)
Theorem timed_out_search_still_yields_content (sdk : SdkRun) (T : Q)
    (before after : list Chunk) (late : Chunk) :
  create_error sdk = None ->
  chunks sdk = before ++ late :: after ->
  Forall (fun c => elapsed c <= T) before ->
  T < elapsed late ->
  exists shown closing,
    _run_agentic_search {| create_error := None; chunks := before; stream_error := None |} T
      = shown ++ closing ++ [Content (joined before)] /\
    _run_agentic_search sdk T
      = shown ++ Error (SearchTimedOut T) :: closing ++ [Content (joined before)] /\
    Forall not_content (shown ++ closing).
Proof.
  intros C E B L.
  destruct (read_app_late T before after late B L) as [R I].
  assert (IB : in_time T before = true).
  { clear -B. induction B as [|c r Hc _ IH]; simpl; [reflexivity|].
    assert (G : gtb (elapsed c) T = false) by (unfold gtb; now apply ltb_ge).
    now rewrite G. }
  destruct (stream_tail_content (snd (steps initial before))) as (tl & Etl & Htl).
  rewrite steps_content in Etl. simpl in Etl.
  exists (Log (Text "Grok Agent Initializing...")
          :: Log (Text "Starting foundational stream...")
          :: fst (steps initial before)), tl.
  split; [|split].
  - rewrite search_read by reflexivity. simpl chunks. simpl stream_error.
    rewrite IB, (in_time_read _ _ IB), Etl. reflexivity.
  - rewrite (search_read sdk T C), E, R, I, Etl. reflexivity.
  - repeat constructor. apply Forall_app_2; [apply steps_no_content | exact Htl].
Qed.

Lemma timed_out_search_still_yields_content_witness :
  exists shown closing,
    _run_agentic_search
      {| create_error := None;
         chunks := [sample_chunk 1 (Some 40%N) ""; sample_chunk 2 (Some 90%N) "{";
                    sample_chunk 3 (Some 90%N) "}"];
         stream_error := None |} 180
      = shown ++ closing ++ [Content "{}"] /\
    _run_agentic_search slow_search 180
      = shown ++ Error (SearchTimedOut 180) :: closing ++ [Content "{}"] /\
    Forall not_content (shown ++ closing).
Proof.
  apply (timed_out_search_still_yields_content slow_search 180
           [sample_chunk 1 (Some 40%N) ""; sample_chunk 2 (Some 90%N) "{";
            sample_chunk 3 (Some 90%N) "}"]
           [] (sample_chunk 200 (Some 90%N) "late")).
  - reflexivity.
  - reflexivity.
  - repeat constructor; vm_compute; discriminate.
  - reflexivity.
Defined.

(** *** Thinking and the final response *)

Lemma stream_step_settled (st : StreamState) (c : Chunk) :
  is_thinking st = false ->
  Forall after_thinking (fst (stream_step st c)) /\
  is_thinking (snd (stream_step st c)) = false.
Proof.
  intros H. unfold stream_step. simpl. rewrite H, !andb_false_r. simpl.
  split; [|reflexivity]. rewrite app_nil_r.
  apply List.Forall_forall. intros e He. apply in_map_iff in He.
  destruct He as (tc & <- & _). exact I.
Qed.

Lemma steps_settled (cs : list Chunk) (st : StreamState) :
  is_thinking st = false -> Forall after_thinking (fst (steps st cs)).
Proof.
  revert st. induction cs as [|c r IH]; intros st H; cbn [steps]; [constructor|].
  destruct (stream_step_settled st c H) as [H1 H2].
  destruct (stream_step st c) as [evs st']. specialize (IH st' H2).
  destruct (steps st' r) as [evs' st'']. simpl in *.
  now apply Forall_app_2.
Qed.

Lemma stream_step_thinking (st : StreamState) (c : Chunk) :
  is_thinking st = true ->
  (Forall (fun e => ~ announces_response e) (fst (stream_step st c)) /\
   is_thinking (snd (stream_step st c)) = true) \/
  (exists p t,
     fst (stream_step st c) = p ++ [Log (FinalResponseStarted t)] /\
     Forall (fun e => ~ announces_response e) p /\
     is_thinking (snd (stream_step st c)) = false).
Proof.
  intros H. unfold stream_step. simpl. rewrite H, !andb_true_r.
  assert (P : Forall (fun e => ~ announces_response e)
                (map (fun tc => ToolCall (fst tc) (snd tc)) (tool_calls c)
                 ++ (if tokens_truthy (reasoning_tokens c)
                     then match reasoning_tokens c with
                          | Some n => [Thinking n]
                          | None => []
                          end
                     else []))).
  { apply Forall_app_2.
    - apply List.Forall_forall. intros e He. apply in_map_iff in He.
      destruct He as (tc & <- & _). intros [].
    - destruct (tokens_truthy (reasoning_tokens c)); [|constructor].
      destruct (reasoning_tokens c); repeat constructor; intros []. }
  destruct (PyStr.nonempty (chunk_content c)).
  - right. eexists. eexists. split; [|split; [exact P | reflexivity]].
    now rewrite app_assoc.
  - left. split; [|reflexivity]. now rewrite !app_nil_r.
Qed.

Lemma steps_thinking (cs : list Chunk) (st : StreamState) :
  is_thinking st = true ->
  Forall (fun e => ~ announces_response e) (fst (steps st cs)) \/
  exists p t q,
    fst (steps st cs) = p ++ Log (FinalResponseStarted t) :: q /\
    Forall (fun e => ~ announces_response e) p /\ Forall after_thinking q.
Proof.
  revert st. induction cs as [|c r IH]; intros st H; cbn [steps].
  - left. constructor.
  - pose proof (stream_step_thinking st c H) as S.
    destruct (stream_step st c) as [evs st'] eqn:E. simpl in S.
    destruct S as [[P T]|(p & t & -> & P & T)].
    + specialize (IH st' T). destruct (steps st' r) as [evs' st'']. simpl in *.
      destruct IH as [IH|(p & t & q & -> & Hp & Hq)].
      * left. now apply Forall_app_2.
      * right. exists (evs ++ p), t, q. split; [now rewrite app_assoc|].
        split; [now apply Forall_app_2 | exact Hq].
    + pose proof (steps_settled r st' T) as Q.
      destruct (steps st' r) as [evs' st'']. simpl in *.
      right. exists p, t, evs'. split; [now rewrite <- app_assoc|]. now split.
Qed.

Lemma one_marker_split {A} (marker : A -> Prop) (p q a b : list A) (x y : A) :
  Forall (fun e => ~ marker e) p -> Forall (fun e => ~ marker e) q ->
  marker x -> marker y ->
  p ++ x :: q = a ++ y :: b -> a = p /\ b = q.
Proof.
  intros Hp Hq Hx Hy. revert a. induction Hp as [|e p He Hp IH]; intros a E.
  - destruct a as [|e a]; simpl in E.
    + injection E as _ E. now split.
    + injection E as _ E. exfalso.
      assert (Iy : In y q) by (rewrite E; apply in_or_app; right; now left).
      exact (proj1 (List.Forall_forall _ _) Hq y Iy Hy).
  - destruct a as [|e' a]; simpl in E.
    + injection E as E _. subst. now elim He.
    + injection E as -> E. destruct (IH a E) as [-> ->]. now split.
Qed.

Lemma after_thinking_quiet (e : Event) : after_thinking e -> ~ announces_response e.
Proof. destruct e as [[]| | | | | | | | |]; simpl; tauto. Qed.

Lemma stream_tail_after_thinking (st : StreamState) : Forall after_thinking (stream_tail st).
Proof. unfold stream_tail. destruct (last_response st); repeat constructor. Qed.

(** X18. The search announces the final response at most once, and
    after that announcement it reports no more thinking: when its
    events hold the log event that announces the final response,
    there is no such event before it, and after it neither such an
    event nor a thinking event. *)
Theorem no_thinking_after_response_starts (sdk : SdkRun) (T : Q)
    (a b : list Event) (t : Q) :
  _run_agentic_search sdk T = a ++ Log (FinalResponseStarted t) :: b ->
  Forall (fun e => ~ announces_response e) a /\ Forall after_thinking b.
Proof.
  intros E.
  destruct (create_error sdk) as [err|] eqn:C.
  { exfalso. unfold _run_agentic_search in E. rewrite C in E.
    destruct a as [|e1 [|e2 [|e3 a]]]; simpl in E; discriminate E. }
  rewrite (search_read sdk T C) in E.
  set (final := if in_time T (chunks sdk)
                then match stream_error sdk with
                     | Some e => [Error (ExceptionText e)]
                     | None => stream_tail (snd (steps initial (read T (chunks sdk))))
                     end
                else Error (SearchTimedOut T)
                     :: stream_tail (snd (steps initial (read T (chunks sdk))))) in E.
  assert (F : Forall after_thinking final).
  { unfold final. destruct (in_time T (chunks sdk)).
    - destruct (stream_error sdk); [repeat constructor | apply stream_tail_after_thinking].
    - constructor; [exact I | apply stream_tail_after_thinking]. }
  assert (Q : forall l, Forall after_thinking l -> Forall (fun e => ~ announces_response e) l).
  { intros l H. eapply Forall_impl; [exact H | exact after_thinking_quiet]. }
  destruct (steps_thinking (read T (chunks sdk)) initial eq_refl)
    as [N|(p & t' & q & Ev & Hp & Hq)].
  - exfalso.
    assert (M : Forall (fun e => ~ announces_response e)
                  (a ++ Log (FinalResponseStarted t) :: b)).
    { rewrite <- E. repeat constructor; try (intros []).
      apply Forall_app_2; [exact N | now apply Q]. }
    apply Forall_app in M. destruct M as [_ M]. inversion M as [|? ? K _]. now apply K.
  - rewrite Ev in E.
    change (Log (Text "Grok Agent Initializing...")
            :: Log (Text "Starting foundational stream...")
            :: (p ++ Log (FinalResponseStarted t') :: q) ++ final)
      with (([Log (Text "Grok Agent Initializing...");
              Log (Text "Starting foundational stream...")] ++ p
             ++ Log (FinalResponseStarted t') :: q) ++ final) in E.
    rewrite <- !app_assoc in E. rewrite app_assoc in E. simpl in E.
    destruct (one_marker_split announces_response
                (Log (Text "Grok Agent Initializing...")
                 :: Log (Text "Starting foundational stream...") :: p)
                (q ++ final) a b (Log (FinalResponseStarted t'))
                (Log (FinalResponseStarted t))) as [-> ->]; try exact I.
    + repeat constructor; try (intros []). exact Hp.
    + apply Forall_app_2; now apply Q.
    + exact E.
    + split.
      * repeat constructor; try (intros []). exact Hp.
      * now apply Forall_app_2.
Qed.

Lemma no_thinking_after_response_starts_witness :
  Forall (fun e => ~ announces_response e)
    [Log (Text "Grok Agent Initializing..."); Log (Text "Starting foundational stream...");
     Thinking 40; Thinking 90] /\
  Forall after_thinking
    [Error (SearchTimedOut 180); CitationList []; UsageReport; Content "{}"].
Proof.
  apply (no_thinking_after_response_starts slow_search 180 _ _ 2).
  reflexivity.
Defined.

End SearchFacts.

(** ** Texts and fences *)

Module TextFacts.
Import PyStr PyText Fences.

Local Arguments String.append !s1 s2 : simpl nomatch.

Lemma app_empty_r (s : string) : s +:+ "" = s.
Proof. induction s as [|a s IH]; simpl; [reflexivity | now rewrite IH]. Qed.

Lemma app_assoc_s (a b c : string) : (a +:+ b) +:+ c = a +:+ (b +:+ c).
Proof. induction a as [|x a IH]; simpl; [reflexivity | now rewrite IH]. Qed.

Lemma length_app (a b : string) :
  String.length (a +:+ b) = (String.length a + String.length b)%nat.
Proof. induction a as [|x a IH]; simpl; [reflexivity | now rewrite IH]. Qed.

Lemma take_app (a b : string) : take (String.length a) (a +:+ b) = a.
Proof. induction a as [|x a IH]; simpl; [now destruct b | now rewrite IH]. Qed.

Lemma drop_app (a b : string) : drop (String.length a) (a +:+ b) = b.
Proof. induction a as [|x a IH]; simpl; [now destruct b | exact IH]. Qed.


Lemma prefix_app (p r : string) : String.prefix p (p +:+ r) = true.
Proof.
  induction p as [|x p IH]; simpl; [now destruct r|].
  destruct (ascii_dec x x) as [_|N]; [exact IH | now elim N].
Qed.



Lemma prefix_head (x y : ascii) (p s : string) :
  x <> y -> String.prefix (String x p) (String y s) = false.
Proof. intros N. simpl. destruct (ascii_dec x y); [now elim N | reflexivity]. Qed.

(** *** [find] and [rfind] *)

Lemma find_unfold (sub s : string) :
  find sub s =
  if String.prefix sub s then Some O
  else match s with
       | EmptyString => None
       | String _ r => option_map S (find sub r)
       end.
Proof. destruct s; reflexivity. Qed.

Lemma find_app_prefix (p r : string) : find p (p +:+ r) = Some O.
Proof. now rewrite find_unfold, prefix_app. Qed.

Lemma without_head (x : ascii) (a : ascii) (r : string) :
  without x (String a r) = true -> a <> x /\ without x r = true.
Proof.
  simpl. intros H. apply andb_true_iff in H. destruct H as [H1 H2].
  split; [|exact H2]. intros ->. rewrite Ascii.eqb_refl in H1. discriminate.
Qed.

Lemma find_after (x : ascii) (sub pre s : string) :
  without x pre = true ->
  find (String x sub) (pre +:+ s) =
  option_map (Nat.add (String.length pre)) (find (String x sub) s).
Proof.
  induction pre as [|a pre IH]; intros W.
  - simpl. now destruct (find (String x sub) s).
  - apply without_head in W. destruct W as [N W].
    change (String a pre +:+ s) with (String a (pre +:+ s)).
    rewrite find_unfold, prefix_head by congruence.
    rewrite (IH W). now destruct (find (String x sub) s).
Qed.




(** *** [endswith] *)





(** *** [strip] *)


Lemma lstrip_head (c : ascii) (s : string) :
  is_space c = false -> lstrip (String c s) = String c s.
Proof. intros H. cbn [lstrip]. now rewrite H. Qed.






Lemma rstrip_idem (s : string) : rstrip (rstrip s) = rstrip s.
Proof.
  induction s as [|c s IH]; [reflexivity|].
  cbn [rstrip]. destruct (rstrip s) as [|b r] eqn:E.
  - destruct (is_space c) eqn:S; [reflexivity|]. cbn [rstrip]. now rewrite S.
  - cbn [rstrip] in *. rewrite IH. reflexivity.
Qed.

Lemma lstrip_shape (s : string) :
  lstrip s = "" \/ exists c r, lstrip s = String c r /\ is_space c = false.
Proof.
  induction s as [|c s IH]; [now left|].
  cbn [lstrip]. destruct (is_space c) eqn:S; [exact IH|].
  right. now exists c, s.
Qed.

Lemma rstrip_keeps_head (c : ascii) (r : string) :
  is_space c = false -> exists r', rstrip (String c r) = String c r'.
Proof.
  intros S. cbn [rstrip]. destruct (rstrip r).
  - rewrite S. now exists "".
  - eexists. reflexivity.
Qed.

Lemma strip_idem (s : string) : strip (strip s) = strip s.
Proof.
  unfold strip. destruct (lstrip_shape s) as [->|(c & r & -> & S)]; [reflexivity|].
  destruct (rstrip_keeps_head c r S) as [r' E].
  rewrite E, (lstrip_head _ _ S), <- E. apply rstrip_idem.
Qed.

(** *** One-character patterns *)

Lemma prefix_char (x c : ascii) (s : string) :
  String.prefix (String x "") (String c s) = bool_decide (x = c).
Proof.
  simpl. destruct (ascii_dec x c) as [E|N].
  - rewrite bool_decide_true by exact E. now destruct s.
  - now rewrite bool_decide_false.
Qed.

Lemma find_char_split (x : ascii) (s : string) (i : nat) :
  find (String x "") s = Some i ->
  exists a r, s = a +:+ String x r /\ without x a = true /\ String.length a = i.
Proof.
  revert i. induction s as [|c s IH]; intros i H; [discriminate H|].
  rewrite find_unfold, prefix_char in H.
  destruct (decide (x = c)) as [<-|N].
  - rewrite bool_decide_true in H by reflexivity. injection H as <-.
    now exists "", s.
  - rewrite bool_decide_false in H by exact N.
    destruct (find (String x "") s) as [k|]; [|discriminate H].
    injection H as <-. destruct (IH k eq_refl) as (a & r & -> & W & L).
    exists (String c a), r. split; [reflexivity|]. split; [|simpl; now rewrite L].
    simpl. rewrite W, andb_true_r. apply negb_true_iff. apply Ascii.eqb_neq. congruence.
Qed.

Lemma rfind_none_without (x : ascii) (s : string) :
  rfind (String x "") s = None -> without x s = true.
Proof.
  induction s as [|c s IH]; [reflexivity|].
  cbn [rfind]. destruct (rfind (String x "") s); [discriminate|].
  rewrite prefix_char. intros H. simpl. rewrite (IH eq_refl), andb_true_r.
  destruct (decide (x = c)) as [E|N].
  - rewrite bool_decide_true in H by exact E. discriminate H.
  - apply negb_true_iff. apply Ascii.eqb_neq. congruence.
Qed.

Lemma rfind_char_split (x : ascii) (s : string) (j : nat) :
  rfind (String x "") s = Some j ->
  exists a b, s = a +:+ String x b /\ without x b = true /\ String.length a = j.
Proof.
  revert j. induction s as [|c s IH]; intros j H; [discriminate H|].
  cbn [rfind] in H. destruct (rfind (String x "") s) as [k|] eqn:R.
  - injection H as <-. destruct (IH k eq_refl) as (a & b & -> & W & L).
    exists (String c a), b. split; [reflexivity|]. split; [exact W | simpl; now rewrite L].
  - rewrite prefix_char in H. destruct (decide (x = c)) as [<-|N].
    + rewrite bool_decide_true in H by reflexivity. injection H as <-.
      exists "", s. split; [reflexivity|]. split; [now apply rfind_none_without | reflexivity].
    + rewrite bool_decide_false in H by exact N. discriminate H.
Qed.

Lemma find_char_app (x : ascii) (a r : string) :
  exists i, find (String x "") (a +:+ String x r) = Some i /\ (i <= String.length a)%nat.
Proof.
  induction a as [|c a IH].
  - exists O. simpl "+:+". rewrite find_unfold, prefix_char, bool_decide_true by reflexivity.
    split; [reflexivity | simpl; lia].
  - change (String c a +:+ String x r) with (String c (a +:+ String x r)).
    rewrite find_unfold, prefix_char. destruct (decide (x = c)) as [E|N].
    + rewrite bool_decide_true by exact E. exists O. split; [reflexivity | simpl; lia].
    + rewrite bool_decide_false by exact N. destruct IH as (i & -> & L).
      exists (S i). split; [reflexivity | simpl; lia].
Qed.

Lemma rfind_char_app (x : ascii) (a b : string) :
  exists j, rfind (String x "") (a +:+ String x b) = Some j /\ (String.length a <= j)%nat.
Proof.
  induction a as [|c a IH].
  - simpl "+:+". cbn [rfind]. destruct (rfind (String x "") b) as [k|].
    + exists (S k). split; [reflexivity | simpl; lia].
    + rewrite prefix_char, bool_decide_true by reflexivity. exists O.
      split; [reflexivity | simpl; lia].
  - change (String c a +:+ String x b) with (String c (a +:+ String x b)).
    cbn [rfind]. destruct IH as (j & -> & L). exists (S j). split; [reflexivity | simpl; lia].
Qed.

Lemma app_eq_split (a u c v : string) :
  a +:+ u = c +:+ v -> (String.length a <= String.length c)%nat ->
  exists m, c = a +:+ m /\ u = m +:+ v.
Proof.
  revert c. induction a as [|x a IH]; intros c E L.
  - exists c. simpl in E. now split.
  - destruct c as [|y c]; [simpl in L; lia|].
    simpl in E. injection E as -> E. destruct (IH c E) as (m & -> & ->); [simpl in L; lia|].
    now exists m.
Qed.

(** X19. The text that the server hands to [json.loads] is the span
    from the first opening brace of the cleaned reply to its last
    closing brace: it starts with an opening brace and ends with a
    closing one, no opening brace stands before it and no closing
    brace after it. There is no such text, and the reply counts as
    holding no JSON object, exactly when no closing brace follows an
    opening brace. *)
Theorem braced_is_widest_span (clean : string) :
  match braced clean with
  | Some text =>
      exists a m b,
        clean = a +:+ text +:+ b /\ text = "{" +:+ m +:+ "}" /\
        without "{" a = true /\ without "}" b = true
  | None => forall a m b, clean <> a +:+ "{" +:+ m +:+ "}" +:+ b
  end.
Proof.
  unfold braced.
  destruct (find "{" clean) as [i|] eqn:F; cbn [index_z].
  - destruct (rfind "}" clean) as [j|] eqn:R; cbn [index_z].
    + destruct (find_char_split _ _ _ F) as (a & r & E1 & W1 & L1).
      destruct (rfind_char_split _ _ _ R) as (c & b & E2 & W2 & L2).
      destruct (Z.ltb_spec (Z.of_nat i) (Z.of_nat j + 1)) as [Lt|Ge].
      * replace (0 <=? Z.of_nat i) with true by (symmetry; apply Z.leb_le; lia).
        cbn [andb].
        assert (E : a +:+ String "{" r = c +:+ String "}" b) by congruence.
        destruct (app_eq_split _ _ _ _ E) as (m0 & Ec & Er); [lia|].
        destruct m0 as [|y m].
        { exfalso. simpl in Er. discriminate Er. }
        simpl in Er. injection Er as <- Er.
        exists a, m, b. split; [|split; [|split; [exact W1 | exact W2]]].
        -- assert (K : Z.to_nat (Z.of_nat j + 1 - Z.of_nat i) = String.length ("{" +:+ m +:+ "}")).
           { rewrite <- L1, <- L2, Ec. simpl. rewrite !length_app. simpl. lia. }
           rewrite K, Nat2Z.id, <- L1, E1, Er.
           change (String "{" (m +:+ String "}" b)) with ("{" +:+ m +:+ String "}" b).
           rewrite drop_app.
           replace ("{" +:+ m +:+ String "}" b) with (("{" +:+ m +:+ "}") +:+ b)
             by (simpl; now rewrite app_assoc_s).
           now rewrite take_app.
        -- assert (K : Z.to_nat (Z.of_nat j + 1 - Z.of_nat i) = String.length ("{" +:+ m +:+ "}")).
           { rewrite <- L1, <- L2, Ec. simpl. rewrite !length_app. simpl. lia. }
           rewrite K, Nat2Z.id, <- L1, E1, Er.
           change (String "{" (m +:+ String "}" b)) with ("{" +:+ m +:+ String "}" b).
           rewrite drop_app.
           replace ("{" +:+ m +:+ String "}" b) with (("{" +:+ m +:+ "}") +:+ b)
             by (simpl; now rewrite app_assoc_s).
           now rewrite take_app.
      * rewrite Bool.andb_false_r. intros a' m' b' ->.
        destruct (find_char_app "{" a' (m' +:+ "}" +:+ b')) as (i' & F' & Li).
        destruct (rfind_char_app "}" (a' +:+ "{" +:+ m') b') as (j' & R' & Lj).
        assert (X : (a' +:+ "{" +:+ m') +:+ String "}" b' = a' +:+ "{" +:+ m' +:+ "}" +:+ b').
        { simpl. now rewrite !app_assoc_s. }
        rewrite X in R'. simpl in F, F', R, R'.
        rewrite F' in F. rewrite R' in R. injection F as <-. injection R as <-.
        rewrite length_app in Lj. simpl in Lj. lia.
    + replace (Z.of_nat i <? -1 + 1) with false by (symmetry; apply Z.ltb_ge; lia).
      rewrite Bool.andb_false_r. intros a' m' b' ->.
      destruct (rfind_char_app "}" (a' +:+ "{" +:+ m') b') as (j' & R' & _).
      assert (X : (a' +:+ "{" +:+ m') +:+ String "}" b' = a' +:+ "{" +:+ m' +:+ "}" +:+ b').
      { simpl. now rewrite !app_assoc_s. }
      rewrite X in R'. simpl in R, R'. congruence.
  - simpl. intros a' m' b' ->.
    destruct (find_char_app "{" a' (m' +:+ "}" +:+ b')) as (i' & F' & _).
    simpl in F, F'. congruence.
Qed.

(** *** Fenced replies *)










(** *** The text that [_extract_json] parses *)

Lemma contains_unfold (needle hay : string) :
  contains needle hay =
  String.prefix needle hay ||
  match hay with
  | EmptyString => false
  | String _ r => contains needle r
  end.
Proof. destruct hay; reflexivity. Qed.

Lemma contains_find (sub s : string) :
  contains sub s = true -> exists i, find sub s = Some i.
Proof.
  induction s as [|c s IH]; rewrite contains_unfold, find_unfold; intros H.
  - rewrite orb_false_r in H. rewrite H. now exists O.
  - destruct (String.prefix sub (String c s)); [now exists O|].
    destruct (IH H) as [i ->]. now exists (S i).
Qed.

Lemma contains_without (x : ascii) (p s : string) :
  without x s = true -> contains (String x p) s = false.
Proof.
  induction s as [|c s IH]; intros W; [reflexivity|].
  apply without_head in W. destruct W as [N W].
  rewrite contains_unfold, prefix_head by congruence. now apply IH.
Qed.

Lemma contains_app (pre p r : string) : contains p (pre +:+ p +:+ r) = true.
Proof.
  induction pre as [|c pre IH].
  - simpl "+:+". now rewrite contains_unfold, prefix_app.
  - change (String c pre +:+ p +:+ r) with (String c (pre +:+ p +:+ r)).
    rewrite contains_unfold, IH. apply orb_true_r.
Qed.

Lemma drop_add (pre s : string) (n : nat) :
  drop (String.length pre + n) (pre +:+ s) = drop n s.
Proof. induction pre as [|c pre IH]; [reflexivity | exact IH]. Qed.

Lemma split1_at (x : ascii) (sub pre r : string) :
  without x pre = true ->
  split1 (String x sub) (pre +:+ String x sub +:+ r) = (pre, Some r).
Proof.
  intros W. unfold split1.
  rewrite (find_after x sub pre _ W), find_app_prefix. cbn [option_map].
  rewrite Nat.add_0_r, take_app, drop_add, drop_app. reflexivity.
Qed.

(** X21. The text that [_extract_json] hands to [json.loads] has no
    white space at either end, and finding it never fails on the
    index. For a reply without a back quote it is the reply without
    the white space around it. For a reply that holds a fence marked
    as JSON, after prose without back quotes, it is what stands
    between that fence and the next one, without the white space
    around it, whatever follows the closing fence. *)
Theorem json_text_is_fence_content (text pre body post : string) :
  (exists s, json_str text = Returned s /\ strip s = s) /\
  (without backtick text = true -> json_str text = Returned (strip text)) /\
  (without backtick pre = true -> without backtick body = true ->
   json_str (pre +:+ json_fence +:+ body +:+ fence +:+ post) = Returned (strip body)).
Proof.
  split; [|split].
  - unfold json_str.
    destruct (contains json_fence text) eqn:C1.
    + destruct (contains_find _ _ C1) as [i F]. unfold split1 at 1. rewrite F. cbn [snd].
      eexists. split; [reflexivity | apply strip_idem].
    + destruct (contains fence text) eqn:C2.
      * destruct (contains_find _ _ C2) as [i F]. unfold split1 at 1. rewrite F. cbn [snd].
        eexists. split; [reflexivity | apply strip_idem].
      * eexists. split; [reflexivity | apply strip_idem].
  - intros W. unfold json_str, json_fence, fence.
    now rewrite !(contains_without backtick _ _ W).
  - intros Wp Wb. unfold json_str.
    rewrite contains_app. unfold json_fence, fence.
    rewrite (split1_at backtick "``json" pre _ Wp). cbn [snd].
    now rewrite (split1_at backtick "``" body _ Wb).
Qed.

End TextFacts.

(** ** [_call_grok]: retries *)

Module GrokFacts.
Import PyStr Fences GrokClient MoreSamples.

Section Retries.

Context {J : Type}.
Variable json_loads : string -> Outcome J.
Variable post : nat -> Post.
Variable return_full_response : bool.
Variable expect_json : bool.
Variable max_retries : nat.

Lemma attempts_discipline (remaining attempt : nat) (last : option string) :
  (remaining + attempt = max_retries)%nat ->
  let call :=
    attempts json_loads post return_full_response expect_json max_retries
      remaining attempt last in
  (posts call <= remaining)%nat /\
  sleeps call = map wait_time (seq attempt (posts call - 1)) /\
  (forall i, (attempt <= i < attempt + (posts call - 1))%nat -> exists e, post i = NetworkError e).
Proof.
  revert attempt last. induction remaining as [|k IH]; intros attempt last E; cbn [attempts].
  - simpl. split; [lia|]. split; [reflexivity|]. intros i Hi. lia.
  - destruct (post attempt) as [e|s d|e|e|content] eqn:P;
      try (simpl; split; [lia|]; split; [reflexivity|]; intros i Hi; lia).
    destruct (Nat.ltb_spec attempt (max_retries - 1)) as [L|L];
      [|simpl; split; [lia|]; split; [reflexivity|]; intros i Hi; lia].
    destruct (IH (S attempt) (Some e)) as (H1 & H2 & H3); [lia|].
    cbn [sleeps posts outcome].
    assert (Q : (1 <= posts (attempts json_loads post return_full_response expect_json max_retries
                       k (S attempt) (Some e)))%nat).
    { destruct k as [|k']; [lia|]. cbn [attempts].
      destruct (post (S attempt)); try (simpl; lia).
      destruct (S attempt <? max_retries - 1)%nat; simpl; lia. }
    split; [lia|]. split.
    + rewrite H2.
      replace (S (posts (attempts json_loads post return_full_response expect_json
                           max_retries k (S attempt) (Some e))) - 1)%nat
        with (S (posts (attempts json_loads post return_full_response expect_json
                          max_retries k (S attempt) (Some e)) - 1)) by lia.
      reflexivity.
    + intros i Hi. destruct (decide (i = attempt)) as [->|N]; [now exists e|].
      apply H3. lia.
Qed.

Lemma attempts_decided (remaining attempt k : nat) (last : option string) :
  (remaining + attempt = max_retries)%nat -> (attempt <= k < max_retries)%nat ->
  (forall i, (attempt <= i < k)%nat -> exists e, post i = NetworkError e) ->
  let call :=
    attempts json_loads post return_full_response expect_json max_retries
      remaining attempt last in
  match post k with
  | NetworkError e =>
      k = (max_retries - 1)%nat ->
      outcome call = inl (NetworkFailure max_retries e) /\ posts call = (k - attempt + 1)%nat
  | p =>
      posts call = (k - attempt + 1)%nat /\
      outcome call =
        match p with
        | HTTPStatusError status_code detail => inl (ApiStatusFailure status_code detail)
        | HTTPError e => inl (ApiFailure e)
        | BodyNotJson _ => inl (UnboundLocalError "text")
        | Message content => answer json_loads return_full_response expect_json content
        | NetworkError e => inl (NetworkFailure max_retries e)
        end
  end.
Proof.
  revert attempt last. induction remaining as [|r IH]; intros attempt last E K N; [lia|].
  cbn [attempts]. destruct (decide (attempt = k)) as [->|D].
  - destruct (post k) as [e|s d|e|e|content];
      try (simpl; split; [lia | reflexivity]).
    intros ->. rewrite Nat.ltb_irrefl. simpl. split; [reflexivity | lia].
  - destruct (N attempt) as [e P]; [lia|]. rewrite P.
    replace (attempt <? max_retries - 1)%nat with true by (symmetry; apply Nat.ltb_lt; lia).
    specialize (IH (S attempt) (Some e)). cbn [sleeps posts outcome].
    assert (G : forall i, (S attempt <= i < k)%nat -> exists e, post i = NetworkError e)
      by (intros i Hi; apply N; lia).
    specialize (IH ltac:(lia) ltac:(lia) G). cbv zeta in IH.
    destruct (post k) as [e'|s d|e'|e'|content].
    + intros Ek. destruct (IH Ek) as [-> ->]. split; [reflexivity | lia].
    + destruct IH as [-> ->]. split; [lia | reflexivity].
    + destruct IH as [-> ->]. split; [lia | reflexivity].
    + destruct IH as [-> ->]. split; [lia | reflexivity].
    + destruct IH as [-> ->]. split; [lia | reflexivity].
Qed.

End Retries.

(** X22. [_call_grok] sends at most [max_retries] requests, and it
    sends another request only after a network error: every request
    but its last one ended in a network error. It waits between two
    requests and never after the last: 1.5 seconds after the first,
    2.5 after the second, 4.5 after the third, and so on. *)
Theorem grok_retries_only_network_errors {J : Type} (json_loads : string -> Outcome J)
    (post : nat -> Post) (return_full_response expect_json : bool) (max_retries : nat) :
  let call := _call_grok json_loads post return_full_response expect_json max_retries in
  (posts call <= max_retries)%nat /\
  sleeps call = map wait_time (seq 0 (posts call - 1)) /\
  (forall i, (i < posts call - 1)%nat -> exists e, post i = NetworkError e).
Proof.
  pose proof (attempts_discipline json_loads post return_full_response expect_json
                max_retries max_retries O None ltac:(lia)) as H.
  cbv zeta in *. unfold _call_grok. destruct H as (H1 & H2 & H3).
  split; [exact H1|]. split; [exact H2|]. intros i Hi. apply H3. lia.
Qed.

(** X23. The first request that does not end in a network error
    decides the call, if it is among the [max_retries] first: a
    message is answered from, a status error or another HTTP error
    becomes the matching [RuntimeError] at once, without another
    request, and a body that is not JSON ends the call in the
    [UnboundLocalError] of the handler that reports it. When all
    [max_retries] requests end in network errors, the call raises
    with the last of them. *)
Theorem grok_first_answer_decides {J : Type} (json_loads : string -> Outcome J)
    (post : nat -> Post) (return_full_response expect_json : bool)
    (max_retries k : nat) :
  (k < max_retries)%nat ->
  (forall i, (i < k)%nat -> exists e, post i = NetworkError e) ->
  let call := _call_grok json_loads post return_full_response expect_json max_retries in
  match post k with
  | NetworkError e =>
      k = (max_retries - 1)%nat ->
      outcome call = inl (NetworkFailure max_retries e) /\ posts call = max_retries
  | HTTPStatusError status_code detail =>
      posts call = S k /\ outcome call = inl (ApiStatusFailure status_code detail)
  | HTTPError e => posts call = S k /\ outcome call = inl (ApiFailure e)
  | BodyNotJson _ => posts call = S k /\ outcome call = inl (UnboundLocalError "text")
  | Message content =>
      posts call = S k /\
      outcome call = answer json_loads return_full_response expect_json content
  end.
Proof.
  intros K N.
  assert (N' : forall i, (0 <= i < k)%nat -> exists e, post i = NetworkError e)
    by (intros i Hi; apply N; lia).
  pose proof (attempts_decided json_loads post return_full_response expect_json
                max_retries max_retries O k None ltac:(lia) ltac:(lia) N') as H.
  cbv zeta in *. unfold _call_grok.
  destruct (post k) as [e|s d|e|e|content].
  - intros Ek. destruct (H Ek) as [-> ->]. split; [reflexivity | lia].
  - destruct H as [-> ->]. split; [lia | reflexivity].
  - destruct H as [-> ->]. split; [lia | reflexivity].
  - destruct H as [-> ->]. split; [lia | reflexivity].
  - destruct H as [-> ->]. split; [lia | reflexivity].
Qed.

Lemma grok_first_answer_decides_witness :
  posts (_call_grok sample_loads flaky_post false true 3) = 2%nat /\
  outcome (_call_grok sample_loads flaky_post false true 3) = inr (Parsed "{}").
Proof.
  apply (grok_first_answer_decides sample_loads flaky_post false true 3 1).
  - lia.
  - intros i Hi. exists "reset". destruct i as [|i]; [reflexivity | lia].
Defined.

End GrokFacts.

(** ** Fetching the tweets *)

Module TweetFacts.
Import PyStr PyText Tweets MoreSamples.

Local Arguments String.append !s1 s2 : simpl nomatch.

Section Figure.

Variable m : Z.
Hypothesis m_pos : 0 < m.
Variable handle name : string.

Lemma limit_pos (count : nat) : limit_reached (Some m) count = (Z.to_nat m <=? count)%nat.
Proof.
  unfold limit_reached.
  replace (m =? 0) with false by (symmetry; apply Z.eqb_neq; lia). cbn [negb andb].
  destruct (Z.leb_spec m (Z.of_nat count)), (Nat.leb_spec (Z.to_nat m) count);
    try reflexivity; lia.
Qed.

Lemma add_posts_spec (posts : list ApiPost) (tweets : list Tweet) (count : nat) :
  (count < Z.to_nat m)%nat ->
  add_posts (Some m) handle name posts (tweets, count) =
  (tweets ++ map (tweet_dict handle name) (firstn (Z.to_nat m - count) posts),
   (count + Nat.min (Z.to_nat m - count) (length posts))%nat).
Proof.
  revert tweets count. induction posts as [|p r IH]; intros tweets count L.
  - simpl. rewrite firstn_nil, app_nil_r, Nat.min_0_r, Nat.add_0_r. reflexivity.
  - cbn [add_posts fst snd]. rewrite limit_pos.
    destruct (Z.to_nat m - count)%nat as [|d] eqn:D; [lia|].
    destruct (Nat.leb_spec (Z.to_nat m) (S count)) as [Le|Gt].
    + assert (d = O) by lia. subst d. simpl. f_equal. lia.
    + rewrite IH by lia. replace (Z.to_nat m - S count)%nat with d by lia.
      simpl. rewrite <- app_assoc. simpl. f_equal. lia.
Qed.

Lemma read_pages_spec (pages : list Page) (paging_error : option string)
    (tweets : list Tweet) (count : nat) :
  (count < Z.to_nat m)%nat ->
  read_pages (Some m) handle name pages paging_error (tweets, count) =
  if (Z.to_nat m - count <=? length (posts_of pages))%nat
  then Returned (tweets ++ map (tweet_dict handle name)
                             (firstn (Z.to_nat m - count) (posts_of pages)),
                 Z.to_nat m)
  else match paging_error with
       | Some e => Raised e
       | None => Returned (tweets ++ map (tweet_dict handle name) (posts_of pages),
                           (count + length (posts_of pages))%nat)
       end.
Proof.
  revert tweets count. induction pages as [|page r IH]; intros tweets count L.
  - cbn [read_pages posts_of flat_map length].
    replace (Z.to_nat m - count <=? 0)%nat with false by (symmetry; apply Nat.leb_gt; lia).
    simpl. now rewrite app_nil_r, Nat.add_0_r.
  - cbn [read_pages]. change (posts_of (page :: r))
      with (match page with NoData => [] | OnePost p => [p] | Posts l => l end ++ posts_of r).
    set (data := match page with NoData => [] | OnePost p => [p] | Posts l => l end).
    destruct data as [|p ps] eqn:D.
    + rewrite IH by exact L. reflexivity.
    + rewrite add_posts_spec by exact L. cbn [snd]. rewrite limit_pos.
      set (n := (Z.to_nat m - count)%nat). set (k := length (p :: ps)).
      rewrite length_app. fold k.
      destruct (Nat.le_gt_cases n k) as [Le|Gt].
      * rewrite Nat.min_l by exact Le.
        replace (Z.to_nat m <=? count + n)%nat with true by (symmetry; apply Nat.leb_le; lia).
        replace (n <=? k + length (posts_of r))%nat with true
          by (symmetry; apply Nat.leb_le; lia).
        rewrite firstn_app. replace (n - length (p :: ps))%nat with O by (fold k; lia).
        rewrite firstn_O, app_nil_r. f_equal. f_equal. unfold n. lia.
      * rewrite Nat.min_r by lia.
        replace (Z.to_nat m <=? count + k)%nat with false
          by (symmetry; apply Nat.leb_gt; lia).
        rewrite IH by lia.
        rewrite (firstn_all2 (n := n) (p :: ps)) by (fold k; lia).
        replace (Z.to_nat m - (count + k))%nat with (n - k)%nat by (unfold n; lia).
        destruct (Nat.leb_spec (n - k) (length (posts_of r))) as [A|A].
        -- replace (n <=? k + length (posts_of r))%nat with true
             by (symmetry; apply Nat.leb_le; lia).
           rewrite firstn_app, (firstn_all2 (n := n) (p :: ps)) by (fold k; lia).
           fold k. now rewrite map_app, app_assoc.
        -- replace (n <=? k + length (posts_of r))%nat with false
             by (symmetry; apply Nat.leb_gt; lia).
           destruct paging_error; [reflexivity|].
           rewrite map_app, app_assoc. f_equal. f_equal. lia.
Qed.

End Figure.

Lemma figure_tweets_are_first_posts_eq (search : string -> Search) (m : Z)
    (handle name : string) :
  0 < m ->
  fetch_figure search (Some m) handle name =
  match request_error (search ("from:" +:+ handle +:+ " -is:retweet")) with
  | Some _ => []
  | None =>
      if (Z.to_nat m
          <=? length (posts_of (pages (search ("from:" +:+ handle +:+ " -is:retweet")))))%nat
      then map (tweet_dict handle name)
             (firstn (Z.to_nat m)
                (posts_of (pages (search ("from:" +:+ handle +:+ " -is:retweet")))))
      else match paging_error (search ("from:" +:+ handle +:+ " -is:retweet")) with
           | Some _ => []
           | None =>
               map (tweet_dict handle name)
                 (posts_of (pages (search ("from:" +:+ handle +:+ " -is:retweet"))))
           end
  end.
Proof.
  intros M. unfold fetch_figure.
  destruct (request_error _); [reflexivity|].
  rewrite (read_pages_spec m M) by lia. rewrite Nat.sub_0_r.
  destruct (Z.to_nat m <=? _)%nat; [reflexivity|].
  destruct (paging_error _); reflexivity.
Qed.

(** X24. With a limit of [m] tweets per figure, the tweets of a figure
    are the first [m] posts of the pages, in their order, each with
    the handle and the name of the figure. When the pages hold fewer
    than [m] posts, they are all of them if paging ends well; if
    then asking for one more page raises, or if the request itself
    raised, the figure gets no tweet at all, also not those of the
    pages already read. An error after the page on which the limit
    is reached is never met. *)
Theorem figure_tweets_are_first_posts (search : string -> Search) (m : Z)
    (handle name : string) :
  0 < m ->
  let s := search ("from:" +:+ handle +:+ " -is:retweet") in
  fetch_figure search (Some m) handle name =
  match request_error s with
  | Some _ => []
  | None =>
      if (Z.to_nat m <=? length (posts_of (pages s)))%nat
      then map (tweet_dict handle name) (firstn (Z.to_nat m) (posts_of (pages s)))
      else match paging_error s with
           | Some _ => []
           | None => map (tweet_dict handle name) (posts_of (pages s))
           end
  end.
Proof.
  intros M s. now apply figure_tweets_are_first_posts_eq.
Qed.

(** *** The dict of all figures *)














(** *** The limit *)






Lemma figure_tweets_are_first_posts_witness :
  fetch_figure (search_recent sample_x_api 0) (Some 2) "osint" "O. Sint" =
  [tweet_dict "osint" "O. Sint" (sample_post "1"); tweet_dict "osint" "O. Sint" (sample_post "2")].
Proof.
  apply (figure_tweets_are_first_posts (search_recent sample_x_api 0) 2 "osint" "O. Sint").
  lia.
Defined.

End TweetFacts.

(** ** The historical research *)

Module ResearchFacts.
Import PyStr PyText Synth SynthTerms Research Samples MoreSamples.
Import SynthFacts SynthMore.

(** *** The questions *)

Lemma questions_from_numbers (start : nat) (dflt : string) (items : list QData)
    (qs : list HistoricalQuestion) :
  questions_from start dflt items = inr qs ->
  map question_number qs = seq start (length qs).
Proof.
  revert start qs. induction items as [|q r IH]; intros start qs; cbn [questions_from].
  - now intros [= <-].
  - destruct (q_question_text q); [|discriminate].
    destruct (questions_from (S start) dflt r) as [e|qs'] eqn:E; [discriminate|].
    simpl. intros [= <-]. simpl. f_equal. now apply IH.
Qed.

Lemma followup_numbers (w : World) (total : nat) :
  map question_number (_generate_followup_questions w total) =
  seq (total + 1) (length (_generate_followup_questions w total)).
Proof.
  unfold _generate_followup_questions.
  destruct (called (followups w)) as [e|response]; [reflexivity|]. cbn [bind].
  destruct (questions_from _ _ _) as [e|qs] eqn:E; [reflexivity|].
  now apply (questions_from_numbers _ _ _ _ E).
Qed.

(** X27. The questions of a research are numbered 1, 2, 3 and so on in
    the order in which they are put, without a gap and none twice,
    the follow-up questions going on where the questions of the plan
    end. *)
Theorem questions_are_numbered_in_order (w : World) :
  map question_number (questions_put w) = seq 1 (length (questions_put w)).
Proof.
  unfold questions_put.
  destruct (_generate_questions_with_grok w) as [e|qs] eqn:E; [reflexivity|].
  unfold _generate_questions_with_grok in E.
  destruct (called (plan w)) as [e|response]; [discriminate|]. cbn [bind] in E.
  rewrite map_app, (questions_from_numbers _ _ _ _ E), followup_numbers.
  rewrite length_app, seq_app. f_equal. f_equal. lia.
Qed.

(** *** The stream *)

Lemma final_result_logs (logs rest : list ResearchEvent) (so_far : option Analysis) :
  Forall is_log logs -> final_result (logs ++ rest) so_far = final_result rest so_far.
Proof.
  induction 1 as [|e l He _ IH]; [reflexivity|].
  destruct e; [exact IH | now elim He].
Qed.

Lemma answered_app (l1 l2 : list ResearchEvent) :
  answered (l1 ++ l2) = answered l1 ++ answered l2.
Proof. apply flat_map_app. Qed.

Lemma ask_ok (w : World) (announce : nat -> string -> ResearchLog)
    (announce_ok : forall i c c', announce i c <> Answered c')
    (questions : list HistoricalQuestion) (i asked : nat) (rest : Gen) :
  snd (ask w announce i asked questions rest) = None <->
  (forall n, (n < length questions)%nat -> exists u, answers w (asked + n) = Returned u) /\
  snd rest = None.
Proof.
  revert i asked. induction questions as [|q r IH]; intros i asked; cbn [ask].
  - simpl. split; [intros H; split; [intros n Hn; lia | exact H] | tauto].
  - cbn [yield snd]. destruct (answers w asked) as [u|e] eqn:A.
    + cbn [yield snd]. rewrite IH. split.
      * intros [H1 H2]. split; [|exact H2]. intros [|n] Hn.
        -- rewrite Nat.add_0_r. now exists u.
        -- replace (asked + S n)%nat with (S asked + n)%nat by lia. apply H1. simpl in Hn. lia.
      * intros [H1 H2]. split; [|exact H2]. intros n Hn.
        replace (S asked + n)%nat with (asked + S n)%nat by lia. apply H1. simpl. lia.
    + simpl. split; [discriminate|]. intros [H1 _].
      destruct (H1 O) as [u Hu]; [simpl; lia|]. rewrite Nat.add_0_r in Hu. congruence.
Qed.

Lemma ask_events (w : World) (announce : nat -> string -> ResearchLog)
    (announce_ok : forall i c c', announce i c <> Answered c')
    (questions : list HistoricalQuestion) (i asked : nat) (rest : Gen) :
  snd (ask w announce i asked questions rest) = None ->
  exists logs,
    fst (ask w announce i asked questions rest) = logs ++ fst rest /\
    Forall is_log logs /\ answered logs = map category questions.
Proof.
  revert i asked. induction questions as [|q r IH]; intros i asked; cbn [ask].
  - intros _. exists []. repeat split. constructor.
  - cbn [yield snd]. destruct (answers w asked) as [u|e]; [|discriminate].
    cbn [yield snd fst]. intros H. destruct (IH _ _ H) as (logs & -> & L & A).
    exists (ResearchLogged (announce i (category q))
            :: ResearchLogged (Answered (category q)) :: logs).
    split; [reflexivity|]. split; [repeat constructor; exact L|].
    unfold answered in *. cbn [flat_map]. rewrite A.
    specialize (announce_ok i (category q)).
    destruct (announce i (category q)); try reflexivity. now elim (announce_ok category0).
Qed.

(** X28. [research_event] returns an analysis or raises; it never
    returns nothing. It returns the analysis that the synthesis
    makes exactly when the plan of questions could be made, every
    question put was answered and the synthesis succeeded; then the
    stream has reported as answered each question put, in their
    order. That the follow-up questions cannot be had never makes
    the research fail. *)
Theorem research_returns_the_synthesis (w : World) (event_description event_id : string) :
  research_event w event_description event_id <> inr None /\
  forall a,
    research_event w event_description event_id = inr (Some a) <->
    (exists questions, _generate_questions_with_grok w = inr questions) /\
    (forall n, (n < length (questions_put w))%nat -> exists u, answers w n = Returned u) /\
    _synthesize_analysis w event_id event_description = inr a /\
    answered (fst (stream_research_event w event_description event_id))
      = map category (questions_put w).
Proof.
  unfold research_event, stream_research_event, questions_put.
  destruct (_generate_questions_with_grok w) as [e|qs] eqn:G.
  { cbn. split; [discriminate|]. intros a. split; [discriminate|].
    intros ([qs Q] & _). discriminate Q. }
  set (total := length qs).
  set (dd := _generate_followup_questions w total).
  set (finish := yield Synthesizing
                   match _synthesize_analysis w event_id event_description with
                   | inl e => ([], Some e)
                   | inr final_response => ([ResearchResult final_response], None)
                   end).
  set (tail := match dd with
               | [] => finish
               | _ => yield (DeepDive (length dd)) (ask w InvestigatingDeeper 1 total dd finish)
               end).
  set (body := ask w (fun i c => Investigating i total c) 1 0 qs (yield AnalyzingGaps tail)).
  assert (O1 : forall i c c', Investigating i total c <> Answered c') by discriminate.
  assert (O2 : forall i c c', InvestigatingDeeper i c <> Answered c') by discriminate.
  assert (F : snd finish = None <->
              exists a, _synthesize_analysis w event_id event_description = inr a).
  { unfold finish. cbn [yield snd].
    destruct (_synthesize_analysis w event_id event_description) as [e|a]; simpl.
    - split; [discriminate | intros [a Ha]; discriminate Ha].
    - split; [now exists a | reflexivity]. }
  assert (FE : forall a, _synthesize_analysis w event_id event_description = inr a ->
                         fst finish = [ResearchLogged Synthesizing; ResearchResult a]).
  { intros a Ha. unfold finish. now rewrite Ha. }
  assert (T : snd tail = None <->
              (forall n, (n < length dd)%nat -> exists u, answers w (total + n) = Returned u)
              /\ snd finish = None).
  { unfold tail. destruct dd as [|q r] eqn:D.
    - split; [intros H; split; [intros n Hn; simpl in Hn; lia | exact H] | tauto].
    - cbn [yield snd]. apply (ask_ok w InvestigatingDeeper O2). }
  assert (TE : snd tail = None ->
               exists logs, fst tail = logs ++ fst finish /\ Forall is_log logs /\
                            answered logs = map category dd).
  { unfold tail. destruct dd as [|q r] eqn:D.
    - intros _. exists []. repeat split. constructor.
    - cbn [yield snd fst]. intros H.
      destruct (ask_events w InvestigatingDeeper O2 _ _ _ _ H) as (logs & -> & L & A).
      exists (ResearchLogged (DeepDive (length (q :: r))) :: logs).
      split; [reflexivity|]. split; [now constructor | exact A]. }
  pose proof (ask_ok w (fun i c => Investigating i total c) O1 qs 1 0
                (yield AnalyzingGaps tail)) as B. fold body in B. cbn [yield snd] in B.
  pose proof (ask_events w (fun i c => Investigating i total c) O1 qs 1 0
                (yield AnalyzingGaps tail)) as BE. fold body in BE. cbn [yield fst] in BE.
  cbn [yield]. destruct (snd body) as [e|] eqn:SB.
  { destruct body as [ev sb]. simpl in SB. subst sb. cbn [fst snd].
    split; [discriminate|]. intros a. split; [discriminate|].
    intros (_ & A & Sy & _). exfalso.
    assert (X : Some e = None); [|discriminate X].
    apply B. split.
    - intros n Hn. apply (A n). rewrite length_app. lia.
    - apply T. split.
      + intros n Hn. apply A. rewrite length_app. fold total. lia.
      + apply F. now exists a. }
  destruct (proj1 B eq_refl) as [A1 T0]. apply T in T0 as T1. destruct T1 as [A2 F0].
  apply F in F0 as F1. destruct F1 as [a0 Ha0].
  destruct (BE eq_refl) as (logs1 & E1 & L1 & N1).
  destruct (TE T0) as (logs2 & E2 & L2 & N2).
  rewrite E2, (FE a0 Ha0) in E1.
  destruct body as [ev sb]. simpl in SB, E1. subst sb ev. cbn [fst snd].
  assert (R : final_result
                (ResearchLogged (GeneratingPlan event_description)
                 :: ResearchLogged (GeneratedQuestions total) :: ResearchLogged QueryingGrok
                 :: logs1 ++ ResearchLogged AnalyzingGaps
                 :: logs2 ++ [ResearchLogged Synthesizing; ResearchResult a0]) None
              = Some a0).
  { cbn [final_result]. rewrite (final_result_logs _ _ _ L1). cbn [final_result].
    now rewrite (final_result_logs _ _ _ L2). }
  cbn [yield fst snd]. rewrite R. split; [discriminate|]. intros a. rewrite Ha0. split.
  - intros [= <-]. split; [now exists qs|]. split; [|split; [reflexivity|]].
    + intros n Hn. rewrite length_app in Hn. fold total in Hn.
      destruct (Nat.lt_ge_cases n total) as [Lt|Ge]; [now apply (A1 n)|].
      replace n with (total + (n - total))%nat by lia. apply A2. fold dd in Hn. lia.
    + unfold answered in *. cbn [flat_map app].
      rewrite flat_map_app, N1. cbn [flat_map app].
      rewrite flat_map_app, N2, map_app. cbn. now rewrite app_nil_r.
  - intros (_ & _ & [= ->] & _). reflexivity.
Qed.

(** *** The synthesis *)

Lemma in_range_bounds (x : Q) : in_range x = true -> (0 <= x /\ x <= 100)%Q.
Proof.
  unfold in_range. rewrite andb_true_iff, !Qle_bool_iff. tauto.
Qed.

Lemma signal_of_strength (s : RawSignal) (d : SignalData) :
  signal_of s = inr d -> (0 <= strength d /\ strength d <= 100)%Q.
Proof.
  unfold signal_of.
  destruct (SentimentEnum_of _); [discriminate|]. cbn [bind].
  destruct (ConfidenceEnum_of _); [discriminate|]. cbn [bind].
  destruct (in_range (raw_strength s)) eqn:R; [|discriminate].
  intros [= <-]. exact (in_range_bounds _ R).
Qed.

Lemma traverse_signals (l : list RawSignal) (ds : list SignalData) :
  traverse signal_of l = inr ds ->
  Forall (fun d => (0 <= strength d /\ strength d <= 100)%Q) ds.
Proof.
  revert ds. induction l as [|s r IH]; intros ds; cbn [traverse].
  - intros [= <-]. constructor.
  - destruct (signal_of s) as [e|d] eqn:S; [discriminate|]. cbn [bind].
    destruct (traverse signal_of r) as [e|ds'] eqn:T; [discriminate|]. cbn [bind].
    intros [= <-]. constructor; [exact (signal_of_strength _ _ S) | now apply IH].
Qed.

(** X29. The numbers of an analysis that [_synthesize_analysis] returns
    are percentages: the probability estimate, the overall signal
    strength and the strength of every signal lie between 0 and 100
    (a reply with a number outside makes the synthesis raise).
    Hence the model probabilities that the server computes from the
    dumped analysis for a market of two outcomes without quoted odds
    lie between 0 and 100 too. *)
Theorem researched_numbers_are_percentages (w : World) (event_id event_description : string)
    (a : Analysis) :
  _synthesize_analysis w event_id event_description = inr a ->
  (0 <= probability_estimate a /\ probability_estimate a <= 100)%Q /\
  (0 <= overall_signal_strength a /\ overall_signal_strength a <= 100)%Q /\
  Forall (fun d => (0 <= strength d /\ strength d <= 100)%Q)
    (bullish_signals a ++ bearish_signals a) /\
  forall (x y : OutcomeData) (fd : option FoundationalData),
    no_quoted_odds fd ->
    Forall (fun e => (0 <= grok_probability e /\ grok_probability e <= 100)%Q)
      (generate_outcome_estimates [x; y] fd (Some (model_dump a))).
Proof.
  unfold _synthesize_analysis.
  destruct (called (synthesis w)) as [e|response]; [discriminate|]. cbn [bind].
  unfold analysis_of.
  destruct (SentimentEnum_of _); [discriminate|]. cbn [bind].
  destruct (ConfidenceEnum_of _); [discriminate|]. cbn [bind].
  destruct (traverse signal_of (raw_bullish_signals response)) as [e|bull] eqn:B;
    [discriminate|]. cbn [bind].
  destruct (ConfidenceEnum_of _); [discriminate|]. cbn [bind].
  destruct (traverse signal_of (raw_bearish_signals response)) as [e|bear] eqn:R;
    [discriminate|]. cbn [bind].
  destruct (ConfidenceEnum_of _); [discriminate|]. cbn [bind].
  destruct (in_range (raw_overall_signal_strength response)) eqn:S; [|discriminate].
  destruct (in_range (raw_probability_estimate response)) eqn:P; [|discriminate].
  cbn [andb]. intros [= <-]. cbn.
  apply in_range_bounds in S, P.
  split; [exact P|]. split; [exact S|]. split.
  { apply Forall_app. split; [exact (traverse_signals _ _ B) | exact (traverse_signals _ _ R)]. }
  intros x y fd H.
  destruct (binary_market_estimates x y fd
              (dumped s c (raw_probability_estimate response) (raw_recommendation response)) H)
    as (ea & eb & Perm & _ & Pa & _ & Pb).
  apply List.Forall_forall. intros e In.
  apply (Permutation_in _ Perm) in In. cbn in Pa, Pb.
  assert (L : (raw_probability_estimate response <= inject_Z 100)%Q) by apply P.
  assert (G : (inject_Z 0 <= raw_probability_estimate response)%Q) by apply P.
  destruct In as [<-|[<-|[]]].
  - rewrite Pa. split; [exact (round1_ge 0 _ G) | exact (round1_le 100 _ L)].
  - rewrite Pb. destruct (outcome_eqb x y).
    + split; [exact (round1_ge 0 _ G) | exact (round1_le 100 _ L)].
    + split; [apply (round1_ge 0) | apply (round1_le 100)];
        change (inject_Z 0) with 0%Q; change (inject_Z 100) with 100%Q; lra.
Qed.

Lemma researched_numbers_are_percentages_witness :
  exists a,
    _synthesize_analysis sample_research "e1" "Will the town fall?" = inr a /\
    probability_estimate a = 15%Q /\
    Forall (fun e => (0 <= grok_probability e /\ grok_probability e <= 100)%Q)
      (generate_outcome_estimates (outcomes rain) None (Some (model_dump a))).
Proof.
  eexists. split; [reflexivity|]. split; [reflexivity|].
  refine (proj2 (proj2 (proj2 (researched_numbers_are_percentages sample_research "e1"
            "Will the town fall?" _ eq_refl))) _ _ None _).
  constructor.
Defined.

(** *** The confidence labels *)

Lemma lower_char_space (a : ascii) : lower_char a = " "%char -> a = " "%char.
Proof.
  destruct a as [[] [] [] [] [] [] [] []]; vm_compute; congruence.
Qed.

Lemma normalized_spells (label value : string) :
  without " " value = true ->
  replace " " "_" (lower label) = value <-> spells label value.
Proof.
  revert value. induction label as [|a l IH]; intros [|b v] W; cbn [lower replace spells].
  - tauto.
  - split; [discriminate | tauto].
  - destruct (Ascii.eqb (lower_char a) " "); simpl; (split; [discriminate | tauto]).
  - cbn [without] in W. apply andb_true_iff in W as [Wb Wv].
    apply negb_true_iff, Ascii.eqb_neq in Wb.
    destruct (Ascii.eqb (lower_char a) " ") eqn:E.
    + apply Ascii.eqb_eq in E. simpl. split.
      * intros [= <- Hv]. split; [right; split; [now apply lower_char_space | reflexivity]|].
        exact (proj1 (IH v Wv) Hv).
      * intros [[Hb|[_ ->]] Hs]; [congruence|]. f_equal. exact (proj2 (IH v Wv) Hs).
    + apply Ascii.eqb_neq in E. split.
      * intros [= <- Hv]. split; [now left | exact (proj1 (IH v Wv) Hv)].
      * intros [[<-|[-> _]] Hs]; [f_equal; exact (proj2 (IH v Wv) Hs) | now elim E].
Qed.

Lemma ConfidenceEnum_of_value (s : string) (c : ConfidenceEnum) :
  ConfidenceEnum_of s = inr c <-> s = ConfidenceEnum_value c.
Proof.
  unfold ConfidenceEnum_of.
  repeat match goal with
         | |- context [String.eqb s ?v] => destruct (String.eqb_spec s v) as [->|?]
         end; destruct c; simpl; split; intros H; try congruence; try discriminate.
Qed.

(** X30. Which confidence labels of a reply the synthesis accepts: a
    null or empty label stands for MEDIUM, as does a missing one
    where the key is read with [.get]; any other label is taken for
    the member of [ConfidenceEnum] whose value it spells, whatever
    the case of its letters and with blanks or underscores between
    the words, and for no other; a label that spells no value makes
    the synthesis raise. *)
Theorem confidence_label_is_accepted_iff (conf_str : option string) (c : ConfidenceEnum) :
  ConfidenceEnum_of (normalize_confidence conf_str) = inr c <->
  match conf_str with
  | None | Some EmptyString => c = MEDIUM
  | Some label => spells label (ConfidenceEnum_value c)
  end.
Proof.
  destruct conf_str as [[|a l]|]; cbn [normalize_confidence nonempty].
  - rewrite ConfidenceEnum_of_value. destruct c; simpl; split; congruence.
  - rewrite ConfidenceEnum_of_value. apply normalized_spells. now destruct c.
  - rewrite ConfidenceEnum_of_value. destruct c; simpl; split; congruence.
Qed.

End ResearchFacts.
